(** * Attention engine of [multi_head_attention.py]: a shallow embedding

    Tensors are nested lists in row-major order, the way the source lays them
    out: a [view] is a re-chunking of the flattened data, a slice is a Python
    slice with its negative-index rules, and an in-place slice assignment
    checks (and broadcasts) shapes as torch does.  Batch and head axes, which
    every function of the source maps over, are carried by [map]. *)

From Stdlib Require Import List ZArith Lia Bool Arith PeanoNat Reals Lra.
Import ListNotations.

Set Implicit Arguments.

(* ================================================================== *)
(** * Part I: definitions                                              *)
(* ================================================================== *)

(** ** Exceptions and results *)

Inductive exn : Type :=
| ValueError      (* raise ValueError(...) in the source *)
| IndexError      (* index out of range *)
| AttributeError  (* a buffer read before it was registered *)
| AssertionError  (* a failed [assert] *)
| ZeroDivisionError (* a Python division by zero *)
| RuntimeError.   (* torch shape mismatch, [torch.arange] with inconsistent bounds *)

Inductive result (A : Type) : Type :=
| Ok (a : A)
| Raise (e : exn).

Arguments Ok {A} a.
Arguments Raise {A} e.

Definition bind {A B} (r : result A) (k : A -> result B) : result B :=
  match r with
  | Ok a => k a
  | Raise e => Raise e
  end.

Declare Scope result_scope.
Delimit Scope result_scope with result.
Notation "x <- r ;; k" := (bind r (fun x => k))
  (at level 61, r at next level, right associativity) : result_scope.

Fixpoint map_result {X Y} (f : X -> result Y) (l : list X) : result (list Y) :=
  match l with
  | [] => Ok []
  | x :: l => (y <- f x ;; ys <- map_result f l ;; Ok (y :: ys))%result
  end.

(** ** Python slices *)

Module Py.

(** Position of a slice bound [i] in a sequence of length [n]: negative
    bounds count from the end, and every bound is clipped to [0, n]. *)
Definition clip (n : nat) (i : Z) : nat :=
  Z.to_nat (if (i <? 0)%Z then Z.max 0 (i + Z.of_nat n) else Z.min i (Z.of_nat n)).

Definition lower (n : nat) (lo : option Z) : nat :=
  match lo with None => 0 | Some i => clip n i end.

Definition upper (n : nat) (hi : option Z) : nat :=
  match hi with None => n | Some i => clip n i end.

(** [l[lo:hi]] *)
Definition slice {A} (lo hi : option Z) (l : list A) : list A :=
  let a := lower (length l) lo in
  let b := upper (length l) hi in
  firstn (b - a) (skipn a l).

(** torch broadcasting of a source along one axis to [n] entries. *)
Definition broadcast_to {A} (n : nat) (src : list A) : result (list A) :=
  if length src =? n then Ok src
  else match src with
       | [x] => Ok (repeat x n)
       | _ => Raise RuntimeError
       end.

(** An in-place update of the cells [dst[lo:hi]] from [src], along one
    axis: [src] is broadcast to the extent of the slice and [put d s] is
    the new content of a cell holding [d] that receives [s] (itself an
    update of the next axis, which can fail). *)
Definition slice_update {A B} (put : A -> B -> result A) (lo hi : option Z)
    (dst : list A) (src : list B) : result (list A) :=
  let a := lower (length dst) lo in
  let b := upper (length dst) hi in
  (s <- broadcast_to (b - a) src ;;
   mid <- map_result (fun ds => put (fst ds) (snd ds))
                     (combine (firstn (b - a) (skipn a dst)) s) ;;
   Ok (firstn a dst ++ mid ++ skipn (a + (b - a)) dst))%result.

(** [dst[lo:hi] = src] *)
Definition slice_assign {A} := @slice_update A A (fun _ s => Ok s).

(** [dst[lo:hi] = c] for a scalar [c] *)
Definition slice_fill {A} (lo hi : option Z) (c : A) (dst : list A) : list A :=
  let a := lower (length dst) lo in
  let b := upper (length dst) hi in
  firstn a dst ++ repeat c (length (firstn (b - a) (skipn a dst)))
    ++ skipn (a + (b - a)) dst.

End Py.

(** ** Views of contiguous data *)

Section Views.
Context {A : Type}.

(** [x.view(rows, cols)] of flat data: row [r] is the run
    [[r*cols, (r+1)*cols)]. *)
Definition view (rows cols : nat) (flat : list A) : list (list A) :=
  map (fun r => firstn cols (skipn (r * cols) flat)) (seq 0 rows).

(** [x.view(-1, cols)]: the row count is inferred from the size. *)
Definition view_infer (cols : nat) (flat : list A) : list (list A) :=
  view (length flat / cols) cols flat.

(** Entry [i, j] of a matrix, when there is one. *)
Definition entry (m : list (list A)) (i j : nat) : option A :=
  match nth_error m i with
  | Some row => nth_error row j
  | None => None
  end.

(** A matrix of [rows] rows, each of [cols] entries. *)
Definition shaped (rows cols : nat) (m : list (list A)) : Prop :=
  length m = rows /\ Forall (fun row => length row = cols) m.

(** Tensors of three and of four axes with the given sizes. *)
Definition shaped3 (a b c : nat) (x : list (list (list A))) : Prop :=
  length x = a /\ Forall (shaped b c) x.

Definition shaped4 (a b c d : nat) (x : list (list (list (list A)))) : Prop :=
  length x = a /\ Forall (shaped3 b c d) x.
End Views.

(** ** Scalars *)

(** The arithmetic the engine asks of its element type.  [lit z] is the
    float literal of integer value [z] ([0.0], [1.0], [-1], [-10000.0]). *)
Class Scalar (num : Type) : Type := {
  lit : Z -> num;
  add : num -> num -> num;
  mul : num -> num -> num;
  div : num -> num -> num;
  expo : num -> num;
  root : num -> num
}.

(** Ideal arithmetic: the reals. *)
#[export] Instance real_scalar : Scalar R := {
  lit := IZR;
  add := Rplus;
  mul := Rmult;
  div := Rdiv;
  expo := exp;
  root := sqrt
}.

(** ** Tensors *)

Section Engine.
Context {num : Type} `{Scalar num}.

(** A score is a number or the [-inf] that [mask_invalid_locations] writes. *)
Definition score : Type := option num.
Definition neg_inf : score := None.

Definition vec : Type := list num.
Definition mat : Type := list vec.

Definition sum (l : list num) : num := fold_right add (lit 0) l.

Definition dot (a b : vec) : num :=
  sum (map (fun ab => mul (fst ab) (snd ab)) (combine a b)).

(** [torch.matmul(a, b.transpose(-2, -1))], also [einsum('xd,yd->xy')] *)
Definition matmul_nt (a b : mat) : mat :=
  map (fun ra => map (fun rb => dot ra rb) b) a.

Definition width {A} (m : list (list A)) : nat := length (hd [] m).

Definition column (j : nat) (m : mat) : vec := map (fun r => nth j r (lit 0)) m.

(** [torch.matmul(a, b)], also [einsum('wd,dh->wh')] *)
Definition matmul (a b : mat) : mat :=
  map (fun ra => map (fun j => dot ra (column j b)) (seq 0 (width b))) a.

(** Sum and quotient of scores: [-inf] absorbs. *)
Definition score_add (a b : score) : score :=
  match a, b with
  | Some x, Some y => Some (add x y)
  | _, _ => None
  end.

Definition score_div (a : score) (c : num) : score := option_map (fun x => div x c) a.

(** [exp] of a score; [exp(-inf) = 0]. *)
Definition score_exp (a : score) : num :=
  match a with Some x => expo x | None => lit 0 end.

(** [torch.softmax(row, dim=-1)] *)
Definition softmax (row : list score) : vec :=
  let z := sum (map score_exp row) in
  map (fun a => div (score_exp a) z) row.

(** [x.masked_fill(mask, c)] along one axis, the mask broadcast to [x]. *)
Definition masked_fill {A} (mask : list bool) (c : A) (x : list A) : result (list A) :=
  (m <- Py.broadcast_to (length x) mask ;;
   Ok (map (fun mx => if fst mx : bool then c else snd mx) (combine m x)))%result.

(** Head split of [forward_qkv]: [view(n_batch, -1, h, d_k).transpose(1, 2)]
    on one batch element, [(time, h * d_k)] to [(h, time, d_k)]. *)
Definition split_heads (h d_k : nat) (x : mat) : list mat :=
  map (fun head => map (fun frame => nth head (view h d_k frame) []) x) (seq 0 h).

(** [x.transpose(1, 2).reshape(n_batch, -1, h * d_k)] on one batch element,
    [(h, time, d_k)] to [(time, h * d_k)]. *)
Definition merge_heads (x : list mat) : mat :=
  map (fun t => concat (map (fun head => nth t head []) x)) (seq 0 (width x)).
End Engine.

Section Blocks.
Context {A : Type}.

(** [x.shape[1]] of [(batch, time, size)] *)
Definition time_len (x : list (list A)) : nat := length (hd [] x).

(** [l[i]] for a Python index. *)
Definition py_index (i : Z) (l : list A) : result A :=
  let k := if (i <? 0)%Z then (i + Z.of_nat (length l))%Z else i in
  if (k <? 0)%Z then Raise IndexError
  else match nth_error l (Z.to_nat k) with
       | Some x => Ok x
       | None => Raise IndexError
       end.

(** In-place update of [l[i]]. *)
Definition update_at (i : Z) (f : A -> result A) (l : list A) : result (list A) :=
  let k := if (i <? 0)%Z then (i + Z.of_nat (length l))%Z else i in
  if (k <? 0)%Z then Raise IndexError
  else match nth_error l (Z.to_nat k) with
       | Some x =>
           (y <- f x ;; Ok (firstn (Z.to_nat k) l ++ y :: skipn (S (Z.to_nat k)) l))%result
       | None => Raise IndexError
       end.

Definition extent (n : nat) (lo hi : option Z) : nat := Py.upper n hi - Py.lower n lo.

(** [dst[rlo:rhi, clo:chi] = src[srlo:srhi, sclo:schi]] for a destination
    of [dcols] columns and a source of [scols] columns.  torch compares the
    shapes of the two blocks, also when a block has no row. *)
Definition block_copy (dcols : nat) (rlo rhi clo chi : option Z) (dst : list (list A))
    (scols : nat) (srlo srhi sclo schi : option Z) (src : list (list A))
  : result (list (list A)) :=
  let block := map (Py.slice sclo schi) (Py.slice srlo srhi src) in
  let sc := extent scols sclo schi in
  let dc := extent dcols clo chi in
  if (sc =? dc) || (sc =? 1)
  then Py.slice_update (fun d s => Py.slice_assign clo chi d s) rlo rhi dst block
  else Raise RuntimeError.

(** [F.pad(x, (left, right, top, bottom), value)] of a matrix. *)
Definition pad2 (left right top bottom : nat) (value : A) (x : list (list A))
  : list (list A) :=
  let cols := width x + left + right in
  repeat (repeat value cols) top
    ++ map (fun row => repeat value left ++ row ++ repeat value right) x
    ++ repeat (repeat value cols) bottom.

(** Zip of two axes, the second broadcast to the first. *)
Definition zip_broadcast {X Y Z'} (f : X -> Y -> result Z') (xs : list X) (ys : list Y)
  : result (list Z') :=
  (ys <- Py.broadcast_to (length xs) ys ;;
   map_result (fun xy => f (fst xy) (snd xy)) (combine xs ys))%result.

(** Elementwise combination of two axes under torch broadcasting: equal
    sizes are zipped, an axis of size one is repeated along the other, any
    other pair of sizes is a shape error. *)
Definition broadcast_zip {X Y Z'} (f : X -> Y -> result Z') (xs : list X) (ys : list Y)
  : result (list Z') :=
  if length xs =? length ys
  then map_result (fun xy => f (fst xy) (snd xy)) (combine xs ys)
  else match xs, ys with
       | [x], _ => map_result (f x) ys
       | _, [y] => map_result (fun x => f x y) xs
       | _, _ => Raise RuntimeError
       end.
End Blocks.

(** ** MultiHeadAttention *)

Module MultiHeadAttention.

Section Cache.
(** One time step of a sequence: its feature vector.  [update_cache] takes
    the feature axis whole ([:]) everywhere, so a frame is atomic here. *)
Context {frame : Type}.

(** [(batch, time, size)] *)
Definition seqs : Type := list (list frame).
(** [(cache_nums, batch, time_cache, size)] *)
Definition cache_buf : Type := list seqs.

(** The two buffers a call may be handed; [None] is Python's [None].  The
    two are tensors of their own: a call whose [cache_next] is the very
    tensor passed as [cache] is not described by this state. *)
Record buffers : Type := Buffers {
  cache : option cache_buf;
  cache_next : option cache_buf
}.

(** [torch.cat([a, b], dim=1)]: the batch sizes must agree. *)
Definition cat_time (a b : seqs) : result seqs :=
  if length a =? length b
  then Ok (map (fun ab => fst ab ++ snd ab) (combine a b))
  else Raise RuntimeError.

Definition set_slot (id : nat) (slot : seqs) (buf : cache_buf) : cache_buf :=
  firstn id buf ++ slot :: skipn (S id) buf.

(** [buf[id, :, lo:hi, :] = src]: the slot is looked up, the source is
    broadcast along the batch axis and copied along the time axis. *)
Definition write_slot (id : nat) (lo hi : option Z) (buf : cache_buf) (src : seqs)
  : result cache_buf :=
  match nth_error buf id with
  | None => Raise IndexError
  | Some slot =>
      (src <- Py.broadcast_to (length slot) src ;;
       slot' <- map_result (fun ds => Py.slice_assign lo hi (fst ds) (snd ds))
                           (combine slot src) ;;
       Ok (set_slot id slot' buf))%result
  end.

Variable _cache_id : nat.
Variable cache_drop_size : Z.

(** The call returns [(key, value, query)] or raises; either way the
    buffers are left in the state the executed assignments produced. *)
Definition update_cache (key value query : seqs) (st : buffers)
  : result (seqs * seqs * seqs) * buffers :=
  match cache st with
  | None => (Ok (key, value, query), st)
  | Some c =>
      match nth_error c _cache_id with
      | None => (Raise IndexError, st)
      | Some slot =>
          match cat_time slot key with
          | Raise e => (Raise e, st)
          | Ok kv =>
              let q_keep_size := (Z.of_nat (time_len query) - cache_drop_size)%Z in
              match cache_next st with
              | None => (Ok (kv, kv, query), st)
              | Some cn =>
                  match write_slot _cache_id None (Some (- q_keep_size)%Z) cn
                          (map (Py.slice (Some q_keep_size) None) slot) with
                  | Raise e => (Raise e, st)
                  | Ok cn1 =>
                      let st1 := Buffers (cache st) (Some cn1) in
                      match write_slot _cache_id (Some (- q_keep_size)%Z) None cn1
                              (map (Py.slice None (Some q_keep_size)) query) with
                      | Raise e => (Raise e, st1)
                      | Ok cn2 => (Ok (kv, kv, query), Buffers (cache st) (Some cn2))
                      end
                  end
              end
          end
      end
  end.
End Cache.

Section Layer.
Context {num : Type} `{Scalar num}.
Local Abbreviation score := (@score num).
Local Abbreviation vec := (@vec num).
Local Abbreviation mat := (@mat num).

(** The fields of a layer: the sizes and the affine maps of the [nn.Linear]
    layers, each acting on one frame. *)
Variables n_head n_feat : nat.
Variables linear_q linear_k linear_v linear_out : vec -> vec.

Definition d_k : nat := n_feat / n_head.
Definition s_d_k : num := root (lit (Z.of_nat d_k)).

(** An [nn.Linear(n_feat, n_feat)] applied to [(batch, time, size)]: a
    frame of another size cannot be multiplied. *)
Definition apply_linear (f : vec -> vec) (x : list mat) : result (list mat) :=
  map_result
    (map_result (fun frame => if length frame =? n_feat then Ok (f frame)
                              else Raise RuntimeError)) x.

(** The batch axis of [x.view(n_batch, -1, h, d_k)], where [n_batch] is the
    batch size of the query: a tensor of that batch size is taken entry by
    entry; the frames of a tensor of another batch size are regrouped into
    [n_batch] entries of equal length, which they must fill exactly. *)
Definition view_batch (n_batch : nat) (x : list mat) : result (list mat) :=
  if length x =? n_batch then Ok x
  else
    let frames := concat x in
    if (n_batch =? 0) || negb (length frames mod n_batch =? 0) then Raise RuntimeError
    else Ok (view n_batch (length frames / n_batch) frames).

(** [forward_qkv]: each result is [(batch, head, time, d_k)]. *)
Definition forward_qkv (query key value : list mat)
  : result (list (list mat) * list (list mat) * list (list mat)) :=
  let n_batch := length query in
  (q <- apply_linear linear_q query ;;
   k <- apply_linear linear_k key ;;
   k <- view_batch n_batch k ;;
   v <- apply_linear linear_v value ;;
   v <- view_batch n_batch v ;;
   Ok (map (split_heads n_head d_k) q,
       map (split_heads n_head d_k) k,
       map (split_heads n_head d_k) v))%result.

(** The attention weights [attn] of [forward_attention] for one query row
    (the dropout that follows is the identity at inference). *)
Definition attention_row (row : vec) (mask : option (list bool)) : result vec :=
  match mask with
  | Some m =>
      (filled <- masked_fill m (lit (-10000)) row ;;
       masked_fill m (lit 0) (softmax (map Some filled)))%result
  | None => Ok (softmax (map Some row))
  end.

(** The weights [attn] of [forward_attention]: [scores] is
    [(batch, head, time1, time2)], [mask] is [(batch, time1, time2)]. *)
Definition attention_weights (scores : list (list mat))
    (mask : option (list (list (list bool)))) : result (list (list mat)) :=
  match mask with
  | Some mask =>
      zip_broadcast
        (fun heads m =>
           map_result
             (fun sc => zip_broadcast (fun row mrow => attention_row row (Some mrow)) sc m)
             heads)
        scores mask
  | None => Ok (map (map (map (fun row => softmax (map Some row)))) scores)
  end.

(** [forward_attention] at inference. *)
Definition forward_attention (value scores : list (list mat))
    (mask : option (list (list (list bool)))) : result (list mat) :=
  (attn <- attention_weights scores mask ;;
   let p_attn := attn in
   let x := map (fun pv => map (fun a => matmul (fst a) (snd a)) (combine (fst pv) (snd pv)))
                (combine p_attn value) in
   let x := map merge_heads x in
   apply_linear linear_out x)%result.

(** The streaming settings of a layer. *)
Variable _cache_id : nat.
Variable cache_drop_size : Z.

(** [torch.matmul(q, k.transpose(-2, -1)) / self.s_d_k]; the batch axes of
    [q] and [k] are broadcast against each other. *)
Definition scaled_scores (q k : list (list mat)) : result (list (list mat)) :=
  broadcast_zip
    (fun qh kh =>
       Ok (map (fun a => map (map (fun x => div x s_d_k))
                             (matmul_nt (fst a) (snd a)))
               (combine qh kh)))
    q k.

(** [forward] of [MultiHeadAttention] at inference: the result, or the
    exception, with the buffers as the call leaves them. *)
Definition forward (query key value : list mat)
    (mask : option (list (list (list bool)))) (st : @buffers vec)
  : result (list mat) * @buffers vec :=
  let '(r, st) := update_cache _cache_id cache_drop_size key value query st in
  match r with
  | Raise e => (Raise e, st)
  | Ok (key, value, query) =>
      ((qkv <- forward_qkv query key value ;;
        let '(q, k, v) := qkv in
        scores <- scaled_scores q k ;;
        forward_attention v scores mask)%result, st)
  end.
End Layer.

End MultiHeadAttention.

Section CacheSpecification.
Context {frame : Type}.

(** What the specification says the next-cache slot holds afterwards: the
    old slot from frame [keep] on, then the first [keep] query frames. *)
Definition spec_next_slot (keep : nat) (slot query : list (list frame))
  : list (list frame) :=
  map (fun sq => skipn keep (fst sq) ++ firstn keep (snd sq)) (combine slot query).

(** Two buffers of one shape: as many slots, and in every slot as many
    batch entries of as many frames each. *)
Definition same_shape (a b : @MultiHeadAttention.cache_buf frame) : Prop :=
  Forall2 (fun sa sb : @MultiHeadAttention.seqs frame =>
             Forall2 (fun x y => length x = length y) sa sb) a b.
End CacheSpecification.

(** Sum of the entries of [x] at the positions a mask leaves visible
    ([true] marks a masked position), and the number of masked positions. *)
Fixpoint sum_unmasked (mask : list bool) (x : list R) : R :=
  match mask, x with
  | m :: mask, v :: x => ((if m then 0 else v) + sum_unmasked mask x)%R
  | _, _ => 0%R
  end.

Definition masked_count (mask : list bool) : nat := length (filter (fun b : bool => b) mask).

(** ** Positional encodings *)

(** The values [start, start + step, ...] that lie before [stop]: Python's
    [range(start, stop, step)], which is empty when there is none. *)
Definition range (start stop step : Z) : list Z :=
  let n := if (0 <? step)%Z then ((stop - start + step - 1) / step)%Z
           else if (step <? 0)%Z then ((start - stop - step - 1) / - step)%Z
           else 0%Z in
  map (fun i => (start + Z.of_nat i * step)%Z) (seq 0 (Z.to_nat n)).

(** [torch.arange(start, stop, step)] over the integers: the values of
    [range], but bounds that are inconsistent with the sign of the step, and
    a zero step, are an error. *)
Definition arange (start stop step : Z) : result (list Z) :=
  if ((0 <? step) && (stop <? start) || (step <? 0) && (start <? stop) || (step =? 0))%Z
  then Raise RuntimeError
  else Ok (range start stop step).

(** The table [pe] without its leading batch axis of size one, and the
    state of an encoding object: [None] until [pe] is registered. *)
Definition table : Type := list (list R).
Definition pe_state : Type := option table.

Module PositionalEncoding.
Section Fields.
Open Scope R_scope.
Variable d_model : nat.

(** [exp(arange(0, d_model, 2) * -(log(10000.0) / d_model))]; the bounds
    [0 <= d_model] of this [arange] are consistent for every [d_model]. *)
Definition div_term : list R :=
  map (fun i => exp (IZR i * - (ln 10000 / INR d_model)))
      (range 0 (Z.of_nat d_model) 2).

(** Row of the table for one position: the even columns [0::2] receive
    [sin(position * div_term)], the odd columns [1::2] the cosines. *)
Definition pe_row (position : Z) : list R :=
  map (fun c => let f := nth (c / 2) div_term 0 in
                if Nat.even c then sin (IZR position * f)
                else cos (IZR position * f))
      (seq 0 d_model).

(** The two strided assignments of [create_pe] copy [length div_term]
    columns into the even and into the odd columns; the shapes fit (up to
    broadcasting of a single column) for an even [d_model] and for
    [d_model = 1]. *)
Definition pe_shapes_fit : bool := Nat.even d_model || (d_model =? 1)%nat.

(** [create_pe]: the new value of the buffer [pe].  The quotient
    [math.log(10000.0) / self.d_model] is a Python division, which raises at
    [d_model = 0]. *)
Definition create_pe (positions : list Z) : result table :=
  if (d_model =? 0)%nat then Raise ZeroDivisionError
  else if pe_shapes_fit then Ok (map pe_row positions)
  else Raise RuntimeError.

(** [extend_pe] *)
Definition extend_pe (length : Z) (pe : pe_state) : result pe_state :=
  let create :=
    (positions <- arange 0 length 1 ;;
     t' <- create_pe positions ;; Ok (Some t'))%result in
  match pe with
  | Some t =>
      if (length <=? Z.of_nat (List.length t))%Z then Ok pe else create
  | None => create
  end.

(** [x * self.xscale] under [if self.xscale:], which a missing or zero
    scale skips. *)
Definition apply_xscale (xscale : option R) (x : list (list (list R)))
  : list (list (list R)) :=
  match xscale with
  | Some s => if Req_dec_T s 0 then x else map (map (map (fun v => v * s))) x
  | None => x
  end.

(** [forward] at inference: [x + pos_emb] with [pos_emb = pe[:, :x.size(1)]],
    whose leading axis of size one is broadcast over the batch. *)
Definition forward (xscale : option R) (x : list (list (list R))) (pe : pe_state)
  : result (list (list (list R)) * table) :=
  match pe with
  | None => Raise AttributeError
  | Some t =>
      let x := apply_xscale xscale x in
      let pos_emb := Py.slice None (Some (Z.of_nat (time_len x))) t in
      (x <- map_result
              (fun xb => broadcast_zip
                           (broadcast_zip (fun u v : R => Ok (u + v))) xb pos_emb) x ;;
       Ok (x, pos_emb))%result
  end.
End Fields.
End PositionalEncoding.

Module RelPositionalEncoding.
Import PositionalEncoding.
Section Fields.
Variable d_model : nat.

(** [extend_pe] *)
Definition extend_pe (length : Z) (pe : pe_state) : result pe_state :=
  let needed_size := (2 * length - 1)%Z in
  let create :=
    (positions <- arange (length - 1) (- length) (-1) ;;
     t' <- create_pe d_model positions ;; Ok (Some t'))%result in
  match pe with
  | Some t =>
      if (needed_size <=? Z.of_nat (List.length t))%Z then Ok pe else create
  | None => create
  end.

(** [forward] at inference (both dropouts are the identity): returns
    [(x, pos_emb)]. *)
Definition forward (xscale : option R) (x : list (list (list R)))
    (cache_len : Z) (pe : pe_state) : result (list (list (list R)) * table) :=
  match pe with
  | None => Raise AttributeError
  | Some t =>
      let x := apply_xscale xscale x in
      let input_len := (Z.of_nat (time_len x) + cache_len)%Z in
      let center_pos := (Z.of_nat (List.length t) / 2 + 1)%Z in
      let start_pos := (center_pos - input_len)%Z in
      let end_pos := (center_pos + input_len - 1)%Z in
      Ok (x, Py.slice (Some start_pos) (Some end_pos) t)
  end.
End Fields.
End RelPositionalEncoding.

Module LocalAttRelPositionalEncoding.
Import PositionalEncoding.
Section Fields.
Variable d_model : nat.
(** [att_context_size[0]] and [att_context_size[1]] *)
Variables left_context right_context : Z.

(** [extend_pe] *)
Definition extend_pe (length : Z) (pe : pe_state) : result pe_state :=
  match pe with
  | Some _ => Ok pe
  | None =>
      (positions <- arange left_context (- right_context - 1) (-1) ;;
       t' <- create_pe d_model positions ;;
       Ok (Some t'))%result
  end.

(** [forward] at inference. *)
Definition forward (xscale : option R) (x : list (list (list R)))
    (cache_len : Z) (pe : pe_state) : result (list (list (list R)) * table) :=
  match pe with
  | None => Raise AttributeError
  | Some t =>
      let x := apply_xscale xscale x in
      let end_pos := (left_context + right_context + 1)%Z in
      Ok (x, Py.slice None (Some end_pos) t)
  end.
End Fields.
End LocalAttRelPositionalEncoding.

(** The absolute table for a given length and the global relative one, and
    the entry of a table for a relative offset: the absolute table is indexed
    by the position itself, the global relative one runs from the largest
    positive offset down, with offset [0] at the middle index. *)
Section Tables.
Variable d_model : nat.

Definition abs_table (L : Z) : table :=
  map (PositionalEncoding.pe_row d_model) (range 0 L 1).

Definition rel_table (L : Z) : table :=
  map (PositionalEncoding.pe_row d_model) (range (L - 1) (- L) (-1)).

Definition abs_lookup (t : table) (offset : Z) : option (list R) :=
  if (offset <? 0)%Z then None else nth_error t (Z.to_nat offset).

Definition rel_lookup (t : table) (offset : Z) : option (list R) :=
  let center := (Z.of_nat (List.length t) / 2)%Z in
  if (center - offset <? 0)%Z then None else nth_error t (Z.to_nat (center - offset)).
End Tables.

(** A sequence of [extend_pe] calls on one encoding object. *)
Fixpoint extend_all (extend_pe : Z -> pe_state -> result pe_state) (lengths : list Z)
    (pe : pe_state) : result pe_state :=
  match lengths with
  | [] => Ok pe
  | L :: lengths => (pe' <- extend_pe L pe ;; extend_all extend_pe lengths pe')%result
  end.

(** ** RelPositionMultiHeadAttention *)

Module RelPositionMultiHeadAttention.
Import MultiHeadAttention.

Section Shift.
Context {A : Type}.
Variable zero : A.

(** One (batch, head) slice of [rel_shift]: [x] is [(qlen, pos_len)]. *)
Definition rel_shift_slice (x : list (list A)) : list (list A) :=
  let qlen := length x in
  let pos_len := length (hd [] x) in
  let x := map (cons zero) x in              (* pad=(1, 0): (t1, t2+1) *)
  let x := view_infer qlen (concat x) in     (* view(b, h, -1, qlen) *)
  view qlen pos_len (concat (tl x)).         (* x[:, :, 1:].view(b, h, qlen, pos_len) *)

(** The whole tensor [(b, h, qlen, pos_len)]. *)
Definition rel_shift (x : list (list (list (list A)))) :=
  map (map rel_shift_slice) x.

(** [matrix_bd[:, :, :, : matrix_ac.size(-1)]] after the shift, for a
    content-content matrix of trailing width [ac_width]. *)
Definition shifted_bd_slice (ac_width : nat) (raw : list (list A)) :=
  map (Py.slice None (Some (Z.of_nat ac_width))) (rel_shift_slice raw).

Definition shifted_bd (ac_width : nat) (raw : list (list (list (list A)))) :=
  map (map (map (Py.slice None (Some (Z.of_nat ac_width))))) (rel_shift raw).
End Shift.

Section Layer.
Context {num : Type} `{Scalar num}.
Local Abbreviation score := (@score num).
Local Abbreviation vec := (@vec num).
Local Abbreviation mat := (@mat num).

(** The fields of a layer: those of [MultiHeadAttention], the positional
    projection, the two positional biases [(h, d_k)] and the streaming
    settings. *)
Variables n_head n_feat : nat.
Variables linear_q linear_k linear_v linear_out linear_pos : vec -> vec.
Variables pos_bias_u pos_bias_v : list vec.

Variable _cache_id : nat.
Variable cache_drop_size : Z.

(** The sum of two vectors of one length, entry by entry. *)
Definition vec_add (a b : vec) : vec := map (fun ab => add (fst ab) (snd ab)) (combine a b).

(** [q + pos_bias] for [q] of [(batch, head, time, d_k)] and a bias of
    [(head, d_k)] ([q + self.pos_bias_u.unsqueeze(1)] in the local forward):
    the bias is repeated over batch and time, and the head and the feature
    axes of the two are broadcast against each other. *)
Definition with_bias (q : list (list mat)) (bias : list vec) : result (list (list mat)) :=
  map_result
    (fun heads =>
       broadcast_zip
         (fun (qh : mat) (bh : vec) =>
            map_result (fun frame => broadcast_zip (fun a b => Ok (add a b)) frame bh) qh)
         heads bias) q.

(** [linear_pos(pos_emb).view(n_batch_pos, -1, h, d_k).transpose(1, 2)] *)
Definition project_pos (pos_emb : list mat) : result (list (list mat)) :=
  (p <- apply_linear n_feat linear_pos pos_emb ;;
   Ok (map (split_heads n_head (d_k n_head n_feat)) p))%result.

(** [torch.matmul(q, p.transpose(-2, -1))] with the batch of [p] broadcast. *)
Definition matmul_pos (q p : list (list mat)) : result (list (list mat)) :=
  zip_broadcast
    (fun qh ph => Ok (map (fun a => matmul_nt (fst a) (snd a)) (combine qh ph))) q p.

Definition frames_len (q : list (list mat)) : nat := length (hd [] (hd [] q)).

(** [forward] at inference: the result, or the exception, with the buffers
    as the call leaves them. *)
Definition forward (query key value : list mat)
    (mask : option (list (list (list bool)))) (pos_emb : list mat)
    (st : @buffers vec) : result (list mat) * @buffers vec :=
  let '(r, st) := update_cache _cache_id cache_drop_size key value query st in
  match r with
  | Raise e => (Raise e, st)
  | Ok (key, value, query) =>
      ((qkv <- forward_qkv n_head n_feat linear_q linear_k linear_v query key value ;;
        let '(q, k, v) := qkv in
        p <- project_pos pos_emb ;;
        q_with_bias_u <- with_bias q pos_bias_u ;;
        q_with_bias_v <- with_bias q pos_bias_v ;;
        let matrix_ac :=
          map (fun qk => map (fun a => matmul_nt (fst a) (snd a)) (combine (fst qk) (snd qk)))
              (combine q_with_bias_u k) in
        matrix_bd <- matmul_pos q_with_bias_v p ;;
        let matrix_bd := shifted_bd (lit 0) (width (hd [] (hd [] matrix_ac))) matrix_bd in
        let scores :=
          map (fun bb => map (fun hh => map (fun rr =>
                 map (fun xy => div (add (fst xy) (snd xy)) (s_d_k n_head n_feat)) (combine (fst rr) (snd rr)))
                 (combine (fst hh) (snd hh))) (combine (fst bb) (snd bb)))
              (combine matrix_ac matrix_bd) in
        forward_attention n_feat linear_out v scores mask)%result, st)
  end.
End Layer.

End RelPositionMultiHeadAttention.

(** ** RelPositionMultiHeadAttentionLongformer *)

Module RelPositionMultiHeadAttentionLongformer.
Import MultiHeadAttention RelPositionMultiHeadAttention.

Section Transforms.
Context {A : Type}.

(** [_skew]: pad, then view with the last two sizes exchanged. *)
Definition _skew (x : list (list A)) (direction : nat * nat * nat * nat)
    (padding_value : A) : list (list A) :=
  let '(l, r, t, b) := direction in
  let x_padded := pad2 l r t b padding_value x in
  view (width x_padded) (length x_padded) (concat x_padded).

(** [_skew2] on one chunk of [M] rows and [L] columns. *)
Definition _skew2 (x : list (list A)) (padding_value : A) : list (list A) :=
  let M := length x in
  let L := width x in
  let x := pad2 0 (M + 1) 0 0 padding_value x in        (* M x (L+M+1) *)
  let x := concat x in                                   (* ML+MM+M *)
  let x := Py.slice None (Some (- Z.of_nat M)%Z) x in    (* ML+MM *)
  let x := view M (M + L) x in                           (* M x (L+M) *)
  map (Py.slice None (Some (-1)%Z)) x.

(** [_chunk_overlap] on one (batch, head) slice: the view in chunks of
    [2w] rows, re-strided so that chunk [c] starts at row [c * w]. *)
Definition _chunk_overlap (x : list (list A)) (w : nat) : list (list (list A)) :=
  let chunks := length x / (w * 2) in
  map (fun c => firstn (w * 2) (skipn (c * w) x)) (seq 0 (chunks * 2 - 1)).
End Transforms.

Section Products.
Context {num : Type} `{Scalar num}.
Local Abbreviation neg_inf := (@neg_inf num).
Local Abbreviation score := (@score num).
Local Abbreviation vec := (@vec num).
Local Abbreviation mat := (@mat num).

(** What [new_empty] leaves in memory. *)
Variable junk : num.

(** [_get_invalid_locations_mask(w)]: the beginning mask and its flip. *)
Definition _get_invalid_locations_mask (w : nat)
  : list (list bool) * list (list bool) :=
  let diagonals_list :=
    map (fun j => Py.slice_fill None (Some (- j)%Z) true (repeat false w))
        (range (- Z.of_nat w) 1 1) in
  (* torch.stack(diagonals_list, dim=-1) *)
  let mask := map (fun i => map (fun d => nth i d false) diagonals_list) (seq 0 w) in
  let ending_mask := rev (map (@rev bool) mask) in
  (mask, ending_mask).

(** [mask_invalid_locations] on one (batch, head) slice of [seq_len] rows
    and [2w + 1] columns. *)
Definition mask_invalid_locations (input_tensor : list (list score)) (w : nat)
  : result (list (list score)) :=
  let '(beginning_mask, ending_mask) := _get_invalid_locations_mask w in
  let seq_len := Z.of_nat (length input_tensor) in
  let fill_row lo hi (row : list score) (m : list bool) :=
    Py.slice_update (fun x (b : bool) => Ok (if b then neg_inf else x)) lo hi row m in
  (x <- Py.slice_update (fill_row None (Some (Z.of_nat w + 1)%Z))
          None (Some (Z.of_nat w))
          input_tensor (Py.slice None (Some seq_len) beginning_mask) ;;
   Py.slice_update (fill_row (Some (- (Z.of_nat w + 1))%Z) None)
          (Some (- Z.of_nat w)%Z) None
          x (Py.slice (Some (- seq_len)%Z) None ending_mask))%result.

(** [sliding_chunks_matmul_qk] on one (batch, head) slice. *)
Definition sliding_chunks_matmul_qk (q k : mat) (w : nat) (padding_value : num)
  : result (list (list score)) :=
  let seqlen := length q in
  if negb (seqlen mod (w * 2) =? 0) then Raise AssertionError
  else if negb ((length k =? seqlen) && (width k =? width q)) then Raise AssertionError
  else
    let chunks_count := seqlen / w - 1 in
    let chunk_q := _chunk_overlap q w in
    let chunk_k := _chunk_overlap k w in
    (* einsum('bcxd,bcyd->bcxy') *)
    let chunk_attn := map (fun qk => matmul_nt (fst qk) (snd qk)) (combine chunk_q chunk_k) in
    let diagonal_chunk_attn :=
      map (fun c => _skew c (0, 0, 0, 1) padding_value) chunk_attn in
    let cols := w * 2 + 1 in
    let W := Z.of_nat w in
    let diagonal_attn := repeat (repeat (repeat junk cols) w) (chunks_count + 1) in
    ((* diagonal_attn[:, :-1, :, w:] = diagonal_chunk_attn[:, :, :w, : w + 1] *)
     d1 <- Py.slice_update
             (fun d s => block_copy cols None None (Some W) None d
                                    cols None (Some W) None (Some (W + 1)%Z) s)
             None (Some (-1)%Z) diagonal_attn diagonal_chunk_attn ;;
     (* diagonal_attn[:, -1, :, w:] = diagonal_chunk_attn[:, -1, w:, : w + 1] *)
     last <- py_index (-1) diagonal_chunk_attn ;;
     d2 <- update_at (-1)
             (fun d => block_copy cols None None (Some W) None d
                                  cols (Some W) None None (Some (W + 1)%Z) last) d1 ;;
     (* diagonal_attn[:, 1:, :, :w] = diagonal_chunk_attn[:, :, -(w + 1) : -1, w + 1 :] *)
     d3 <- Py.slice_update
             (fun d s => block_copy cols None None None (Some W) d
                                    cols (Some (- (W + 1))%Z) (Some (-1)%Z)
                                    (Some (W + 1)%Z) None s)
             (Some 1%Z) None d2 diagonal_chunk_attn ;;
     (* diagonal_attn[:, 0, 1:w, 1:w] = diagonal_chunk_attn[:, 0, : w - 1, 1 - w :] *)
     first <- py_index 0 diagonal_chunk_attn ;;
     d4 <- update_at 0
             (fun d => block_copy cols (Some 1%Z) (Some W) (Some 1%Z) (Some W) d
                                  cols None (Some (W - 1)%Z) (Some (1 - W)%Z) None first) d3 ;;
     (* view(bsz, num_heads, seqlen, 2 * w + 1) *)
     mask_invalid_locations (map (map Some) (concat d4)) w)%result.

(** [sliding_chunks_matmul_pv] on one (batch, head) slice. *)
Definition sliding_chunks_matmul_pv (prob v : mat) (w : nat) : mat :=
  let seqlen := length v in
  let head_dim := width v in
  let chunks_count := seqlen / w - 1 in
  let chunk_prob := view (seqlen / w) w prob in
  let padded_v := pad2 0 0 w w (lit (-1)) v in
  let chunk_v :=
    map (fun c => firstn (3 * w) (skipn (c * w) padded_v)) (seq 0 (chunks_count + 1)) in
  let skewed_prob := map (fun c => _skew2 c (lit 0)) chunk_prob in
  (* einsum('bcwd,bcdh->bcwh') *)
  let context := map (fun pv => matmul (fst pv) (snd pv)) (combine skewed_prob chunk_v) in
  concat context.
End Products.

Section Layer.
Context {num : Type} `{Scalar num}.
Local Abbreviation score := (@score num).
Local Abbreviation vec := (@vec num).
Local Abbreviation mat := (@mat num).

(** The fields of a layer: those of [MultiHeadAttention], the positional
    projection, the two positional biases [(h, d_k)] and the streaming
    settings. *)
Variables n_head n_feat : nat.
Variables linear_q linear_k linear_v linear_out linear_pos : vec -> vec.
Variables pos_bias_u pos_bias_v : list vec.

Variable att_context_size : Z * Z.
Variable _cache_id : nat.
Variable cache_drop_size : Z.
(** What [new_empty] leaves in memory. *)
Variable junk : num.

(** The banded score combination of the local forward on one row: the two
    slice additions of [diagonal_matrix_bd], the scaling, and the two
    fills of the columns outside [[start_pos, end_pos]]. *)
Definition combine_band_row (w : Z) (ac_row : list score) (bd_row : vec)
  : result (list score) :=
  let left := fst att_context_size in
  let right := snd att_context_size in
  let start_pos := (w - left)%Z in
  let end_pos := (w + right)%Z in
  let plus (a : score) (b : num) : result score := Ok (score_add a (Some b)) in
  (r <- Py.slice_update plus None (Some left) ac_row
          (Py.slice None (Some left) bd_row) ;;
   r <- Py.slice_update plus (Some (- (right + 1))%Z) None r
          (Py.slice (Some left) None bd_row) ;;
   let scores := map (fun a => score_div a (s_d_k n_head n_feat)) r in
   let scores := Py.slice_fill None (Some start_pos) (Some (lit (-10000))) scores in
   let scores := Py.slice_fill (Some (end_pos + 1)%Z) None (Some (lit (-10000))) scores in
   Ok scores)%result.

(** [F.pad(x, (0, 0, 0, pad_len))] on [(batch, head, time, size)] *)
Definition pad_time (pad_len : nat) (x : list (list mat)) : list (list mat) :=
  map (map (pad2 0 0 0 pad_len (lit 0))) x.

(** [forward] at inference. *)
Definition forward (query key value : list mat)
    (pad_mask : list (list bool)) (pos_emb : list mat)
    (st : @buffers vec) : result (list mat) * @buffers vec :=
  let '(r, st) := update_cache _cache_id cache_drop_size key value query st in
  match r with
  | Raise e => (Raise e, st)
  | Ok (key, value, query) =>
      ((qkv <- forward_qkv n_head n_feat linear_q linear_k linear_v query key value ;;
        let '(q, k, v) := qkv in
        let T := frames_len q in
        let w := Z.max (fst att_context_size) (snd att_context_size) in
        if (w <=? 0)%Z then Raise ValueError
        else
          let pad_len := Z.to_nat ((2 * w - Z.of_nat T mod (2 * w)) mod (2 * w)) in
          let wn := Z.to_nat w in
          let q := pad_time pad_len q in
          let k := pad_time pad_len k in
          let v := pad_time pad_len v in
          let mask := map (fun m => m ++ repeat true pad_len) pad_mask in
          q_with_bias_u <- with_bias q pos_bias_u ;;
          q_with_bias_v <- with_bias q pos_bias_v ;;
          diagonal_matrix_ac <-
            map_result (fun qk => map_result
                          (fun a => sliding_chunks_matmul_qk junk (fst a) (snd a) wn (lit 0))
                          (combine (fst qk) (snd qk)))
                       (combine q_with_bias_u k) ;;
          p <- project_pos n_head n_feat linear_pos pos_emb ;;
          diagonal_matrix_bd <- matmul_pos q_with_bias_v p ;;
          scores <-
            map_result (fun bb => map_result (fun hh => map_result
                          (fun rr => combine_band_row w (fst rr) (snd rr))
                          (combine (fst hh) (snd hh))) (combine (fst bb) (snd bb)))
                       (combine diagonal_matrix_ac diagonal_matrix_bd) ;;
          (* mask.type_as(scores).masked_fill(mask, -10000.0) and the ones *)
          let float_mask :=
            map (map (fun b : bool => [if b then lit (-10000) else lit 0])) mask in
          let ones := map (map (fun _ : bool => [lit 1])) mask in
          d_mask <-
            map_result (fun om => sliding_chunks_matmul_qk junk (fst om) (snd om) wn (lit 0))
                       (combine ones float_mask) ;;
          (* scores += d_mask, over every head *)
          let scores :=
            map (fun sd => map (fun sc => map (fun rr =>
                   map (fun xy => score_add (fst xy) (snd xy)) (combine (fst rr) (snd rr)))
                   (combine sc (snd sd))) (fst sd))
                (combine scores d_mask) in
          (* softmax(scores, dim=-1).masked_fill(mask, 0.0) *)
          attn <-
            map_result (fun sm => map_result (fun sc => map_result
                          (fun rm => masked_fill [snd rm] (lit 0) (softmax (fst rm)))
                          (combine sc (snd sm))) (fst sm))
                       (combine scores mask) ;;
          let p_attn := attn in
          let x :=
            map (fun pv => map (fun a => sliding_chunks_matmul_pv (fst a) (snd a) wn)
                               (combine (fst pv) (snd pv)))
                (combine p_attn v) in
          let x := map (fun xb => Py.slice None (Some (Z.of_nat T)) (merge_heads xb)) x in
          apply_linear n_feat linear_out x)%result, st)
  end.

(** The dense mask of a band: position [(i, j)] is disallowed unless
    [-left <= j - i <= right]. *)
Definition band_mask (n_batch T : nat) : list (list (list bool)) :=
  let left := fst att_context_size in
  let right := snd att_context_size in
  repeat
    (map (fun i => map (fun j =>
            let d := (Z.of_nat j - Z.of_nat i)%Z in
            negb ((- left <=? d)%Z && (d <=? right)%Z)) (seq 0 T)) (seq 0 T))
    n_batch.
End Layer.

End RelPositionMultiHeadAttentionLongformer.

(** ** A layer with an asymmetric window

    One head of width one, window [left = 2], [right = 1], four frames, no
    padding and no cache.  The query and key projections have zero weights,
    the other projections are the identity, [pos_bias_u = 0] and
    [pos_bias_v = 1]: the score of a pair of positions is the positional
    embedding of their offset, which is [5] at offset [0] and [0] elsewhere,
    and the value of frame [0] is [1], of the other frames [0]. *)
Module AsymmetricWindow.
Import MultiHeadAttention RelPositionMultiHeadAttention.
Import RelPositionMultiHeadAttentionLongformer.
Open Scope R_scope.

Definition zero_weights (_ : list R) : list R := [0].
Definition identity (x : list R) : list R := x.
Definition frames : list (list (list R)) := [[[1]; [0]; [0]; [0]]].
Definition no_padding : list (list bool) := [[false; false; false; false]].
(** Rows of the offsets [+2, +1, 0, -1] as [LocalAttRelPositionalEncoding]
    orders them, and of the offsets [+3 .. -3] as [RelPositionalEncoding]
    does. *)
Definition local_pos_emb : list (list (list R)) := [[[0]; [0]; [5]; [0]]].
Definition global_pos_emb : list (list (list R)) :=
  [[[0]; [0]; [0]; [5]; [0]; [0]; [0]]].
Definition no_cache : @buffers (list R) := Buffers None None.

Definition banded (junk : R) : result (list (list (list R))) * @buffers (list R) :=
  RelPositionMultiHeadAttentionLongformer.forward 1 1 zero_weights zero_weights identity identity identity
    [[0]] [[1]] (2, 1)%Z 0 0%Z junk frames frames frames no_padding local_pos_emb no_cache.

Definition dense : result (list (list (list R))) * @buffers (list R) :=
  RelPositionMultiHeadAttention.forward 1 1 zero_weights zero_weights identity identity identity
    [[0]] [[1]] 0 0%Z frames frames frames (Some (band_mask (2, 1)%Z 1 4))
    global_pos_emb no_cache.

(** Entry [[b, t, f]] of an output [(batch, time, size)]. *)
Definition output_entry (out : list (list (list R))) (b t f : nat) : option R :=
  match nth_error out b with
  | Some m => entry m t f
  | None => None
  end.
End AsymmetricWindow.

(** ** Tables given by their entries

    [tabulate n f] is the list [f 0; ...; f (n - 1)] and [tabulate2] the
    matrix of [rows] rows and [cols] columns with entry [f r c]: tensors
    written entry by entry, for statements that hold at every size. *)
Definition tabulate {A : Type} (n : nat) (f : nat -> A) : list A :=
  map f (seq 0 n).

Definition tabulate2 {A : Type} (rows cols : nat) (f : nat -> nat -> A)
  : list (list A) :=
  tabulate rows (fun r => tabulate cols (f r)).

(** ** The band buffer of [sliding_chunks_matmul_qk], entry by entry

    For [2 * w * n] query rows [qf] and key rows [kf]: the products of the
    overlapping chunks, their skewed form, and the contents of
    [diagonal_attn] after each of the four slice assignments of the source,
    as functions of the chunk [c'], the row [r] inside the chunk and the band
    column [c]. *)
Module BandLayout.
Section Entries.
Context {num : Type} `{Scalar num}.
Variables w n : nat.
Variables qf kf : nat -> @vec num.
Variables junk pv : num.

(** [seqlen], [chunks_count] and the width [w * 2 + 1] of the band. *)
Definition seqlen : nat := 2 * w * n.
Definition chunks_count : nat := 2 * n - 1.
Definition band_width : nat := w * 2 + 1.

(** [chunk_attn[c, x, y]]: row [x] of query chunk [c] against row [y] of key
    chunk [c]; chunk [c] starts at frame [c * w]. *)
Definition chunk_attn (c x y : nat) : num :=
  dot (qf (c * w + x)) (kf (c * w + y)).

(** [diagonal_chunk_attn[c, r, s]]: the chunk product padded by one row of
    [pv] and read with rows of length [2 * w + 1]. *)
Definition diagonal_chunk_attn (c r s : nat) : num :=
  if r + s <? 2 * w then chunk_attn c r (r + s)
  else if r + 1 <? 2 * w then chunk_attn c (r + 1) (r + s - 2 * w) else pv.

(** After [diagonal_attn[:, :-1, :, w:] = diagonal_chunk_attn[:, :, :w, :w+1]]. *)
Definition after_upper (c' r c : nat) : num :=
  if (c' <? chunks_count) && (w <=? c) then diagonal_chunk_attn c' r (c - w)
  else junk.

(** After [diagonal_attn[:, -1, :, w:] = diagonal_chunk_attn[:, -1, w:, :w+1]]. *)
Definition after_upper_last (c' r c : nat) : num :=
  if (c' =? chunks_count) && (w <=? c)
  then diagonal_chunk_attn (chunks_count - 1) (w + r) (c - w)
  else after_upper c' r c.

(** After [diagonal_attn[:, 1:, :, :w] = diagonal_chunk_attn[:, :, -(w+1):-1, w+1:]]. *)
Definition after_lower (c' r c : nat) : num :=
  if (1 <=? c') && (c <? w)
  then diagonal_chunk_attn (c' - 1) (w - 1 + r) (w + 1 + c)
  else after_upper_last c' r c.

(** After [diagonal_attn[:, 0, 1:w, 1:w] = diagonal_chunk_attn[:, 0, :w-1, 1-w:]]. *)
Definition after_lower_first (c' r c : nat) : num :=
  if (c' =? 0) && ((1 <=? r) && ((1 <=? c) && (c <? w)))
  then diagonal_chunk_attn 0 (r - 1) (w + 1 + c)
  else after_lower c' r c.
End Entries.
End BandLayout.

(* ================================================================== *)
(** * Part II: properties                                              *)
(* ================================================================== *)

Import MultiHeadAttention RelPositionMultiHeadAttention.
Import RelPositionMultiHeadAttentionLongformer.

(** ** Flat indexing *)

Section FlatIndexing.
Context {A : Type}.








Lemma entry_map {B} (f : list A -> list B) (m : list (list A)) i :
  nth_error (map f m) i = option_map f (nth_error m i).
Proof. apply nth_error_map. Qed.
End FlatIndexing.

(** ** Relative shift *)

Section RelShiftFacts.
Context {A : Type}.
Variable zero : A.







End RelShiftFacts.

(** ** Slices and slice assignment *)

Section SliceFacts.
Context {A : Type}.

Lemma clip_nonneg n (i : nat) : Py.clip n (Z.of_nat i) = Nat.min i n.
Proof. unfold Py.clip. destruct (Z.ltb_spec (Z.of_nat i) 0); lia. Qed.

Lemma clip_neg n (i : nat) : 0 < i -> Py.clip n (- Z.of_nat i) = n - i.
Proof. intros Hi. unfold Py.clip. destruct (Z.ltb_spec (- Z.of_nat i) 0); lia. Qed.

Lemma slice_from (l : list A) (k : nat) :
  Py.slice (Some (Z.of_nat k)) None l = skipn k l.
Proof.
  unfold Py.slice, Py.lower, Py.upper. rewrite clip_nonneg.
  destruct (Nat.le_gt_cases k (length l)) as [H|H].
  - rewrite Nat.min_l by assumption. apply firstn_all2. rewrite length_skipn. lia.
  - rewrite Nat.min_r by lia. rewrite !skipn_all2 by lia. now rewrite firstn_nil.
Qed.

Lemma slice_upto (l : list A) (k : nat) :
  Py.slice None (Some (Z.of_nat k)) l = firstn k l.
Proof.
  unfold Py.slice, Py.lower, Py.upper. rewrite clip_nonneg, Nat.sub_0_r. simpl skipn.
  destruct (Nat.le_gt_cases k (length l)) as [H|H].
  - now rewrite Nat.min_l.
  - rewrite Nat.min_r by lia. rewrite !firstn_all2; [reflexivity|lia|lia].
Qed.

Lemma map_result_snd_combine {B} (xs : list B) (ys : list A) :
  length xs = length ys ->
  map_result (fun ds : B * A => Ok (snd ds)) (combine xs ys) = Ok ys.
Proof.
  revert ys; induction xs as [|x xs IH]; intros [|y ys] H; simpl in *;
    try discriminate; [reflexivity|]. rewrite IH by lia. reflexivity.
Qed.

Lemma broadcast_to_same n (src : list A) :
  length src = n -> Py.broadcast_to n src = Ok src.
Proof. intros H. unfold Py.broadcast_to. now rewrite H, Nat.eqb_refl. Qed.

(** A slice assignment whose source has the size of the slice replaces the
    slice and nothing else. *)
Lemma slice_assign_fits lo hi (dst src : list A) :
  Py.lower (length dst) lo <= Py.upper (length dst) hi <= length dst ->
  length src = Py.upper (length dst) hi - Py.lower (length dst) lo ->
  Py.slice_assign lo hi dst src
  = Ok (firstn (Py.lower (length dst) lo) dst ++ src
        ++ skipn (Py.upper (length dst) hi) dst).
Proof.
  intros Hab Hsrc. unfold Py.slice_assign, Py.slice_update.
  cbv zeta.
  set (a := Py.lower (length dst) lo) in *.
  set (b := Py.upper (length dst) hi) in *.
  clearbody a b.
  rewrite broadcast_to_same by assumption. simpl.
  rewrite map_result_snd_combine
    by (rewrite length_firstn, length_skipn; lia).
  simpl. f_equal. f_equal. f_equal. f_equal. lia.
Qed.
End SliceFacts.

(** ** Cache update *)

Section UpdateCacheFacts.
Context {frame : Type}.
Implicit Types (slot key query : @seqs frame) (st : @buffers frame).

Lemma map_result_ok {X Y} (f : X -> result Y) (g : X -> Y) (l : list X) :
  Forall (fun x => f x = Ok (g x)) l -> map_result f l = Ok (map g l).
Proof.
  induction 1 as [|x l Hx Hl IH]; [reflexivity|].
  simpl. rewrite Hx. simpl. rewrite IH. reflexivity.
Qed.

Lemma nth_error_set_slot id slot (buf : @cache_buf frame) :
  id < length buf -> nth_error (set_slot id slot buf) id = Some slot.
Proof.
  intros H. unfold set_slot.
  rewrite nth_error_app2 by (rewrite length_firstn; lia).
  rewrite length_firstn, Nat.min_l by lia. now rewrite Nat.sub_diag.
Qed.

Lemma set_slot_twice id slot1 slot2 (buf : @cache_buf frame) :
  id < length buf ->
  set_slot id slot2 (set_slot id slot1 buf) = set_slot id slot2 buf.
Proof.
  intros H. unfold set_slot.
  assert (Hl : length (firstn id buf) = id) by (rewrite length_firstn; lia).
  rewrite firstn_app, Hl, Nat.sub_diag, firstn_firstn, Nat.min_id.
  simpl firstn. rewrite app_nil_r. f_equal. f_equal.
  replace (S id) with (length (firstn id buf) + 1) at 1 by lia.
  rewrite skipn_app, Hl.
  replace (id + 1 - id) with 1 by lia. simpl.
  rewrite skipn_all2 by lia. reflexivity.
Qed.

(** The two time-axis assignments of [update_cache] on one batch element. *)
Lemma slide_one (C keep : nat) (dst old q : list frame) :
  length dst = C -> length old = C -> 0 < keep <= C -> keep <= length q ->
  let d1 := skipn keep old ++ skipn (C - keep) dst in
  Py.slice_assign None (Some (- Z.of_nat keep)%Z) dst
    (Py.slice (Some (Z.of_nat keep)) None old) = Ok d1 /\
  Py.slice_assign (Some (- Z.of_nat keep)%Z) None d1
    (Py.slice None (Some (Z.of_nat keep)) q)
  = Ok (skipn keep old ++ firstn keep q) /\
  length d1 = C.
Proof.
  intros Hd Ho Hk Hq d1.
  assert (Hd1 : length d1 = C).
  { unfold d1. rewrite length_app, !length_skipn. lia. }
  repeat split; [| |exact Hd1].
  - rewrite slice_assign_fits; unfold Py.lower, Py.upper;
      rewrite ?clip_neg, ?slice_from, ?length_skipn by lia; try lia.
    rewrite Hd. reflexivity.
  - rewrite slice_assign_fits; unfold Py.lower, Py.upper;
      rewrite ?clip_neg, ?slice_upto, ?length_firstn by lia; try lia.
    rewrite Hd1.
    assert (H1 : firstn (C - keep) d1 = skipn keep old).
    { unfold d1. rewrite firstn_app, length_skipn, Ho.
      replace (C - keep - (C - keep)) with 0 by lia. simpl firstn.
      rewrite app_nil_r. apply firstn_all2. rewrite length_skipn. lia. }
    assert (H2 : skipn C d1 = []) by (apply skipn_all2; lia).
    now rewrite H1, H2, app_nil_r.
Qed.

(** The same two assignments over the whole batch. *)
Lemma slide_batch (C keep : nat) (nslot slot query : @seqs frame) :
  0 < keep <= C ->
  length slot = length nslot -> length query = length nslot ->
  Forall (fun s => length s = C) nslot ->
  Forall (fun s => length s = C) slot ->
  Forall (fun q => keep <= length q) query ->
  exists d1s,
    length d1s = length nslot /\
    map_result (fun ds => Py.slice_assign None (Some (- Z.of_nat keep)%Z) (fst ds) (snd ds))
      (combine nslot (map (Py.slice (Some (Z.of_nat keep)) None) slot)) = Ok d1s /\
    map_result (fun ds => Py.slice_assign (Some (- Z.of_nat keep)%Z) None (fst ds) (snd ds))
      (combine d1s (map (Py.slice None (Some (Z.of_nat keep))) query))
    = Ok (spec_next_slot keep slot query).
Proof.
  intros Hk. revert slot query.
  induction nslot as [|d nslot IH]; intros [|o slot] [|q query] Hls Hlq Hn Hs Hq;
    simpl in Hls, Hlq; try discriminate.
  - exists []. repeat split.
  - inversion Hn as [|? ? Hd Hn']; inversion Hs as [|? ? Ho Hs'];
      inversion Hq as [|? ? Hq1 Hq']; subst.
    destruct (IH slot query) as [d1s [Hlen [H1 H2]]]; try assumption; try lia.
    destruct (@slide_one (length d) keep d o q eq_refl Ho Hk Hq1) as [E1 [E2 _]].
    exists ((skipn keep o ++ skipn (length d - keep) d) :: d1s).
    repeat split.
    + simpl. lia.
    + simpl. rewrite E1. simpl. rewrite H1. reflexivity.
    + simpl. rewrite E2. simpl. rewrite H2. reflexivity.
Qed.

Lemma write_slot_eq id lo hi (buf : @cache_buf frame) slot src slot' :
  nth_error buf id = Some slot -> length src = length slot ->
  map_result (fun ds => Py.slice_assign lo hi (fst ds) (snd ds)) (combine slot src)
  = Ok slot' ->
  write_slot id lo hi buf src = Ok (set_slot id slot' buf).
Proof.
  intros Hn Hl Hm. unfold write_slot. rewrite Hn.
  rewrite broadcast_to_same by assumption. simpl. rewrite Hm. reflexivity.
Qed.

Lemma update_cache_slides id drop key value query st c cn slot nslot C :
  cache st = Some c -> cache_next st = Some cn ->
  nth_error c id = Some slot -> nth_error cn id = Some nslot ->
  length key = length slot -> length query = length slot ->
  length nslot = length slot ->
  Forall (fun s => length s = C) slot ->
  Forall (fun s => length s = C) nslot ->
  Forall (fun q => length q = time_len query) query ->
  (0 <= drop)%Z ->
  (0 < Z.of_nat (time_len query) - drop <= Z.of_nat C)%Z ->
  let keep := Z.to_nat (Z.of_nat (time_len query) - drop) in
  let kv := map (fun sk => fst sk ++ snd sk) (combine slot key) in
  update_cache id drop key value query st
  = (Ok (kv, kv, query),
     Buffers (cache st) (Some (set_slot id (spec_next_slot keep slot query) cn))).
Proof.
  intros Hc Hcn Hs Hns Hlk Hlq Hln Fs Fn Fq Hd Hkeep keep kv.
  unfold update_cache. rewrite Hc, Hs.
  unfold cat_time. rewrite <- Hlk, Nat.eqb_refl, Hcn.
  replace (Z.of_nat (time_len query) - drop)%Z with (Z.of_nat keep) by (unfold keep; lia).
  destruct (@slide_batch C keep nslot slot query) as [d1s [Hlen [H1 H2]]];
    try assumption; try lia.
  { eapply Forall_impl; [|exact Fq]. simpl. intros q Hq. rewrite Hq. unfold keep. lia. }
  assert (Hid : id < length cn) by (apply nth_error_Some; congruence).
  rewrite (@write_slot_eq id _ _ cn nslot _ d1s Hns); [|rewrite length_map; lia|exact H1].
  rewrite (@write_slot_eq id _ _ _ d1s _ (spec_next_slot keep slot query));
    [|now apply nth_error_set_slot|rewrite length_map; lia|exact H2].
  rewrite set_slot_twice by assumption. reflexivity.
Qed.

Lemma update_cache_reads id drop key value query st c slot :
  cache st = Some c -> cache_next st = None ->
  nth_error c id = Some slot -> length key = length slot ->
  update_cache id drop key value query st
  = (Ok (map (fun sk => fst sk ++ snd sk) (combine slot key),
         map (fun sk => fst sk ++ snd sk) (combine slot key), query), st).
Proof.
  intros Hc Hn Hs Hl. unfold update_cache. rewrite Hc, Hs.
  unfold cat_time. rewrite <- Hl, Nat.eqb_refl, Hn. reflexivity.
Qed.

(** C4 (as amended).  With a cache supplied, its slot in range and of the
    batch size of the key, the returned key and value are both the slot's
    frames followed by the incoming key, frame for frame.  When a next-cache
    buffer is supplied too, its slot in range, and the cache slot, the
    next-cache slot and the query have one batch size, the two slots hold
    [C] frames in every batch entry and the query [T] frames in every batch
    entry, [drop_size >= 0] and [keep = T - drop_size] satisfies
    [0 < keep <= C], then the next-cache slot becomes the old slot from
    frame [keep] on, followed by the first [keep] frames of the query, and
    no other slot changes. *)
Theorem update_cache_extends_and_slides id drop key value query st c slot :
  cache st = Some c -> nth_error c id = Some slot -> length key = length slot ->
  let kv := map (fun sk => fst sk ++ snd sk) (combine slot key) in
  (cache_next st = None ->
   update_cache id drop key value query st = (Ok (kv, kv, query), st)) /\
  (forall cn nslot C,
      cache_next st = Some cn -> nth_error cn id = Some nslot ->
      length query = length slot -> length nslot = length slot ->
      Forall (fun s => length s = C) slot ->
      Forall (fun s => length s = C) nslot ->
      Forall (fun q => length q = time_len query) query ->
      (0 <= drop)%Z ->
      (0 < Z.of_nat (time_len query) - drop <= Z.of_nat C)%Z ->
      let keep := Z.to_nat (Z.of_nat (time_len query) - drop) in
      update_cache id drop key value query st
      = (Ok (kv, kv, query),
         Buffers (cache st) (Some (set_slot id (spec_next_slot keep slot query) cn)))).
Proof.
  intros Hc Hs Hl kv. split.
  - intros Hn. now apply update_cache_reads with (c := c).
  - intros cn nslot C Hcn Hns Hlq Hln Fs Fn Fq Hd Hk keep.
    now apply update_cache_slides with (c := c) (nslot := nslot) (C := C).
Qed.

(** C10.  Without a cache, [update_cache] returns key, value and query as
    they are and leaves both buffers as they were, whatever the next-cache
    argument; with a cache (slot in range, batch size of the key) and no
    next-cache buffer, key and value are the slot's frames followed by the
    key and again no buffer changes. *)
Theorem update_cache_frame id drop key value query st :
  (cache st = None ->
   update_cache id drop key value query st = (Ok (key, value, query), st)) /\
  (forall c slot,
      cache st = Some c -> cache_next st = None ->
      nth_error c id = Some slot -> length key = length slot ->
      let kv := map (fun sk => fst sk ++ snd sk) (combine slot key) in
      update_cache id drop key value query st = (Ok (kv, kv, query), st)).
Proof.
  split.
  - intros Hc. unfold update_cache. now rewrite Hc.
  - intros c slot Hc Hn Hs Hl kv. now apply update_cache_reads with (c := c).
Qed.
End UpdateCacheFacts.

(** The claim on the next cache read without its side conditions.  At
    [keep = 0] (a drop size equal to the query length) the slice [:-0] is
    empty, the first assignment does not fit and the call raises with the
    next cache untouched.  At a [keep] above the capacity (two query frames
    kept, a slot of one frame) the second assignment does not fit.  In both
    cases nothing is returned, so the next cache is not what the claim says. *)
Lemma update_cache_keep_out_of_range_raises :
  let st := Buffers (Some [[[1; 2]]]) (Some [[[0; 0]]]) in
  let st' := Buffers (Some [[[1]]]) (Some [[[0]]]) in
  update_cache 0 1 [[3]] [[3]] [[3]] st = (Raise RuntimeError, st) /\
  ~ (exists kv,
        update_cache 0 1 [[3]] [[3]] [[3]] st
        = (Ok (kv, kv, [[3]]),
           Buffers (Some [[[1; 2]]])
                   (Some (set_slot 0 (spec_next_slot 0 [[1; 2]] [[3]]) [[[0; 0]]])))) /\
  update_cache 0 0 [[3; 4]] [[3; 4]] [[3; 4]] st' = (Raise RuntimeError, st') /\
  ~ (exists kv,
        update_cache 0 0 [[3; 4]] [[3; 4]] [[3; 4]] st'
        = (Ok (kv, kv, [[3; 4]]),
           Buffers (Some [[[1]]])
                   (Some (set_slot 0 (spec_next_slot 2 [[1]] [[3; 4]]) [[[0]]])))).
Proof.
  repeat split; try reflexivity; intros [kv Hkv]; vm_compute in Hkv; discriminate.
Qed.

(** Why the drop size must not be negative: with one query frame,
    [drop_size = -1] and a capacity of two, [keep = 2] lies within the
    capacity, the query has a single frame to give, and the second
    assignment repeats it over the two frames of the slot. *)
Lemma update_cache_negative_drop_repeats_frame :
  update_cache 0 (-1) [[3]] [[3]] [[3]] (Buffers (Some [[[1; 2]]]) (Some [[[0; 0]]]))
  = (Ok ([[1; 2; 3]], [[1; 2; 3]], [[3]]),
     Buffers (Some [[[1; 2]]]) (Some [[[3; 3]]])) /\
  spec_next_slot 2 [[1; 2]] [[3]] = [[3]].
Proof. split; reflexivity. Qed.

Lemma update_cache_extends_and_slides_witness :
  let st := Buffers (Some [[[1; 2]]]) (Some [[[0; 0]]]) in
  update_cache 0 0 [[3]] [[3]] [[3]] st
  = (Ok ([[1; 2; 3]], [[1; 2; 3]], [[3]]),
     Buffers (Some [[[1; 2]]]) (Some [[[2; 3]]])).
Proof.
  pose (st := Buffers (Some [[[1; 2]]]) (Some [[[0; 0]]])).
  destruct (@update_cache_extends_and_slides nat 0 0%Z [[3]] [[3]] [[3]] st
              [[[1; 2]]] [[1; 2]] eq_refl eq_refl eq_refl) as [_ Hslide].
  apply (Hslide [[[0; 0]]] [[0; 0]] 2 eq_refl eq_refl eq_refl eq_refl).
  - repeat constructor.
  - repeat constructor.
  - repeat constructor.
  - lia.
  - simpl. lia.
Defined.

Lemma update_cache_frame_witness :
  update_cache 0 0 [[3]] [[3]] [[3]] (Buffers (Some [[[1; 2]]]) None)
  = (Ok ([[1; 2; 3]], [[1; 2; 3]], [[3]]), Buffers (Some [[[1; 2]]]) None).
Proof.
  destruct (@update_cache_frame nat 0 0%Z [[3]] [[3]] [[3]]
              (Buffers (Some [[[1; 2]]]) None)) as [_ Hread].
  apply (Hread [[[1; 2]]] [[1; 2]]); reflexivity.
Defined.


(** ** Positional tables *)

Section RangeFacts.
Open Scope Z_scope.

Lemma range_up (stop : Z) :
  range 0 stop 1 = map Z.of_nat (seq 0 (Z.to_nat stop)).
Proof.
  unfold range. simpl (0 <? 1).
  replace ((stop - 0 + 1 - 1) / 1) with stop by (rewrite Z.div_1_r; lia).
  apply map_ext. intros i. lia.
Qed.

Lemma range_down (start stop : Z) :
  range start stop (-1)
  = map (fun i => start - Z.of_nat i) (seq 0 (Z.to_nat (start - stop))).
Proof.
  unfold range. simpl (0 <? -1). simpl (-1 <? 0).
  replace ((start - stop - -1 - 1) / - -1) with (start - stop)
    by (simpl (- -1); rewrite Z.div_1_r; lia).
  apply map_ext. intros i. lia.
Qed.

Lemma range_down_length (start stop : Z) :
  length (range start stop (-1)) = Z.to_nat (start - stop).
Proof. now rewrite range_down, length_map, length_seq. Qed.

Lemma range_down_nth (start stop : Z) (i : nat) :
  (i < Z.to_nat (start - stop))%nat ->
  nth_error (range start stop (-1)) i = Some (start - Z.of_nat i).
Proof.
  intros Hi. rewrite range_down, nth_error_map, nth_error_seq.
  destruct (Nat.ltb_spec i (Z.to_nat (start - stop))); [reflexivity|lia].
Qed.

Lemma firstn_seq_le (k a m : nat) :
  (k <= m)%nat -> firstn k (seq a m) = seq a k.
Proof.
  revert a m; induction k as [|k IH]; intros a [|m] H; simpl; try reflexivity; try lia.
  f_equal. apply IH. lia.
Qed.

(** A window of a descending range is a descending range. *)
Lemma range_down_window (start stop : Z) (a k : nat) :
  (a + k <= Z.to_nat (start - stop))%nat ->
  firstn k (skipn a (range start stop (-1)))
  = range (start - Z.of_nat a) (start - Z.of_nat a - Z.of_nat k) (-1).
Proof.
  intros H. rewrite !range_down, skipn_map, firstn_map, skipn_seq.
  rewrite firstn_seq_le by lia.
  replace (Z.to_nat (start - Z.of_nat a - (start - Z.of_nat a - Z.of_nat k))) with k by lia.
  simpl (0 + a)%nat.
  rewrite <- (Nat.add_0_r a) at 1.
  assert (G : forall b, map (fun i => start - Z.of_nat i) (seq (a + b) k)
                        = map (fun i => start - Z.of_nat a - Z.of_nat i) (seq b k)).
  { clear H. induction k as [|k IH]; intros b; [reflexivity|].
    simpl. f_equal; [lia|].
    replace (S (a + b)) with (a + S b)%nat by lia. apply IH. }
  apply G.
Qed.
End RangeFacts.

(** [torch.arange] returns when its bounds are consistent. *)
Lemma arange_up_ok (stop : Z) :
  (0 <= stop)%Z -> arange 0 stop 1 = Ok (range 0 stop 1).
Proof.
  intros H. unfold arange. change (0 <? 1)%Z with true. change (1 <? 0)%Z with false.
  change (1 =? 0)%Z with false. destruct (Z.ltb_spec stop 0); [lia|reflexivity].
Qed.

Lemma arange_down_ok (start stop : Z) :
  (stop <= start)%Z -> arange start stop (-1) = Ok (range start stop (-1)).
Proof.
  intros H. unfold arange. change (0 <? -1)%Z with false. change (-1 <? 0)%Z with true.
  change (-1 =? 0)%Z with false. destruct (Z.ltb_spec start stop); [lia|reflexivity].
Qed.

Lemma arange_up_raises (stop : Z) :
  (stop < 0)%Z -> arange 0 stop 1 = Raise RuntimeError.
Proof.
  intros H. unfold arange. change (0 <? 1)%Z with true.
  destruct (Z.ltb_spec stop 0); [reflexivity|lia].
Qed.

Lemma arange_down_raises (start stop : Z) :
  (start < stop)%Z -> arange start stop (-1) = Raise RuntimeError.
Proof.
  intros H. unfold arange. change (0 <? -1)%Z with false. change (-1 <? 0)%Z with true.
  destruct (Z.ltb_spec start stop); [reflexivity|lia].
Qed.

Section PositionalTableFacts.
Variable d_model : nat.
Hypothesis shapes_fit : PositionalEncoding.pe_shapes_fit d_model = true.

Local Abbreviation abs_table := (abs_table d_model).
Local Abbreviation rel_table := (rel_table d_model).

Lemma abs_table_length L : length (abs_table L) = Z.to_nat L.
Proof. unfold abs_table. now rewrite range_up, !length_map, length_seq. Qed.

Lemma rel_table_length L : length (rel_table L) = Z.to_nat (2 * L - 1).
Proof.
  unfold rel_table. rewrite length_map, range_down_length. f_equal. lia.
Qed.

Lemma abs_lookup_table (L p : Z) :
  (0 <= p < L)%Z -> abs_lookup (abs_table L) p = Some (PositionalEncoding.pe_row d_model p).
Proof.
  intros H. unfold abs_lookup, abs_table.
  destruct (Z.ltb_spec p 0); [lia|].
  rewrite range_up, map_map, nth_error_map, nth_error_seq.
  destruct (Nat.ltb_spec (Z.to_nat p) (Z.to_nat L)); [|lia].
  simpl. now rewrite Z2Nat.id by lia.
Qed.

Lemma rel_lookup_table (L p : Z) :
  (- L < p < L)%Z -> rel_lookup (rel_table L) p = Some (PositionalEncoding.pe_row d_model p).
Proof.
  intros H. unfold rel_lookup. rewrite rel_table_length.
  replace (Z.of_nat (Z.to_nat (2 * L - 1)) / 2)%Z with (L - 1)%Z.
  2:{ rewrite Z2Nat.id by lia. apply Z.div_unique with (r := 1%Z); lia. }
  destruct (Z.ltb_spec (L - 1 - p) 0); [lia|].
  unfold rel_table. rewrite nth_error_map, range_down_nth by lia.
  simpl. do 2 f_equal. lia.
Qed.

Lemma time_len_apply_xscale xscale x :
  time_len (PositionalEncoding.apply_xscale xscale x) = time_len x.
Proof.
  unfold PositionalEncoding.apply_xscale. destruct xscale as [s|]; [|reflexivity].
  destruct (Req_dec_T s 0); [reflexivity|].
  unfold time_len. destruct x as [|b x]; [reflexivity|].
  simpl. now rewrite length_map.
Qed.

(** From here on [d_model] is not [0]. *)
Hypothesis nonzero : d_model <> 0.

Lemma create_pe_ok positions :
  PositionalEncoding.create_pe d_model positions = Ok (map (PositionalEncoding.pe_row d_model) positions).
Proof.
  unfold PositionalEncoding.create_pe.
  destruct (Nat.eqb_spec d_model 0); [contradiction|]. now rewrite shapes_fit.
Qed.

Lemma extend_pe_fresh L :
  (0 <= L)%Z -> PositionalEncoding.extend_pe d_model L None = Ok (Some (abs_table L)).
Proof.
  intros HL. unfold PositionalEncoding.extend_pe.
  rewrite arange_up_ok by assumption. cbn [bind]. now rewrite create_pe_ok.
Qed.

Lemma rel_extend_pe_fresh L :
  (1 <= L)%Z -> RelPositionalEncoding.extend_pe d_model L None = Ok (Some (rel_table L)).
Proof.
  intros HL. unfold RelPositionalEncoding.extend_pe.
  rewrite arange_down_ok by lia. cbn [bind]. now rewrite create_pe_ok.
Qed.

Lemma extend_pe_again (L1 L2 : Z) :
  (L1 <= L2)%Z ->
  PositionalEncoding.extend_pe d_model L2 (Some (abs_table L1)) = Ok (Some (abs_table L2)).
Proof.
  intros H. unfold PositionalEncoding.extend_pe. rewrite abs_table_length.
  destruct (Z.leb_spec L2 (Z.of_nat (Z.to_nat L1))).
  2:{ rewrite arange_up_ok by lia. cbn [bind]. now rewrite create_pe_ok. }
  do 2 f_equal. unfold abs_table. rewrite !range_up.
  replace (Z.to_nat L2) with (Z.to_nat L1) by lia. reflexivity.
Qed.

Lemma rel_extend_pe_again (L1 L2 : Z) :
  (L1 <= L2)%Z ->
  RelPositionalEncoding.extend_pe d_model L2 (Some (rel_table L1)) = Ok (Some (rel_table L2)).
Proof.
  intros H. unfold RelPositionalEncoding.extend_pe. rewrite rel_table_length.
  destruct (Z.leb_spec (2 * L2 - 1) (Z.of_nat (Z.to_nat (2 * L1 - 1)))).
  2:{ rewrite arange_down_ok by lia. cbn [bind]. now rewrite create_pe_ok. }
  do 2 f_equal. unfold rel_table. rewrite !range_down.
  destruct (Z.le_gt_cases L1 0).
  - replace (Z.to_nat (L1 - 1 - - L1)) with 0 by lia.
    replace (Z.to_nat (L2 - 1 - - L2)) with 0 by lia. reflexivity.
  - replace L2 with L1 by lia. reflexivity.
Qed.

(** C7 (as amended).  For a [d_model] that [create_pe] accepts (not [0];
    even, or [1]), growth of the absolute and of the global relative table
    is prefix-idempotent: for [L1 <= L2], with [0 <= L1] for the absolute and
    [1 <= L1] for the global relative encoding, extending a fresh object to
    [L1] and then to [L2] gives the very table that extending directly to
    [L2] gives, every offset valid at [L1] holds the same row before and
    after, and a request the buffer already covers returns the buffer as it
    is. *)
Theorem pe_growth_prefix_idempotent (L1 L2 : Z) :
  (L1 <= L2)%Z ->
  ((0 <= L1)%Z -> exists t1 t2,
      PositionalEncoding.extend_pe d_model L1 None = Ok (Some t1) /\
      PositionalEncoding.extend_pe d_model L2 (Some t1) = Ok (Some t2) /\
      PositionalEncoding.extend_pe d_model L2 None = Ok (Some t2) /\
      forall p, (0 <= p < L1)%Z ->
        abs_lookup t1 p = Some (PositionalEncoding.pe_row d_model p) /\
        abs_lookup t2 p = abs_lookup t1 p) /\
  ((1 <= L1)%Z -> exists t1 t2,
      RelPositionalEncoding.extend_pe d_model L1 None = Ok (Some t1) /\
      RelPositionalEncoding.extend_pe d_model L2 (Some t1) = Ok (Some t2) /\
      RelPositionalEncoding.extend_pe d_model L2 None = Ok (Some t2) /\
      forall p, (- L1 < p < L1)%Z ->
        rel_lookup t1 p = Some (PositionalEncoding.pe_row d_model p) /\
        rel_lookup t2 p = rel_lookup t1 p) /\
  (forall t L, (L <= Z.of_nat (length t))%Z ->
      PositionalEncoding.extend_pe d_model L (Some t) = Ok (Some t)) /\
  (forall t L, (2 * L - 1 <= Z.of_nat (length t))%Z ->
      RelPositionalEncoding.extend_pe d_model L (Some t) = Ok (Some t)).
Proof.
  intros HL. split; [|split; [|split]].
  - intros H1. exists (abs_table L1), (abs_table L2).
    repeat split; auto using extend_pe_again.
    + now apply extend_pe_fresh.
    + apply extend_pe_fresh. lia.
    + now apply abs_lookup_table.
    + rewrite !abs_lookup_table; [reflexivity|lia|lia].
  - intros H1. exists (rel_table L1), (rel_table L2).
    repeat split; auto using rel_extend_pe_again.
    + now apply rel_extend_pe_fresh.
    + apply rel_extend_pe_fresh. lia.
    + now apply rel_lookup_table.
    + rewrite !rel_lookup_table; [reflexivity|lia|lia].
  - intros t L H. unfold PositionalEncoding.extend_pe.
    now destruct (Z.leb_spec L (Z.of_nat (length t))); [|lia].
  - intros t L H. unfold RelPositionalEncoding.extend_pe.
    now destruct (Z.leb_spec (2 * L - 1) (Z.of_nat (length t))); [|lia].
Qed.

(** C8 (as amended).  For a [d_model] that [create_pe] accepts, on the
    global relative table that [extend_pe] builds for a length [L] which
    covers the input, [RelPositionalEncoding.forward] for an input of [T]
    frames and a cache of [c] frames, [1 <= n = T + c <= L], returns the
    [2n - 1] rows of the offsets [n - 1] down to [-(n - 1)]: the window is
    centred on the table row of offset [0]. *)
Theorem rel_forward_centered_window (L : Z) xscale x (cache_len : Z) :
  (1 <= Z.of_nat (time_len x) + cache_len <= L)%Z ->
  let n := (Z.of_nat (time_len x) + cache_len)%Z in
  let window := map (PositionalEncoding.pe_row d_model) (range (n - 1) (- n) (-1)) in
  RelPositionalEncoding.extend_pe d_model L None = Ok (Some (rel_table L)) /\
  RelPositionalEncoding.forward xscale x cache_len (Some (rel_table L))
  = Ok (PositionalEncoding.apply_xscale xscale x, window) /\
  Z.of_nat (length window) = (2 * n - 1)%Z /\
  (forall p, (- n < p < n)%Z ->
     nth_error window (Z.to_nat (n - 1 - p)) = Some (PositionalEncoding.pe_row d_model p) /\
     rel_lookup (rel_table L) p = Some (PositionalEncoding.pe_row d_model p)).
Proof.
  intros Hn n window. split; [apply rel_extend_pe_fresh; lia|]. split; [|split].
  - unfold RelPositionalEncoding.forward. rewrite time_len_apply_xscale, rel_table_length.
    fold n. do 2 f_equal.
    replace (Z.of_nat (Z.to_nat (2 * L - 1)) / 2 + 1)%Z with L.
    2:{ rewrite Z2Nat.id by lia.
        rewrite <- (Z.div_unique (2 * L - 1) 2 (L - 1) 1); lia. }
    unfold Py.slice, Py.lower, Py.upper, Py.clip.
    rewrite rel_table_length.
    destruct (Z.ltb_spec (L - n) 0); [lia|].
    destruct (Z.ltb_spec (L + n - 1) 0); [lia|].
    unfold window, rel_table.
    rewrite skipn_map, firstn_map. f_equal.
    rewrite range_down_window by lia.
    f_equal; lia.
  - unfold window. rewrite length_map, range_down_length. lia.
  - intros p Hp. split; [|apply rel_lookup_table; lia].
    unfold window. rewrite nth_error_map, range_down_nth by lia.
    simpl. do 2 f_equal. lia.
Qed.

End PositionalTableFacts.

(** The claim on the growth of the tables read for every pair of lengths.
    A length of [0] is below what the global relative encoding can build:
    [torch.arange(-1, 0, -1)] has bounds inconsistent with its step, the
    first call raises and no table exists to extend. *)
Lemma rel_extend_pe_to_zero_raises :
  RelPositionalEncoding.extend_pe 2 0 None = Raise RuntimeError /\
  ~ (exists t1 t2,
        RelPositionalEncoding.extend_pe 2 0 None = Ok (Some t1) /\
        RelPositionalEncoding.extend_pe 2 1 (Some t1) = Ok (Some t2)).
Proof.
  assert (H0 : RelPositionalEncoding.extend_pe 2 0 None = Raise RuntimeError).
  { unfold RelPositionalEncoding.extend_pe. now rewrite arange_down_raises by lia. }
  split; [exact H0|]. intros (t1 & t2 & H1 & _). rewrite H0 in H1. discriminate.
Qed.

(** The claim on the centred window read for every input and cache length.
    On the table of a single position ([L = 1]) an input of two frames
    needs the three rows of the offsets [1], [0], [-1]; [start_pos] is
    negative, the slice counts it from the end, and [forward] returns the
    one row of the table without an error. *)
Lemma rel_forward_short_table_returns_fewer_rows :
  RelPositionalEncoding.extend_pe 2 1 None = Ok (Some (rel_table 2 1)) /\
  exists pos_emb,
    RelPositionalEncoding.forward None [[[1%R; 2%R]; [3%R; 4%R]]] 0 (Some (rel_table 2 1))
    = Ok ([[[1%R; 2%R]; [3%R; 4%R]]], pos_emb) /\
    length pos_emb = 1 /\
    Z.of_nat (length pos_emb) <> (2 * (2 + 0) - 1)%Z.
Proof.
  split.
  - apply rel_extend_pe_fresh; [reflexivity|discriminate|lia].
  - exists (rel_table 2 1). split; [|split].
    + unfold RelPositionalEncoding.forward, PositionalEncoding.apply_xscale.
      rewrite rel_table_length. do 2 f_equal.
      unfold Py.slice, Py.lower, Py.upper, Py.clip. rewrite rel_table_length.
      reflexivity.
    + now rewrite rel_table_length.
    + rewrite rel_table_length. discriminate.
Qed.

(** ** Masked softmax *)

Section MaskedSoftmax.
Open Scope R_scope.

Lemma masked_fill_fits {A} (m : list bool) (c : A) (x : list A) :
  length m = length x ->
  masked_fill m c x = Ok (map (fun mx => if fst mx : bool then c else snd mx) (combine m x)).
Proof. intros Hl. unfold masked_fill. now rewrite broadcast_to_same. Qed.

(** Total exponential mass of the filled row: the visible scores plus one
    [exp(-10000)] for every masked position. *)
Lemma filled_mass (m : list bool) (row : list R) :
  length m = length row ->
  sum (map score_exp
         (map Some (map (fun mx => if fst mx : bool then IZR (-10000) else snd mx)
                        (combine m row))))
  = sum_unmasked m (map exp row) + INR (masked_count m) * exp (-10000).
Proof.
  revert row. induction m as [|b m IH]; intros [|s row] Hl; try discriminate.
  - simpl. lra.
  - simpl in Hl. injection Hl as Hl. specialize (IH row Hl).
    unfold masked_count in *. simpl combine. simpl map. simpl sum.
    simpl sum in IH. rewrite IH. destruct b; simpl filter.
    + change (length (true :: filter (fun b : bool => b) m))
        with (S (length (filter (fun b : bool => b) m))).
      rewrite S_INR. simpl. lra.
    + simpl. lra.
Qed.

Lemma rezeroed_sum (z : R) (m : list bool) (filled row : list R) :
  length m = length row -> length filled = length row ->
  (forall j, nth_error m j = Some false -> nth_error filled j = nth_error row j) ->
  sum_unmasked m
    (map (fun mx => if fst mx : bool then IZR 0 else snd mx)
         (combine m (map (fun a : option R => score_exp a / z) (map Some filled))))
  = sum_unmasked m (map exp row) / z.
Proof.
  revert filled row.
  induction m as [|b m IH]; intros [|f filled] [|s row] Hm Hf Hv; try discriminate.
  - simpl. unfold Rdiv. lra.
  - simpl in Hm, Hf. injection Hm as Hm. injection Hf as Hf.
    simpl. rewrite (IH filled row Hm Hf).
    2:{ intros j Hj. apply (Hv (S j)). exact Hj. }
    destruct b.
    + unfold Rdiv. lra.
    + specialize (Hv 0%nat eq_refl). simpl in Hv. injection Hv as ->.
      unfold Rdiv. lra.
Qed.

Lemma sum_unmasked_nonneg (m : list bool) (row : list R) :
  0 <= sum_unmasked m (map exp row).
Proof.
  revert row. induction m as [|b m IH]; intros [|s row]; simpl; try lra.
  specialize (IH row). pose proof (exp_pos s). destruct b; lra.
Qed.

Lemma filled_nth (m : list bool) (row : list R) (c : R) j :
  length m = length row -> nth_error m j = Some false ->
  nth_error (map (fun mx => if fst mx : bool then c else snd mx) (combine m row)) j
  = nth_error row j.
Proof.
  revert row j. induction m as [|b m IH]; intros [|s row] [|j] Hl Hj;
    simpl in *; try discriminate.
  - now injection Hj as ->.
  - apply IH; [lia|assumption].
Qed.

Lemma rezeroed_nth (m : list bool) (x : list R) j :
  length m = length x -> nth_error m j = Some true ->
  nth_error (map (fun mx => if fst mx : bool then IZR 0 else snd mx) (combine m x)) j
  = Some 0.
Proof.
  revert x j. induction m as [|b m IH]; intros [|v x] [|j] Hl Hj;
    simpl in *; try discriminate.
  - now injection Hj as ->.
  - apply IH; [lia|assumption].
Qed.

Lemma masked_count_all_zero_sum (m : list bool) (x : list R) :
  masked_count m = length m -> sum_unmasked m x = 0.
Proof.
  unfold masked_count. revert x. induction m as [|b m IH]; intros [|v x] Hc;
    simpl in *; try reflexivity.
  destruct b; simpl in Hc.
  - rewrite IH by lia. lra.
  - pose proof (filter_length_le (fun b : bool => b) m). lia.
Qed.

Lemma filled_mass_pos (m : list bool) (row : list R) :
  length m = length row -> row <> [] ->
  0 < sum_unmasked m (map exp row) + INR (masked_count m) * exp (-10000).
Proof.
  intros Hl Hne. destruct row as [|s row]; [congruence|].
  destruct m as [|b m]; [discriminate|].
  pose proof (sum_unmasked_nonneg m row) as HU.
  pose proof (exp_pos s) as Hs. pose proof (exp_pos (-10000)) as He.
  pose proof (pos_INR (masked_count m)) as Hk.
  unfold masked_count in *.
  destruct b; cbn [sum_unmasked map filter length]; rewrite ?S_INR; nra.
Qed.

(** C3 (as amended).  For a non-empty score row and a mask of its shape,
    the attention weights of [forward_attention] are exactly [0] at every
    masked position, and over the unmasked positions they sum to
    [U / (U + k * exp(-10000))], where [U] is the exponential mass of the
    unmasked scores and [k] the number of masked positions: exactly [1]
    when nothing is masked, exactly [0] when the whole row is masked. *)
Theorem masked_softmax_row_weights (row : list R) (m : list bool) :
  length m = length row -> row <> [] ->
  exists attn,
    attention_row row (Some m) = Ok attn /\
    length attn = length row /\
    (forall j, nth_error m j = Some true -> nth_error attn j = Some 0) /\
    let U := sum_unmasked m (map exp row) in
    let total := U + INR (masked_count m) * exp (-10000) in
    0 < total /\
    sum_unmasked m attn = U / total /\
    (masked_count m = 0%nat -> sum_unmasked m attn = 1) /\
    (masked_count m = length m -> sum_unmasked m attn = 0).
Proof.
  intros Hl Hne.
  set (filled := map (fun mx => if fst mx : bool then IZR (-10000) else snd mx)
                     (combine m row)).
  assert (Hfl : length filled = length row).
  { unfold filled. rewrite length_map, length_combine. lia. }
  set (z := sum (map score_exp (map Some filled))).
  set (attn := map (fun mx => if fst mx : bool then IZR 0 else snd mx)
                   (combine m (map (fun a : option R => score_exp a / z) (map Some filled)))).
  assert (Hrun : attention_row row (Some m) = Ok attn).
  { unfold attention_row. cbn [lit real_scalar].
    rewrite masked_fill_fits by assumption. cbn [bind]. fold filled.
    rewrite masked_fill_fits by (unfold softmax; rewrite !length_map; lia).
    reflexivity. }
  assert (Hz : z = sum_unmasked m (map exp row) + INR (masked_count m) * exp (-10000)).
  { unfold z, filled. now apply filled_mass. }
  assert (Hsum : sum_unmasked m attn = sum_unmasked m (map exp row) / z).
  { unfold attn. apply rezeroed_sum; [assumption|assumption|].
    intros j Hj. unfold filled. now apply filled_nth. }
  pose proof (filled_mass_pos m Hl Hne) as Hpos. rewrite <- Hz in Hpos.
  exists attn. split; [exact Hrun|]. split; [|split].
  - unfold attn. rewrite length_map, length_combine, !length_map. lia.
  - intros j Hj. unfold attn. apply rezeroed_nth; [|assumption].
    rewrite !length_map. lia.
  - cbv zeta. rewrite <- Hz. split; [lra|]. split; [exact Hsum|]. split.
    + intros Hk. rewrite Hsum. rewrite Hk in Hz. simpl in Hz.
      replace (sum_unmasked m (map exp row)) with z by lra.
      apply Rdiv_diag. lra.
    + intros Hk. now apply masked_count_all_zero_sum.
Qed.
End MaskedSoftmax.

(** The claim on the masked softmax read as stated fails on a fully masked
    row: every weight is re-zeroed, so the weights sum to [0], not to [1]. *)
Lemma fully_masked_row_sums_to_zero :
  attention_row [0%R] (Some [true]) = Ok [0%R] /\
  sum_unmasked [true] [0%R] <> 1%R.
Proof.
  split; [reflexivity|]. simpl. lra.
Qed.

Lemma masked_softmax_row_weights_witness :
  exists attn,
    attention_row [0%R; 0%R] (Some [false; true]) = Ok attn /\
    nth_error attn 1 = Some 0%R.
Proof.
  destruct (@masked_softmax_row_weights [0%R; 0%R] [false; true] eq_refl
              ltac:(discriminate)) as [attn [Hrun [_ [Hzero _]]]].
  exists attn. split; [exact Hrun|]. apply Hzero. reflexivity.
Defined.

Lemma pe_growth_prefix_idempotent_witness :
  exists t1 t2,
    PositionalEncoding.extend_pe 2 3 None = Ok (Some t1) /\
    PositionalEncoding.extend_pe 2 5 (Some t1) = Ok (Some t2) /\
    PositionalEncoding.extend_pe 2 5 None = Ok (Some t2).
Proof.
  destruct (@pe_growth_prefix_idempotent 2 eq_refl ltac:(discriminate) 3 5 ltac:(lia))
    as [Habs _].
  destruct (Habs ltac:(lia)) as [t1 [t2 [H1 [H2 [H3 _]]]]].
  exists t1, t2. repeat split; assumption.
Defined.

Lemma rel_forward_centered_window_witness :
  RelPositionalEncoding.forward None [[[0%R; 0%R]; [0%R; 0%R]]] 1 (Some (rel_table 2 4))
  = Ok (PositionalEncoding.apply_xscale None [[[0%R; 0%R]; [0%R; 0%R]]],
        map (PositionalEncoding.pe_row 2) (range (3 - 1) (- (3)) (-1))).
Proof.
  apply (@rel_forward_centered_window 2 eq_refl ltac:(discriminate) 4 None
           [[[0%R; 0%R]; [0%R; 0%R]]] 1).
  simpl. lia.
Defined.


(** ** The window check of the local forward *)

Section WindowCheck.
Context {num : Type} `{Scalar num}.
Variables n_head n_feat : nat.
Variables linear_q linear_k linear_v linear_out linear_pos : list num -> list num.
Variables pos_bias_u pos_bias_v : list (list num).
Variable att_context_size : Z * Z.
Variable _cache_id : nat.
Variable cache_drop_size : Z.
Variable junk : num.

(** C5 (as amended).  With [w = max(left, right) <= 0] the local forward
    never returns a tensor.  It first runs the cache update, whose writes to
    the next cache stay and whose own exception comes first; it then
    projects query, key and value, whose exception comes next; only then
    does it raise the configuration error, before any padding, banded
    product, softmax or output projection, whatever the padding mask and the
    positional embedding. *)
Theorem window_check_after_cache_and_projection query key value pad_mask pos_emb st :
  (Z.max (fst att_context_size) (snd att_context_size) <= 0)%Z ->
  RelPositionMultiHeadAttentionLongformer.forward n_head n_feat linear_q linear_k linear_v linear_out linear_pos
    pos_bias_u pos_bias_v att_context_size _cache_id cache_drop_size junk
    query key value pad_mask pos_emb st
  = match update_cache _cache_id cache_drop_size key value query st with
    | (Raise e, st1) => (Raise e, st1)
    | (Ok (key, value, query), st1) =>
        match forward_qkv n_head n_feat linear_q linear_k linear_v query key value with
        | Raise e => (Raise e, st1)
        | Ok _ => (Raise ValueError, st1)
        end
    end.
Proof.
  intros Hw. unfold RelPositionMultiHeadAttentionLongformer.forward.
  destruct (update_cache _cache_id cache_drop_size key value query st) as [r st1].
  destruct r as [[[key' value'] query']|e]; [|reflexivity].
  destruct (forward_qkv n_head n_feat linear_q linear_k linear_v query' key' value')
    as [[[q k] v]|e]; [|reflexivity].
  cbn [bind]. destruct (Z.leb_spec (Z.max (fst att_context_size) (snd att_context_size)) 0);
    [reflexivity|lia].
Qed.
End WindowCheck.

(** The claim on the window check read as stated fails: with [w = 0], a
    cache and a next cache, the call raises the configuration error only
    after the next cache has been rewritten; and without a cache, a query of
    the wrong width makes the projection raise first. *)
Lemma window_check_follows_cache_update :
  let run query st :=
    RelPositionMultiHeadAttentionLongformer.forward 1 1 (fun x => x) (fun x => x) (fun x => x) (fun x => x)
      (fun x => x) [[0%R]] [[0%R]] (0, 0)%Z 0 0%Z 0%R
      query [[[3%R]]] [[[3%R]]] [[false]] [] st in
  let st := Buffers (Some [[[[1%R]; [2%R]]]]) (Some [[[[0%R]; [0%R]]]]) in
  run [[[3%R]]] st
  = (Raise ValueError, Buffers (Some [[[[1%R]; [2%R]]]]) (Some [[[[2%R]; [3%R]]]])) /\
  snd (run [[[3%R]]] st) <> st /\
  run [[[3%R; 4%R]]] (Buffers None None) = (Raise RuntimeError, Buffers None None).
Proof.
  cbv zeta. split; [reflexivity|]. split; [|reflexivity].
  intros Heq. cbv in Heq. injection Heq as Heq _. lra.
Qed.

Lemma window_check_after_cache_and_projection_witness :
  RelPositionMultiHeadAttentionLongformer.forward 1 1 (fun x => x) (fun x => x) (fun x => x) (fun x => x)
    (fun x => x) [[0%R]] [[0%R]] (0, 0)%Z 0 0%Z 0%R
    [[[3%R]]] [[[3%R]]] [[[3%R]]] [[false]] [] (Buffers None None)
  = (Raise ValueError, Buffers None None).
Proof.
  rewrite window_check_after_cache_and_projection; [reflexivity|simpl; lia].
Defined.

(** ** Tables given by their entries

    How the list operations of the model act on [tabulate]: every step of
    the banded product below is a rewriting with one of these equations. *)

Section Tabulate.
Context {A : Type}.
Implicit Types f g : nat -> A.

Lemma tabulate_length n f : length (tabulate n f) = n.
Proof. unfold tabulate. now rewrite length_map, length_seq. Qed.

Lemma tabulate_nth_error n f i : i < n -> nth_error (tabulate n f) i = Some (f i).
Proof.
  intros Hi. unfold tabulate. rewrite nth_error_map, nth_error_seq.
  destruct (Nat.ltb_spec i n); [reflexivity|lia].
Qed.

Lemma tabulate_ext n f g : (forall i, i < n -> f i = g i) -> tabulate n f = tabulate n g.
Proof.
  intros Hfg. unfold tabulate. apply map_ext_in. intros i Hi. apply in_seq in Hi. apply Hfg. lia.
Qed.

Lemma tabulate_of_list (d : A) (l : list A) : l = tabulate (length l) (fun i => nth i l d).
Proof.
  unfold tabulate. apply nth_error_ext. intros i.
  rewrite nth_error_map, nth_error_seq.
  destruct (Nat.ltb_spec i (length l)).
  - simpl. now apply nth_error_nth'.
  - simpl. now apply nth_error_None.
Qed.

Lemma seq_shift_map (f : nat -> A) a n : map f (seq a n) = map (fun i => f (a + i)) (seq 0 n).
Proof.
  rewrite <- (Nat.add_0_r a) at 1. generalize 0 as b.
  induction n as [|n IH]; intros b; [reflexivity|].
  simpl. f_equal. replace (S (a + b)) with (a + S b) by lia. apply IH.
Qed.

Lemma tabulate_firstn n f k : firstn k (tabulate n f) = tabulate (Nat.min k n) f.
Proof.
  unfold tabulate. rewrite firstn_map. f_equal.
  revert n. induction k as [|k IH]; intros n; [reflexivity|].
  destruct n as [|n]; [reflexivity|].
  simpl Nat.min. rewrite <- !cons_seq. simpl. f_equal.
  rewrite <- !seq_shift, <- IH. now rewrite firstn_map.
Qed.

Lemma tabulate_skipn n f k : skipn k (tabulate n f) = tabulate (n - k) (fun i => f (k + i)).
Proof.
  unfold tabulate. rewrite skipn_map, skipn_seq. simpl. apply seq_shift_map.
Qed.

Lemma tabulate_app n m f g :
  tabulate n f ++ tabulate m g = tabulate (n + m) (fun i => if i <? n then f i else g (i - n)).
Proof.
  unfold tabulate. rewrite seq_app, map_app. f_equal.
  - apply map_ext_in. intros i Hi. apply in_seq in Hi.
    destruct (Nat.ltb_spec i n); [reflexivity|lia].
  - simpl. rewrite (seq_shift_map _ n m). apply map_ext. intros i.
    destruct (Nat.ltb_spec (n + i) n); [lia|]. f_equal. lia.
Qed.

Lemma tabulate_slice n f lo hi :
  Py.slice lo hi (tabulate n f)
  = tabulate (Py.upper n hi - Py.lower n lo) (fun i => f (Py.lower n lo + i)).
Proof.
  unfold Py.slice. rewrite tabulate_length, tabulate_skipn, tabulate_firstn.
  assert (Py.upper n hi <= n).
  { unfold Py.upper, Py.clip. destruct hi as [i|]; [|lia].
    destruct (Z.ltb_spec i 0); lia. }
  f_equal. lia.
Qed.
End Tabulate.

Lemma tabulate_map {A B} (h : A -> B) n f : map h (tabulate n f) = tabulate n (fun i => h (f i)).
Proof. unfold tabulate. now rewrite map_map. Qed.

Lemma tabulate_combine {A B} n (f : nat -> A) (g : nat -> B) :
  combine (tabulate n f) (tabulate n g) = tabulate n (fun i => (f i, g i)).
Proof.
  unfold tabulate. generalize 0 as a. induction n as [|n IH]; intros a; [reflexivity|].
  simpl. f_equal. apply IH.
Qed.

Lemma tabulate_concat {A} rows cols (f : nat -> nat -> A) :
  0 < cols ->
  concat (tabulate rows (fun r => tabulate cols (f r)))
  = tabulate (rows * cols) (fun i => f (i / cols) (i mod cols)).
Proof.
  intros HC. induction rows as [|rows IH]; [reflexivity|].
  unfold tabulate at 1. rewrite seq_S, map_app, concat_app. fold (tabulate rows (fun r => tabulate cols (f r))).
  rewrite IH. simpl. rewrite app_nil_r.
  replace (cols + rows * cols) with (rows * cols + cols) by lia.
  rewrite tabulate_app. apply tabulate_ext. intros i Hi.
  destruct (Nat.ltb_spec i (rows * cols)); [reflexivity|].
  assert (i / cols = rows).
  { symmetry. apply Nat.div_unique with (r := i - rows * cols); lia. }
  assert (i mod cols = i - rows * cols).
  { symmetry. apply Nat.mod_unique with (q := rows); lia. }
  congruence.
Qed.

Lemma tabulate_view {A} rows cols n (f : nat -> A) :
  rows * cols <= n ->
  view rows cols (tabulate n f) = tabulate rows (fun i => tabulate cols (fun j => f (i * cols + j))).
Proof.
  intros H. unfold view. fold (tabulate rows (fun r => firstn cols (skipn (r * cols) (tabulate n f)))).
  apply tabulate_ext. intros i Hi.
  rewrite tabulate_skipn, tabulate_firstn. f_equal. nia.
Qed.

Lemma map_result_tabulate {A B} (F : A -> result B) n (f : nat -> A) (h : nat -> B) :
  (forall i, i < n -> F (f i) = Ok (h i)) ->
  map_result F (tabulate n f) = Ok (tabulate n h).
Proof.
  intros HF. unfold tabulate.
  assert (G : forall a m, a + m <= n ->
             map_result F (map f (seq a m)) = Ok (map h (seq a m))).
  { intros a m. revert a. induction m as [|m IH]; intros a Ham; [reflexivity|].
    simpl. rewrite HF by lia. simpl. rewrite IH by lia. reflexivity. }
  apply G. lia.
Qed.

Lemma upper_le n hi : Py.upper n hi <= n.
Proof.
  unfold Py.upper, Py.clip. destruct hi as [i|]; [|lia].
  destruct (Z.ltb_spec i 0); lia.
Qed.

Lemma lower_le n lo : Py.lower n lo <= n.
Proof.
  unfold Py.lower, Py.clip. destruct lo as [i|]; [|lia].
  destruct (Z.ltb_spec i 0); lia.
Qed.

Lemma tabulate_splice {A} n a b (f h : nat -> A) :
  a <= b <= n ->
  firstn a (tabulate n f) ++ tabulate (b - a) h ++ skipn (a + (b - a)) (tabulate n f)
  = tabulate n (fun i => if (a <=? i) && (i <? b) then h (i - a) else f i).
Proof.
  intros Hab. rewrite tabulate_firstn, tabulate_skipn, !tabulate_app.
  replace (Nat.min a n + (b - a + (n - (a + (b - a))))) with n by lia.
  apply tabulate_ext. intros i Hi.
  replace (Nat.min a n) with a by lia.
  destruct (Nat.ltb_spec i a), (Nat.leb_spec a i), (Nat.ltb_spec i b),
    (Nat.ltb_spec (i - a) (b - a)); simpl; try lia; try reflexivity.
  f_equal. lia.
Qed.

Lemma tabulate_slice_update {A B} (put : A -> B -> result A) n m
    (f : nat -> A) (g : nat -> B) lo hi (h : nat -> A) :
  Py.lower n lo <= Py.upper n hi ->
  m = Py.upper n hi - Py.lower n lo ->
  (forall i, i < m -> put (f (Py.lower n lo + i)) (g i) = Ok (h i)) ->
  Py.slice_update put lo hi (tabulate n f) (tabulate m g)
  = Ok (tabulate n (fun i => if (Py.lower n lo <=? i) && (i <? Py.upper n hi)
                             then h (i - Py.lower n lo) else f i)).
Proof.
  intros Hab Hm Hput. unfold Py.slice_update. rewrite tabulate_length. cbv zeta.
  pose proof (upper_le n hi) as Hb.
  set (a := Py.lower n lo) in *. set (b := Py.upper n hi) in *. clearbody a b.
  rewrite broadcast_to_same by (rewrite tabulate_length; lia). cbn [bind].
  rewrite tabulate_skipn, tabulate_firstn.
  replace (Nat.min (b - a) (n - a)) with m by lia.
  rewrite tabulate_combine.
  rewrite (map_result_tabulate _ (fun i => (f (a + i), g i)) h) by (intros; now apply Hput).
  cbn [bind]. f_equal. subst m. apply tabulate_splice. lia.
Qed.

Lemma tabulate_slice_assign {A} n m (f g : nat -> A) lo hi :
  Py.lower n lo <= Py.upper n hi ->
  m = Py.upper n hi - Py.lower n lo ->
  Py.slice_assign lo hi (tabulate n f) (tabulate m g)
  = Ok (tabulate n (fun i => if (Py.lower n lo <=? i) && (i <? Py.upper n hi)
                             then g (i - Py.lower n lo) else f i)).
Proof.
  intros Hab Hm. unfold Py.slice_assign.
  now apply tabulate_slice_update.
Qed.

Lemma tabulate2_ext {A} rows cols (f g : nat -> nat -> A) :
  (forall r c, r < rows -> c < cols -> f r c = g r c) -> tabulate2 rows cols f = tabulate2 rows cols g.
Proof.
  intros H. apply tabulate_ext. intros r Hr. apply tabulate_ext. intros c Hc. now apply H.
Qed.

Lemma tabulate_block_copy {A} rows cols srows scols (fd fs : nat -> nat -> A)
    rlo rhi clo chi srlo srhi sclo schi :
  Py.lower rows rlo <= Py.upper rows rhi ->
  Py.lower cols clo <= Py.upper cols chi ->
  Py.upper srows srhi - Py.lower srows srlo = Py.upper rows rhi - Py.lower rows rlo ->
  Py.upper scols schi - Py.lower scols sclo = Py.upper cols chi - Py.lower cols clo ->
  block_copy cols rlo rhi clo chi (tabulate2 rows cols fd)
             scols srlo srhi sclo schi (tabulate2 srows scols fs)
  = Ok (tabulate2 rows cols (fun r c =>
          if ((Py.lower rows rlo <=? r) && (r <? Py.upper rows rhi))
             && ((Py.lower cols clo <=? c) && (c <? Py.upper cols chi))
          then fs (Py.lower srows srlo + (r - Py.lower rows rlo))
                  (Py.lower scols sclo + (c - Py.lower cols clo))
          else fd r c)).
Proof.
  intros Hr Hc Hre Hce. unfold block_copy, extent, tabulate2.
  rewrite Hce, Nat.eqb_refl. cbn [orb].
  rewrite tabulate_slice, tabulate_map.
  rewrite (@tabulate_slice_update _ _ _ rows _ _ _ rlo rhi
             (fun i => tabulate cols (fun c =>
                if (Py.lower cols clo <=? c) && (c <? Py.upper cols chi)
                then fs (Py.lower srows srlo + i) (Py.lower scols sclo + (c - Py.lower cols clo))
                else fd (Py.lower rows rlo + i) c))); [| exact Hr | exact Hre |].
  - f_equal. apply tabulate_ext. intros r Hlt.
    destruct (Nat.leb_spec (Py.lower rows rlo) r), (Nat.ltb_spec r (Py.upper rows rhi));
      cbn [andb]; try reflexivity.
    apply tabulate_ext. intros c Hlc.
    replace (Py.lower rows rlo + (r - Py.lower rows rlo)) with r by lia.
    reflexivity.
  - intros i Hi. cbv beta. rewrite tabulate_slice.
    rewrite tabulate_slice_assign; [reflexivity | exact Hc | exact Hce].
Qed.

(** ** The banded query-key product

    [sliding_chunks_matmul_qk] on [2 * w * n] frames, for a window
    [w >= 2]: entry [(i, c)] of the band is the product of query [i] with
    key [i + c - w], and [-inf] where that key does not exist. *)

Lemma tabulate_repeat {A} (x : A) n : repeat x n = tabulate n (fun _ => x).
Proof.
  unfold tabulate. generalize 0 as a. induction n as [|n IH]; intros a; [reflexivity|].
  simpl. f_equal. apply IH.
Qed.

Lemma tabulate_rev {A} n (f : nat -> A) : rev (tabulate n f) = tabulate n (fun i => f (n - 1 - i)).
Proof.
  induction n as [|n IH]; [reflexivity|].
  unfold tabulate at 1. rewrite seq_S, map_app, rev_app_distr. simpl.
  fold (tabulate n f). rewrite IH.
  change (f n :: tabulate n (fun i => f (n - 1 - i)))
    with (tabulate 1 (fun _ => f n) ++ tabulate n (fun i => f (n - 1 - i))).
  rewrite tabulate_app. apply tabulate_ext. intros i Hi.
  destruct (Nat.ltb_spec i 1).
  - f_equal. lia.
  - f_equal. lia.
Qed.

Lemma width_tabulate2 {A} rows cols (f : nat -> nat -> A) : 0 < rows -> width (tabulate2 rows cols f) = cols.
Proof.
  intros Hrows. destruct rows as [|rows]; [lia|]. unfold width, tabulate2, tabulate. simpl.
  now rewrite length_map, length_seq.
Qed.

Lemma tabulate2_length {A} rows cols (f : nat -> nat -> A) : length (tabulate2 rows cols f) = rows.
Proof. apply tabulate_length. Qed.

(** Chunk [c] of [_chunk_overlap] holds the [2 * w] frames from [c * w] on. *)
Lemma chunk_overlap_tabulate {A} (w n : nat) (f : nat -> list A) :
  0 < w -> 0 < n ->
  _chunk_overlap (tabulate (2 * w * n) f) w
  = tabulate (2 * n - 1) (fun c => tabulate (2 * w) (fun r => f (c * w + r))).
Proof.
  intros Hw Hn. unfold _chunk_overlap. rewrite tabulate_length.
  replace (2 * w * n / (w * 2)) with n
    by (replace (2 * w * n) with (n * (w * 2)) by lia; symmetry; apply Nat.div_mul; lia).
  replace (n * 2 - 1) with (2 * n - 1) by lia.
  fold (tabulate (2 * n - 1) (fun c => firstn (w * 2) (skipn (c * w) (tabulate (2 * w * n) f)))).
  apply tabulate_ext. intros c Hc.
  rewrite tabulate_skipn, tabulate_firstn. f_equal. nia.
Qed.

(** [_skew] with padding [(0, 0, 0, 1)]: row [r] of the result starts at
    flat position [r * (2 * w + 1)] of the padded chunk product. *)
Section Skew.
Context {A : Type}.

Lemma pad_bottom_tabulate rows cols (F : nat -> nat -> A) (pv : A) :
  0 < rows ->
  pad2 0 0 0 1 pv (tabulate2 rows cols F)
  = tabulate2 (rows + 1) cols (fun r c => if r <? rows then F r c else pv).
Proof.
  intros Hrows. unfold pad2. rewrite width_tabulate2 by assumption.
  rewrite !Nat.add_0_r. cbn [repeat app].
  unfold tabulate2 at 1. rewrite tabulate_map.
  rewrite tabulate_repeat.
  change [tabulate cols (fun _ : nat => pv)] with (tabulate 1 (fun _ : nat => tabulate cols (fun _ : nat => pv))).
  rewrite tabulate_app. apply tabulate_ext. intros r Hr.
  destruct (Nat.ltb_spec r rows).
  - simpl. now rewrite app_nil_r.
  - reflexivity.
Qed.

Lemma skew_tabulate (w : nat) (F : nat -> nat -> A) (pv : A) :
  0 < w ->
  _skew (tabulate2 (2 * w) (2 * w) F) (0, 0, 0, 1) pv
  = tabulate2 (2 * w) (2 * w + 1)
      (fun r s => if r + s <? 2 * w then F r (r + s)
                  else if r + 1 <? 2 * w then F (r + 1) (r + s - 2 * w) else pv).
Proof.
  intros Hw. unfold _skew. rewrite pad_bottom_tabulate by lia.
  rewrite width_tabulate2 by lia. rewrite tabulate2_length.
  unfold tabulate2 at 1. rewrite tabulate_concat by lia.
  rewrite tabulate_view by lia.
  apply tabulate2_ext. intros r s Hr Hs.
  destruct (Nat.ltb_spec (r + s) (2 * w)).
  - assert (E1 : (r * (2 * w + 1) + s) / (2 * w) = r)
      by (symmetry; apply Nat.div_unique with (r := r + s); lia).
    assert (E2 : (r * (2 * w + 1) + s) mod (2 * w) = r + s)
      by (symmetry; apply Nat.mod_unique with (q := r); lia).
    rewrite E1, E2. destruct (Nat.ltb_spec r (2 * w)); [reflexivity|lia].
  - assert (E1 : (r * (2 * w + 1) + s) / (2 * w) = r + 1)
      by (symmetry; apply Nat.div_unique with (r := r + s - 2 * w); lia).
    assert (E2 : (r * (2 * w + 1) + s) mod (2 * w) = r + s - 2 * w)
      by (symmetry; apply Nat.mod_unique with (q := r + 1); lia).
    rewrite E1, E2. reflexivity.
Qed.
End Skew.

(** Reads and updates at the first and at the last index. *)
Section Indexing.
Context {A : Type}.

Lemma py_index_last n (f : nat -> A) : 0 < n -> py_index (-1) (tabulate n f) = Ok (f (n - 1)).
Proof.
  intros Hn. unfold py_index. rewrite tabulate_length. change (-1 <? 0)%Z with true. cbv iota.
  destruct (Z.ltb_spec (-1 + Z.of_nat n) 0); [lia|].
  replace (Z.to_nat (-1 + Z.of_nat n)) with (n - 1) by lia.
  now rewrite tabulate_nth_error by lia.
Qed.

Lemma py_index_first n (f : nat -> A) : 0 < n -> py_index 0 (tabulate n f) = Ok (f 0).
Proof.
  intros Hn. unfold py_index. change (0 <? 0)%Z with false. cbv iota.
  simpl (Z.to_nat 0). now rewrite tabulate_nth_error by lia.
Qed.

Lemma tabulate_set n (f : nat -> A) k y :
  k < n ->
  firstn k (tabulate n f) ++ y :: skipn (S k) (tabulate n f)
  = tabulate n (fun i => if i =? k then y else f i).
Proof.
  intros Hk.
  change (y :: skipn (S k) (tabulate n f))
    with (tabulate 1 (fun _ => y) ++ skipn (S k) (tabulate n f)).
  replace 1 with (S k - k) at 1 by lia.
  replace (S k) with (k + (S k - k)) at 2 by lia.
  rewrite tabulate_splice by lia. apply tabulate_ext. intros i Hi.
  destruct (Nat.leb_spec k i), (Nat.ltb_spec i (S k)), (Nat.eqb_spec i k);
    simpl; try lia; reflexivity.
Qed.

Lemma update_at_last n (f : nat -> A) F y :
  0 < n -> F (f (n - 1)) = Ok y ->
  update_at (-1) F (tabulate n f) = Ok (tabulate n (fun i => if i =? n - 1 then y else f i)).
Proof.
  intros Hn HF. unfold update_at. rewrite tabulate_length. change (-1 <? 0)%Z with true. cbv iota.
  destruct (Z.ltb_spec (-1 + Z.of_nat n) 0); [lia|].
  replace (Z.to_nat (-1 + Z.of_nat n)) with (n - 1) by lia.
  rewrite tabulate_nth_error by lia. rewrite HF. cbn [bind].
  now rewrite tabulate_set by lia.
Qed.

Lemma update_at_first n (f : nat -> A) F y :
  0 < n -> F (f 0) = Ok y ->
  update_at 0 F (tabulate n f) = Ok (tabulate n (fun i => if i =? 0 then y else f i)).
Proof.
  intros Hn HF. unfold update_at. change (0 <? 0)%Z with false. cbv iota.
  simpl (Z.to_nat 0). rewrite tabulate_nth_error by lia. rewrite HF. cbn [bind].
  now rewrite tabulate_set by lia.
Qed.
End Indexing.

(** Slice bounds at the values the banded products use. *)
Lemma lower_none n : Py.lower n None = 0.
Proof. reflexivity. Qed.
Lemma upper_none n : Py.upper n None = n.
Proof. reflexivity. Qed.
Lemma lower_nat n (i : nat) : Py.lower n (Some (Z.of_nat i)) = Nat.min i n.
Proof. apply clip_nonneg. Qed.
Lemma upper_nat n (i : nat) : Py.upper n (Some (Z.of_nat i)) = Nat.min i n.
Proof. apply clip_nonneg. Qed.
Lemma lower_neg n (i : nat) : 0 < i -> Py.lower n (Some (- Z.of_nat i)%Z) = n - i.
Proof. apply clip_neg. Qed.
Lemma upper_neg n (i : nat) : 0 < i -> Py.upper n (Some (- Z.of_nat i)%Z) = n - i.
Proof. apply clip_neg. Qed.

(** The four block assignments of [sliding_chunks_matmul_qk] on one chunk. *)
Section BlockCopies.
Context {A : Type}.
Variable w : nat.
Hypothesis Hw : 1 <= w.
Variables fd fs : nat -> nat -> A.
Local Abbreviation cols := (w * 2 + 1).
Local Abbreviation W := (Z.of_nat w).

Ltac bounds :=
  repeat first
    [ rewrite lower_none | rewrite upper_none
    | rewrite lower_nat | rewrite upper_nat
    | rewrite lower_neg by lia | rewrite upper_neg by lia
    | match goal with
      | |- context [Py.lower ?n (Some (Z.of_nat ?a + 1)%Z)] =>
          replace (Z.of_nat a + 1)%Z with (Z.of_nat (a + 1)) by lia
      | |- context [Py.upper ?n (Some (Z.of_nat ?a + 1)%Z)] =>
          replace (Z.of_nat a + 1)%Z with (Z.of_nat (a + 1)) by lia
      | |- context [Py.lower ?n (Some (- (Z.of_nat ?a + 1))%Z)] =>
          (replace (- (Z.of_nat a + 1))%Z with (- Z.of_nat (a + 1))%Z by lia);
          rewrite lower_neg by lia
      | |- context [Py.upper ?n (Some (-1)%Z)] =>
          change (-1)%Z with (- Z.of_nat 1)%Z; rewrite upper_neg by lia
      | |- context [Py.upper ?n (Some (Z.of_nat ?a - 1)%Z)] =>
          replace (Z.of_nat a - 1)%Z with (Z.of_nat (a - 1)) by lia
      | |- context [Py.lower ?n (Some (1 - Z.of_nat ?a)%Z)] =>
          (replace (1 - Z.of_nat a)%Z with (- Z.of_nat (a - 1))%Z by lia);
          rewrite lower_neg by lia
      | |- context [Py.lower ?n (Some 1%Z)] =>
          change 1%Z with (Z.of_nat 1)
      end ].

Lemma copy_upper_rows :
  block_copy cols None None (Some W) None (tabulate2 w cols fd)
             cols None (Some W) None (Some (W + 1)%Z) (tabulate2 (2 * w) cols fs)
  = Ok (tabulate2 w cols (fun r c => if w <=? c then fs r (c - w) else fd r c)).
Proof.
  rewrite tabulate_block_copy; bounds; try lia.
  f_equal. apply tabulate2_ext. intros r c Hr Hc.
  replace (Nat.min w (w * 2 + 1)) with w by lia.
  destruct (Nat.leb_spec 0 r), (Nat.ltb_spec r w), (Nat.leb_spec w c),
    (Nat.ltb_spec c (w * 2 + 1)); simpl; try lia; try reflexivity.
  f_equal; lia.
Qed.

Lemma copy_upper_rows_of_last :
  block_copy cols None None (Some W) None (tabulate2 w cols fd)
             cols (Some W) None None (Some (W + 1)%Z) (tabulate2 (2 * w) cols fs)
  = Ok (tabulate2 w cols (fun r c => if w <=? c then fs (w + r) (c - w) else fd r c)).
Proof.
  rewrite tabulate_block_copy; bounds; try lia.
  f_equal. apply tabulate2_ext. intros r c Hr Hc.
  replace (Nat.min w (w * 2 + 1)) with w by lia.
  replace (Nat.min w (2 * w)) with w by lia.
  destruct (Nat.leb_spec 0 r), (Nat.ltb_spec r w), (Nat.leb_spec w c),
    (Nat.ltb_spec c (w * 2 + 1)); simpl; try lia; try reflexivity.
  f_equal; lia.
Qed.

Lemma copy_lower_rows :
  block_copy cols None None None (Some W) (tabulate2 w cols fd)
             cols (Some (- (W + 1))%Z) (Some (-1)%Z) (Some (W + 1)%Z) None
             (tabulate2 (2 * w) cols fs)
  = Ok (tabulate2 w cols (fun r c => if c <? w then fs (w - 1 + r) (w + 1 + c) else fd r c)).
Proof.
  rewrite tabulate_block_copy; bounds; try lia.
  f_equal. apply tabulate2_ext. intros r c Hr Hc.
  replace (Nat.min w (w * 2 + 1)) with w by lia.
  replace (Nat.min (w + 1) (w * 2 + 1)) with (w + 1) by lia.
  destruct (Nat.leb_spec 0 r), (Nat.ltb_spec r w), (Nat.leb_spec 0 c),
    (Nat.ltb_spec c w); simpl; try lia; try reflexivity.
  f_equal; lia.
Qed.

Lemma copy_lower_rows_of_first :
  2 <= w ->
  block_copy cols (Some 1%Z) (Some W) (Some 1%Z) (Some W) (tabulate2 w cols fd)
             cols None (Some (W - 1)%Z) (Some (1 - W)%Z) None (tabulate2 (2 * w) cols fs)
  = Ok (tabulate2 w cols (fun r c =>
          if (1 <=? r) && ((1 <=? c) && (c <? w)) then fs (r - 1) (w + 1 + c) else fd r c)).
Proof.
  intros Hw2. rewrite tabulate_block_copy; bounds; try lia.
  f_equal. apply tabulate2_ext. intros r c Hr Hc.
  replace (Nat.min w (w * 2 + 1)) with w by lia.
  replace (Nat.min 1 w) with 1 by lia.
  replace (Nat.min 1 (w * 2 + 1)) with 1 by lia.
  replace (Nat.min w w) with w by lia.
  destruct (Nat.leb_spec 1 r), (Nat.ltb_spec r w), (Nat.leb_spec 1 c),
    (Nat.ltb_spec c w); simpl; try lia; try reflexivity.
  f_equal; lia.
Qed.
End BlockCopies.

Lemma tabulate_slice_fill {A} n (f : nat -> A) lo hi (c : A) :
  Py.slice_fill lo hi c (tabulate n f)
  = tabulate n (fun i => if (Py.lower n lo <=? i) && (i <? Py.upper n hi) then c else f i).
Proof.
  unfold Py.slice_fill. rewrite tabulate_length. cbv zeta.
  pose proof (upper_le n hi) as Hb. pose proof (lower_le n lo) as Ha.
  set (a := Py.lower n lo) in *. set (b := Py.upper n hi) in *. clearbody a b.
  rewrite (tabulate_skipn n f a), (tabulate_firstn (n - a)), tabulate_length, tabulate_repeat.
  destruct (Nat.le_gt_cases a b) as [Hab|Hab].
  - replace (Nat.min (b - a) (n - a)) with (b - a) by lia.
    now rewrite tabulate_splice by lia.
  - replace (Nat.min (b - a) (n - a)) with 0 by lia.
    replace (a + (b - a)) with a by lia.
    change (tabulate 0 (fun _ : nat => c)) with (@nil A). cbn [app].
    rewrite firstn_skipn. apply tabulate_ext. intros i Hi.
    destruct (Nat.leb_spec a i), (Nat.ltb_spec i b); simpl; try lia; reflexivity.
Qed.

Lemma tabulate_nth {A} n (f : nat -> A) i d : i < n -> nth i (tabulate n f) d = f i.
Proof.
  intros Hi. apply nth_error_nth. now apply tabulate_nth_error.
Qed.

Lemma range_from (a : Z) (m : nat) :
  range a (a + Z.of_nat m) 1 = tabulate m (fun i => (a + Z.of_nat i)%Z).
Proof.
  unfold range. change (0 <? 1)%Z with true. cbv iota.
  replace ((a + Z.of_nat m - a + 1 - 1) / 1)%Z with (Z.of_nat m) by (rewrite Z.div_1_r; lia).
  rewrite Nat2Z.id. unfold tabulate. apply map_ext. intros i. lia.
Qed.

(** The two triangles of [_get_invalid_locations_mask]. *)
Lemma invalid_locations_mask (w : nat) :
  _get_invalid_locations_mask w
  = (tabulate2 w (w + 1) (fun i j => i + j <? w),
     tabulate2 w (w + 1) (fun i j => w <=? i + j)).
Proof.
  unfold _get_invalid_locations_mask.
  replace (range (- Z.of_nat w) 1 1)
    with (range (- Z.of_nat w) (- Z.of_nat w + Z.of_nat (w + 1)) 1) by (f_equal; lia).
  rewrite range_from, tabulate_map.
  assert (Hmask :
    map (fun i => map (fun d : list bool => nth i d false)
                      (tabulate (w + 1) (fun j =>
                         Py.slice_fill None (Some (- (- Z.of_nat w + Z.of_nat j))%Z) true
                           (repeat false w))))
        (seq 0 w)
    = tabulate2 w (w + 1) (fun i j => i + j <? w)).
  { fold (tabulate w (fun i => map (fun d : list bool => nth i d false)
                      (tabulate (w + 1) (fun j =>
                         Py.slice_fill None (Some (- (- Z.of_nat w + Z.of_nat j))%Z) true
                           (repeat false w))))).
    apply tabulate_ext. intros i Hi. rewrite tabulate_map.
    apply tabulate_ext. intros j Hj.
    rewrite tabulate_repeat, tabulate_slice_fill, tabulate_nth by assumption.
    rewrite lower_none.
    replace (- (- Z.of_nat w + Z.of_nat j))%Z with (Z.of_nat (w - j)) by lia.
    rewrite upper_nat.
    destruct (Nat.leb_spec 0 i), (Nat.ltb_spec i (Nat.min (w - j) w)),
      (Nat.ltb_spec (i + j) w); simpl; try lia; reflexivity. }
  rewrite Hmask. f_equal.
  unfold tabulate2. rewrite tabulate_map, tabulate_rev.
  apply tabulate_ext. intros i Hi. rewrite tabulate_rev.
  apply tabulate_ext. intros j Hj.
  destruct (Nat.ltb_spec (w - 1 - i + (w + 1 - 1 - j)) w), (Nat.leb_spec w (i + j));
    try lia; reflexivity.
Qed.

(** [mask_invalid_locations] puts [-inf] where the key index [i + c - w]
    falls before the first or after the last frame. *)
Section Masking.
Context {num : Type} `{Scalar num}.

Lemma mask_invalid_locations_tabulate (w T : nat) (sc : nat -> nat -> @score num) :
  0 < w -> 2 * w <= T ->
  mask_invalid_locations (tabulate2 T (w * 2 + 1) sc) w
  = Ok (tabulate2 T (w * 2 + 1)
          (fun i c => if (i + c <? w) || (T + w <=? i + c) then None else sc i c)).
Proof.
  intros Hw HT. unfold mask_invalid_locations.
  rewrite invalid_locations_mask. rewrite tabulate2_length.
  unfold tabulate2 at 2 3. rewrite !tabulate_slice.
  rewrite !upper_nat, !upper_none, !lower_none.
  replace (- Z.of_nat T)%Z with (- Z.of_nat T)%Z by reflexivity.
  rewrite (lower_neg w) by lia.
  replace (Nat.min T w - 0) with w by lia. replace (w - (w - T)) with w by lia.
  replace (w - T) with 0 by lia.
  unfold tabulate2.
  rewrite (@tabulate_slice_update _ _ _ T w _ _ None (Some (Z.of_nat w))
             (fun i => tabulate (w * 2 + 1)
                (fun c => if (c <? w + 1) && (i + c <? w) then None else sc i c)));
    rewrite ?lower_none, ?upper_nat; try lia.
  2:{ intros i Hi. cbv beta.
      replace (Z.of_nat w + 1)%Z with (Z.of_nat (w + 1)) by lia.
      rewrite (@tabulate_slice_update _ _ _ (w * 2 + 1) (w + 1) _ _ None (Some (Z.of_nat (w + 1)))
                 (fun c => if i + c <? w then None else sc i c));
        rewrite ?lower_none, ?upper_nat; try lia.
      - f_equal. apply tabulate_ext. intros c Hc.
        replace (Nat.min (w + 1) (w * 2 + 1)) with (w + 1) by lia.
        destruct (Nat.leb_spec 0 c), (Nat.ltb_spec c (w + 1)); simpl; try lia;
          try reflexivity. now rewrite Nat.sub_0_r.
      - intros c Hc. cbv beta. simpl (0 + c). simpl (0 + i). reflexivity. }
  cbn [bind].
  rewrite (@tabulate_slice_update _ _ _ T w _ _ (Some (- Z.of_nat w)%Z) None
             (fun i => tabulate (w * 2 + 1)
                (fun c => if (T + w <=? (T - w + i) + c) then None
                          else sc (T - w + i) c)));
    rewrite ?upper_none, ?lower_neg by lia; try lia.
  2:{ intros i Hi. cbv beta.
      replace (- (Z.of_nat w + 1))%Z with (- Z.of_nat (w + 1))%Z by lia.
      destruct (Nat.ltb_spec (T - w + i) (Nat.min w T)); [lia|].
      rewrite andb_false_r.
      rewrite (@tabulate_slice_update _ _ _ (w * 2 + 1) (w + 1) _ _
                 (Some (- Z.of_nat (w + 1))%Z) None
                 (fun c => if w <=? i + c then None else sc (T - w + i) (w + c)));
        rewrite ?upper_none, ?lower_neg by lia; try lia.
      - f_equal. apply tabulate_ext. intros c Hc.
        replace (w * 2 + 1 - (w + 1)) with w by lia.
        destruct (Nat.leb_spec w c), (Nat.ltb_spec c (w * 2 + 1)); simpl; try lia.
        + replace (w + (c - w)) with c by lia.
          destruct (Nat.leb_spec w (i + (c - w))), (Nat.leb_spec (T + w) (T - w + i + c));
            try lia; reflexivity.
        + destruct (Nat.leb_spec (T + w) (T - w + i + c)); [lia|reflexivity].
      - intros c Hc. cbv beta.
        replace (w * 2 + 1 - (w + 1) + c) with (w + c) by lia.
        replace (0 + i) with i by lia.
        destruct (Nat.leb_spec w (i + c)); reflexivity. }
  f_equal. apply tabulate_ext. intros i Hi.
  replace (Nat.min w T) with w by lia.
  destruct (Nat.leb_spec (T - w) i), (Nat.ltb_spec i T); cbn [andb]; try lia.
  - apply tabulate_ext. intros c Hc.
    replace (T - w + (i - (T - w))) with i by lia.
    destruct (Nat.leb_spec (T + w) (i + c)), (Nat.ltb_spec (i + c) w);
      cbn [andb orb]; try lia; reflexivity.
  - destruct (Nat.leb_spec 0 i), (Nat.ltb_spec i w); cbn [andb]; try lia.
    + rewrite Nat.sub_0_r. apply tabulate_ext. intros c Hc.
      destruct (Nat.leb_spec (T + w) (i + c)), (Nat.ltb_spec (i + c) w),
        (Nat.ltb_spec c (w + 1)); cbn [andb orb]; try lia; reflexivity.
    + apply tabulate_ext. intros c Hc.
      destruct (Nat.leb_spec (T + w) (i + c)), (Nat.ltb_spec (i + c) w);
        cbn [andb orb]; try lia; reflexivity.
Qed.
End Masking.

Lemma matmul_nt_tabulate {num : Type} `{Scalar num} rows cols (a b : nat -> @vec num) :
  matmul_nt (tabulate rows a) (tabulate cols b) = tabulate2 rows cols (fun x y => dot (a x) (b y)).
Proof.
  unfold matmul_nt, tabulate2. rewrite tabulate_map. apply tabulate_ext. intros x Hx.
  now rewrite tabulate_map.
Qed.

(** The first three slice assignments of the product, for every window. *)
Section BandSteps.
Context {num : Type} `{Scalar num}.
Variables w n : nat.
Hypothesis Hw : 1 <= w.
Hypothesis Hn : 1 <= n.
Variables qf kf : nat -> @vec num.
Variables junk pv : num.
Hypothesis Hwidth : length (kf 0) = length (qf 0).

Local Abbreviation T := (BandLayout.seqlen w n).
Local Abbreviation C := (BandLayout.chunks_count n).
Local Abbreviation cols := (BandLayout.band_width w).
Local Abbreviation F := (BandLayout.chunk_attn w qf kf).
Local Abbreviation Sk := (BandLayout.diagonal_chunk_attn w qf kf pv).
Local Abbreviation E1 := (BandLayout.after_upper w n qf kf junk pv).
Local Abbreviation E2 := (BandLayout.after_upper_last w n qf kf junk pv).
Local Abbreviation E3 := (BandLayout.after_lower w n qf kf junk pv).

Lemma div_chunks : T / w - 1 = C.
Proof.
  unfold T, C. replace (2 * w * n) with (2 * n * w) by lia.
  rewrite Nat.div_mul by lia. reflexivity.
Qed.

(** Up to its fourth assignment, [sliding_chunks_matmul_qk] runs without
    an exception and leaves chunk [c'] of [diagonal_attn] with the entries
    [after_lower c']. *)
Lemma sliding_chunks_matmul_qk_steps :
  sliding_chunks_matmul_qk junk (tabulate T qf) (tabulate T kf) w pv
  = (d4 <- update_at 0
             (fun d => block_copy cols (Some 1%Z) (Some (Z.of_nat w)) (Some 1%Z)
                                  (Some (Z.of_nat w)) d
                                  cols None (Some (Z.of_nat w - 1)%Z)
                                  (Some (1 - Z.of_nat w)%Z) None
                                  (tabulate2 (2 * w) cols (Sk 0)))
             (tabulate (C + 1) (fun c' => tabulate2 w cols (E3 c'))) ;;
     mask_invalid_locations (map (map Some) (concat d4)) w)%result.
Proof.
  unfold sliding_chunks_matmul_qk. rewrite !tabulate_length.
  assert (HT : 0 < T) by (unfold T; nia).
  assert (HC : 1 <= C) by (unfold C; lia).
  assert (Hmod : T mod (w * 2) = 0).
  { unfold T. replace (2 * w * n) with (n * (w * 2)) by lia. apply Nat.Div0.mod_mul. }
  rewrite Hmod. cbn [Nat.eqb negb].
  rewrite Nat.eqb_refl. cbn [andb].
  assert (Hwd : (width (tabulate T kf) =? width (tabulate T qf)) = true).
  { replace T with (S (T - 1)) by lia. unfold width, tabulate.
    cbn [seq map]. apply Nat.eqb_eq. exact Hwidth. }
  rewrite Hwd. cbn [negb].
  rewrite div_chunks.
  assert (Hdca :
    map (fun c : list (list num) => _skew c (0, 0, 0, 1) pv)
      (map (fun qk : mat * mat => matmul_nt (fst qk) (snd qk))
         (combine (_chunk_overlap (tabulate T qf) w)
                  (_chunk_overlap (tabulate T kf) w)))
    = tabulate C (fun c => tabulate2 (2 * w) cols (Sk c))).
  { unfold T. rewrite !chunk_overlap_tabulate by lia. fold C.
    rewrite tabulate_combine, !tabulate_map. cbn [fst snd].
    apply tabulate_ext. intros c Hc. rewrite matmul_nt_tabulate.
    rewrite skew_tabulate by lia. unfold cols.
    replace (2 * w + 1) with (w * 2 + 1) by lia. reflexivity. }
  rewrite !Hdca. clear Hdca.
  rewrite !tabulate_repeat. fold cols.
  change (tabulate w (fun _ : nat => tabulate cols (fun _ : nat => junk)))
    with (tabulate2 w cols (fun _ _ : nat => junk)).
  (* first assignment *)
  rewrite (@tabulate_slice_update _ _ _ (C + 1) C _ _ None (Some (-1)%Z)
             (fun i => tabulate2 w cols (fun r c => if w <=? c then Sk i r (c - w) else junk)));
    rewrite ?lower_none; change (-1)%Z with (- Z.of_nat 1)%Z;
    rewrite ?upper_neg by lia; try lia.
  2:{ intros i Hi. cbv beta. apply copy_upper_rows. exact Hw. }
  cbn [bind].
  assert (Hd1 :
    tabulate (C + 1) (fun i => if (0 <=? i) && (i <? C + 1 - 1)
                               then tabulate2 w cols (fun r c => if w <=? c then Sk (i - 0) r (c - w) else junk)
                               else tabulate2 w cols (fun _ _ : nat => junk))
    = tabulate (C + 1) (fun c' => tabulate2 w cols (E1 c'))).
  { apply tabulate_ext. intros i Hi. unfold E1.
    replace (C + 1 - 1) with C by lia. rewrite Nat.sub_0_r.
    destruct (Nat.leb_spec 0 i), (Nat.ltb_spec i C); cbn [andb]; try lia; reflexivity. }
  rewrite Hd1. clear Hd1.
  (* second assignment *)
  rewrite py_index_last by lia. cbn [bind].
  rewrite (@update_at_last _ (C + 1) _ _ (tabulate2 w cols (E2 C))); [|lia|].
  2:{ cbv beta. unfold cols. rewrite copy_upper_rows_of_last by exact Hw. f_equal.
      apply tabulate2_ext. intros r c Hr Hc. unfold E2.
      replace (C + 1 - 1) with C by lia. rewrite Nat.eqb_refl. reflexivity. }
  cbn [bind].
  assert (Hd2 :
    tabulate (C + 1) (fun i => if i =? C + 1 - 1 then tabulate2 w cols (E2 C)
                               else tabulate2 w cols (E1 i))
    = tabulate (C + 1) (fun c' => tabulate2 w cols (E2 c'))).
  { apply tabulate_ext. intros i Hi. replace (C + 1 - 1) with C by lia.
    destruct (Nat.eqb_spec i C) as [->|Hne]; [reflexivity|].
    apply tabulate2_ext. intros r c Hr Hc. unfold E2.
    destruct (Nat.eqb_spec i C); [lia|]. reflexivity. }
  rewrite Hd2. clear Hd2.
  (* third assignment *)
  change 1%Z with (Z.of_nat 1).
  rewrite (@tabulate_slice_update _ _ _ (C + 1) C _ _ (Some (Z.of_nat 1)) None
             (fun i => tabulate2 w cols
                (fun r c => if c <? w then Sk i (w - 1 + r) (w + 1 + c) else E2 (1 + i) r c)));
    rewrite ?upper_none, ?lower_nat; try lia.
  2:{ intros i Hi. cbv beta. replace (Nat.min 1 (C + 1)) with 1 by lia.
      change (Z.of_nat 1) with 1%Z. change (- 1)%Z with (-1)%Z.
      apply copy_lower_rows. exact Hw. }
  cbn [bind].
  assert (Hd3 :
    tabulate (C + 1) (fun i => if (Nat.min 1 (C + 1) <=? i) && (i <? C + 1)
                               then tabulate2 w cols
                                      (fun r c => if c <? w
                                                  then Sk (i - Nat.min 1 (C + 1)) (w - 1 + r) (w + 1 + c)
                                                  else E2 (1 + (i - Nat.min 1 (C + 1))) r c)
                               else tabulate2 w cols (E2 i))
    = tabulate (C + 1) (fun c' => tabulate2 w cols (E3 c'))).
  { apply tabulate_ext. intros i Hi. replace (Nat.min 1 (C + 1)) with 1 by lia.
    unfold E3.
    destruct (Nat.leb_spec 1 i), (Nat.ltb_spec i (C + 1)); cbn [andb]; try lia.
    - apply tabulate2_ext. intros r c Hr Hc.
      replace (1 + (i - 1)) with i by lia. reflexivity.
    - reflexivity. }
  rewrite Hd3. clear Hd3.
  rewrite py_index_first by lia. cbn [bind]. reflexivity.
Qed.
End BandSteps.

(** The product itself. *)
Section Band.
Context {num : Type} `{Scalar num}.
Variables w n : nat.
Hypothesis Hw : 2 <= w.
Hypothesis Hn : 1 <= n.
Variables qf kf : nat -> @vec num.
Variables junk pv : num.
Hypothesis Hwidth : length (kf 0) = length (qf 0).

Local Abbreviation T := (BandLayout.seqlen w n).
Local Abbreviation C := (BandLayout.chunks_count n).
Local Abbreviation cols := (BandLayout.band_width w).
Local Abbreviation F := (BandLayout.chunk_attn w qf kf).
Local Abbreviation Sk := (BandLayout.diagonal_chunk_attn w qf kf pv).
Local Abbreviation E1 := (BandLayout.after_upper w n qf kf junk pv).
Local Abbreviation E2 := (BandLayout.after_upper_last w n qf kf junk pv).
Local Abbreviation E3 := (BandLayout.after_lower w n qf kf junk pv).
Local Abbreviation E4 := (BandLayout.after_lower_first w n qf kf junk pv).

(** After the four assignments, row [i] and column [c] of the flattened
    buffer hold the product of query [i] and key [i + c - w]. *)
Lemma band_entries i c :
  i < T -> c < cols -> w <= i + c -> i + c < T + w ->
  E4 (i / w) (i mod w) c = dot (qf i) (kf (i + c - w)).
Proof.
  intros Hi Hc Hlo Hhi. unfold cols, T in *.
  pose proof (Nat.div_mod_eq i w) as Hdm.
  pose proof (Nat.mod_upper_bound i w ltac:(lia)) as Hr.
  set (c' := i / w) in *. set (r := i mod w) in *.
  assert (Hc' : c' <= C).
  { unfold C. assert (c' < 2 * n); [|lia].
    unfold c'. apply Nat.Div0.div_lt_upper_bound. lia. }
  assert (Hi' : i = c' * w + r) by lia. clearbody c' r. subst i.
  unfold E4, E3, E2, E1, Sk, F.
  destruct (Nat.ltb_spec c w) as [Hlow|Hup].
  - (* a column of the lower triangle *)
    destruct c' as [|c''].
    + simpl (0 =? 0). simpl (0 * w) in *. simpl (0 + r) in *.
      destruct (Nat.leb_spec 1 r), (Nat.leb_spec 1 c); cbn [andb]; try lia.
      destruct (Nat.ltb_spec (r - 1 + (w + 1 + c)) (2 * w)); [lia|].
      destruct (Nat.ltb_spec (r - 1 + 1) (2 * w)); [|lia].
      simpl (0 * w). f_equal; f_equal; lia.
    + simpl (S c'' =? 0). cbn [andb].
      destruct (Nat.leb_spec 1 (S c'')); [|lia]. cbn [andb].
      replace (S c'' - 1) with c'' by lia.
      destruct (Nat.ltb_spec (w - 1 + r + (w + 1 + c)) (2 * w)); [lia|].
      destruct (Nat.ltb_spec (w - 1 + r + 1) (2 * w)); [|lia].
      f_equal; f_equal; lia.
  - (* the diagonal and the upper triangle *)
    destruct (Nat.leb_spec w c); [|lia].
    rewrite !andb_false_r. cbn [andb].
    destruct (Nat.eqb_spec c' 0) as [->|Hne]; cbn [andb].
    + destruct (Nat.leb_spec 1 0); [lia|]. cbn [andb].
      destruct (Nat.eqb_spec 0 C) as [HC|HC]; [unfold C in HC; lia|]. cbn [andb].
      destruct (Nat.ltb_spec 0 C); [|unfold C in *; lia]. cbn [andb].
      destruct (Nat.ltb_spec (r + (c - w)) (2 * w)); [|lia].
      f_equal; f_equal; lia.
    + destruct (Nat.leb_spec 1 c'); [|lia]. cbn [andb].
      destruct (Nat.eqb_spec c' C) as [HC|HC]; cbn [andb].
      * subst c'.
        destruct (Nat.ltb_spec (w + r + (c - w)) (2 * w)); [|unfold C in *; nia].
        f_equal; f_equal; unfold C in *; nia.
      * destruct (Nat.ltb_spec c' C); [|lia]. cbn [andb].
        destruct (Nat.ltb_spec (r + (c - w)) (2 * w)); [|lia].
        f_equal; f_equal; lia.
Qed.

(** [sliding_chunks_matmul_qk] returns the band of products, whatever the
    contents [junk] of the fresh buffer and the padding value [pv]. *)
Theorem sliding_chunks_matmul_qk_band :
  sliding_chunks_matmul_qk junk (tabulate T qf) (tabulate T kf) w pv
  = Ok (tabulate2 T cols
          (fun i c => if (i + c <? w) || (T + w <=? i + c) then None
                      else Some (dot (qf i) (kf (i + c - w))))).
Proof.
  assert (HT : 0 < T) by (unfold T; nia).
  assert (HC : 1 <= C) by (unfold C; lia).
  rewrite sliding_chunks_matmul_qk_steps by (assumption || lia).
  (* fourth assignment *)
  rewrite (@update_at_first _ (C + 1) _ _ (tabulate2 w cols (E4 0))); [|lia|].
  2:{ cbv beta. change (Z.of_nat 1) with 1%Z. unfold cols.
      rewrite copy_lower_rows_of_first by lia. f_equal. }
  cbn [bind].
  assert (Hd4 :
    tabulate (C + 1) (fun i => if i =? 0 then tabulate2 w cols (E4 0)
                               else tabulate2 w cols (E3 i))
    = tabulate (C + 1) (fun c' => tabulate w (fun r => tabulate cols (E4 c' r)))).
  { apply tabulate_ext. intros i Hi.
    destruct (Nat.eqb_spec i 0) as [->|Hne]; [reflexivity|].
    apply tabulate2_ext. intros r c Hr Hc. unfold E4.
    destruct (Nat.eqb_spec i 0); [lia|]. reflexivity. }
  rewrite Hd4. clear Hd4.
  rewrite tabulate_concat by lia.
  replace ((C + 1) * w) with T by (unfold C, T; nia).
  rewrite tabulate_map.
  assert (Hsome :
    tabulate T (fun i => map Some (tabulate cols (E4 (i / w) (i mod w))))
    = tabulate2 T (w * 2 + 1) (fun i c => Some (E4 (i / w) (i mod w) c))).
  { apply tabulate_ext. intros i Hi. now rewrite tabulate_map. }
  rewrite Hsome. clear Hsome.
  rewrite mask_invalid_locations_tabulate by (unfold T; nia).
  f_equal. apply tabulate2_ext. intros i c Hi Hc.
  destruct (Nat.ltb_spec (i + c) w), (Nat.leb_spec (T + w) (i + c));
    cbn [orb]; try reflexivity.
  f_equal. now apply band_entries.
Qed.
End Band.

(** ** The banded score combination *)

Section BandCombination.
Context {num : Type} `{Scalar num}.
Variables n_head n_feat : nat.

Lemma map_result_total {X Y} (f : X -> Y) (l : list X) :
  map_result (fun x => Ok (f x)) l = Ok (map f l).
Proof.
  induction l as [|x l IH]; [reflexivity|]. simpl. rewrite IH. reflexivity.
Qed.

(** An update that cannot fail on a slice that the source fits. *)
Lemma slice_update_total {A B} (f : A -> B -> A) lo hi (dst : list A) (src : list B) :
  Py.lower (length dst) lo <= Py.upper (length dst) hi <= length dst ->
  length src = Py.upper (length dst) hi - Py.lower (length dst) lo ->
  Py.slice_update (fun d s => Ok (f d s)) lo hi dst src
  = Ok (firstn (Py.lower (length dst) lo) dst
        ++ map (fun ds => f (fst ds) (snd ds))
               (combine (firstn (length src) (skipn (Py.lower (length dst) lo) dst)) src)
        ++ skipn (Py.upper (length dst) hi) dst).
Proof.
  intros Hab Hsrc. unfold Py.slice_update. cbv zeta.
  set (a := Py.lower (length dst) lo) in *.
  set (b := Py.upper (length dst) hi) in *. clearbody a b.
  rewrite broadcast_to_same by assumption. cbn [bind].
  rewrite (map_result_total (fun ds : A * B => f (fst ds) (snd ds))). cbn [bind].
  rewrite Hsrc. do 4 f_equal. lia.
Qed.

Lemma skipn_combine {A B} (l : list A) (l' : list B) (n : nat) :
  skipn n (combine l l') = combine (skipn n l) (skipn n l').
Proof.
  revert l l'. induction n as [|n IH]; intros [|a l] [|b l']; simpl; try reflexivity.
  - now destruct (skipn n l).
  - apply IH.
Qed.

Lemma slice_fill_empty {A} lo hi (c : A) (l : list A) :
  Py.upper (length l) hi <= Py.lower (length l) lo <= length l ->
  Py.slice_fill lo hi c l = l.
Proof.
  intros Hab. unfold Py.slice_fill. cbv zeta.
  set (a := Py.lower (length l) lo) in *.
  set (b := Py.upper (length l) hi) in *. clearbody a b.
  replace (b - a) with 0 by lia. simpl. rewrite Nat.add_0_r.
  apply firstn_skipn.
Qed.

(** For a symmetric window [left = right = w] the combination is the one
    the band needs: every column [c] of the band, which stands for the
    offset [c - w], receives the bias of that offset, and no column is
    filled. *)
Lemma band_bias_aligned_for_symmetric_window (w : nat) (ac_row : list (@score num))
    (bd_row : list num) :
  0 < w -> length ac_row = 2 * w + 1 -> length bd_row = 2 * w + 1 ->
  combine_band_row n_head n_feat (Z.of_nat w, Z.of_nat w) (Z.of_nat w) ac_row bd_row
  = Ok (map (fun ab => score_div (score_add (fst ab) (Some (snd ab))) (s_d_k n_head n_feat))
            (combine ac_row bd_row)).
Proof.
  intros Hw Hac Hbd. unfold combine_band_row. cbn [fst snd].
  set (f := fun (a : @score num) (b : num) => score_add a (Some b)).
  rewrite (slice_update_total f); unfold Py.lower, Py.upper;
    rewrite ?slice_upto, ?clip_nonneg, ?length_firstn; try lia.
  cbn [bind firstn app]. rewrite Hac, Hbd.
  replace (Nat.min w (2 * w + 1)) with w by lia.
  set (r1 := map (fun ds => f (fst ds) (snd ds))
                 (combine (firstn w (skipn 0 ac_row)) (firstn w bd_row))
             ++ skipn w ac_row).
  assert (Hr1 : length r1 = 2 * w + 1).
  { unfold r1. rewrite length_app, length_map, length_combine, !length_firstn, !length_skipn.
    lia. }
  replace (- (Z.of_nat w + 1))%Z with (- Z.of_nat (w + 1))%Z by lia.
  rewrite (slice_update_total f); unfold Py.lower, Py.upper;
    rewrite ?slice_from, ?clip_neg, ?length_skipn, ?Hr1, ?Hbd; try lia.
  cbn [bind]. replace (2 * w + 1 - (w + 1)) with w by lia.
  replace (2 * w + 1 - w) with (w + 1) by lia.
  assert (Hpre : firstn w r1 = map (fun ds => f (fst ds) (snd ds))
                                   (combine (firstn w ac_row) (firstn w bd_row))).
  { unfold r1. simpl skipn. rewrite firstn_app, length_map, length_combine, !length_firstn.
    replace (w - Nat.min (Nat.min w (length ac_row)) (Nat.min w (length bd_row))) with 0 by lia.
    simpl firstn. rewrite app_nil_r. apply firstn_all2.
    rewrite length_map, length_combine, !length_firstn. lia. }
  assert (Hsuf : skipn w r1 = skipn w ac_row).
  { unfold r1. simpl skipn. rewrite skipn_app, length_map, length_combine, !length_firstn.
    replace (w - Nat.min (Nat.min w (length ac_row)) (Nat.min w (length bd_row))) with 0 by lia.
    simpl (skipn 0 _). rewrite skipn_all2; [reflexivity|].
    rewrite length_map, length_combine, !length_firstn. lia. }
  rewrite Hpre, Hsuf, (skipn_all2 r1) by lia.
  rewrite (firstn_all2 (skipn w ac_row)) by (rewrite length_skipn; lia).
  rewrite app_nil_r, <- map_app.
  assert (Hzip : combine (firstn w ac_row) (firstn w bd_row)
                 ++ combine (skipn w ac_row) (skipn w bd_row) = combine ac_row bd_row).
  { rewrite <- (combine_firstn ac_row bd_row w), <- (skipn_combine ac_row bd_row w).
    apply firstn_skipn. }
  rewrite Hzip, map_map.
  set (row := map _ (combine ac_row bd_row)).
  assert (Hrow : length row = 2 * w + 1).
  { unfold row. rewrite length_map, length_combine. lia. }
  assert (Hfill : forall lo hi,
             Py.upper (2 * w + 1) hi <= Py.lower (2 * w + 1) lo <= 2 * w + 1 ->
             Py.slice_fill lo hi (Some (lit (-10000))) row = row).
  { intros lo hi Hb. apply slice_fill_empty. rewrite <- Hrow in Hb. exact Hb. }
  rewrite (Hfill None), (Hfill (Some _) None); [reflexivity| |];
    unfold Py.lower, Py.upper, Py.clip;
    repeat match goal with |- context [Z.ltb ?x ?y] => destruct (Z.ltb_spec x y) end; lia.
Qed.

(** C6 at the window [left = 2], [right = 1] (so [w = 2]; the band columns
    [0..4] stand for the offsets [-2..2] and the positional columns [0..3]
    for the offsets [-2..1]).  The bias [b2] of offset [0] is added to band
    column [3], which stands for offset [+1]; band column [2], which stands
    for offset [0], receives no bias; the bias [b3] of offset [+1] goes to
    column [4], which the fill then overwrites. *)
Theorem band_bias_misplaced_for_asymmetric_window (a0 a1 a2 a3 a4 b0 b1 b2 b3 : num) :
  combine_band_row n_head n_feat (2, 1)%Z 2
    [Some a0; Some a1; Some a2; Some a3; Some a4] [b0; b1; b2; b3]
  = Ok [Some (div (add a0 b0) (s_d_k n_head n_feat));
        Some (div (add a1 b1) (s_d_k n_head n_feat));
        Some (div a2 (s_d_k n_head n_feat));
        Some (div (add a3 b2) (s_d_k n_head n_feat));
        Some (lit (-10000))].
Proof. reflexivity. Qed.
End BandCombination.

(** ** Banded against dense attention *)

Section BandedAgainstDense.
Import AsymmetricWindow.
Open Scope R_scope.

Lemma exp_bounds : 6 < exp 5 /\ 0 < exp (-10000) < 1.
Proof.
  split.
  - pose proof (exp_ineq1 5 ltac:(lra)). lra.
  - split; [apply exp_pos|]. rewrite <- exp_0. apply exp_increasing. lra.
Qed.

(** Rewrites the argument of an exponential to the integer it equals. *)
Ltac norm_exp v :=
  match goal with
  | |- context [exp ?x] =>
      lazymatch x with
      | IZR _ => fail
      | _ => replace x with (IZR v) by lra
      end
  end.

Ltac eval_forward := cbv -[Rplus Rmult Rdiv Rinv exp sqrt IZR]; reflexivity.

(** With [w = 1] the fourth block assignment of [sliding_chunks_matmul_qk]
    copies [diagonal_chunk_attn[:, 0, :0, 0:]], no row of three columns,
    into [diagonal_attn[:, 0, 1:1, 1:1]], no row of no column: the shapes do
    not fit and the product raises. *)
Remark window_of_one_raises (junk a b c d : R) :
  sliding_chunks_matmul_qk junk [[a]; [b]] [[c]; [d]] 1 0 = Raise RuntimeError.
Proof. reflexivity. Qed.

(** C1 at the window [left = 2], [right = 1] of [AsymmetricWindow].  Both
    forwards return, and they disagree on the first output entry: the dense
    engine masked to the band puts the weight [exp 5 / (exp 5 + 1 + 2 exp
    (-10000)) > 1/2] on frame [0] itself, whose offset-[0] bias is [5]; the
    banded forward adds that bias to the column of offset [+1] and leaves
    frame [0] the weight [1 / (1 + exp 5 + exp (-10000)) < 1/2]. *)
Theorem banded_forward_differs_on_asymmetric_window (junk : R) :
  exists out_banded out_dense a b,
    banded junk = (Ok out_banded, no_cache) /\
    dense = (Ok out_dense, no_cache) /\
    output_entry out_banded 0 0 0 = Some a /\
    output_entry out_dense 0 0 0 = Some b /\
    a < 1 / 2 /\ 1 / 2 < b /\
    out_banded <> out_dense.
Proof.
  assert (Hab : exists out_banded out_dense a b,
             banded junk = (Ok out_banded, no_cache) /\
             dense = (Ok out_dense, no_cache) /\
             output_entry out_banded 0 0 0 = Some a /\
             output_entry out_dense 0 0 0 = Some b /\
             a < 1 / 2 /\ 1 / 2 < b).
  { do 4 eexists.
    split; [eval_forward|]. split; [eval_forward|].
    split; [eval_forward|]. split; [eval_forward|].
    destruct exp_bounds as [H5 [Hm0 Hm1]].
    rewrite sqrt_1.
    repeat first [norm_exp 0%Z | norm_exp 5%Z | norm_exp (-10000)%Z].
    rewrite exp_0. split.
    - match goal with
      | |- ?e < _ => match e with context [Rdiv _ ?z] => set (den := z) end
      end.
      assert (Hden : 7 < den) by (unfold den; lra).
      unfold Rdiv. pose proof (Rinv_0_lt_compat den ltac:(lra)) as Hi.
      assert (Hid : / den * den = 1) by (apply Rinv_l; lra).
      set (i := / den) in *. clearbody i. nra.
    - match goal with
      | |- _ < ?e => match e with context [Rdiv _ ?z] => set (den := z) end
      end.
      assert (Hden : 0 < den) by (unfold den; lra).
      assert (Hden2 : den < 2 * exp 5 - 1) by (unfold den; lra).
      unfold Rdiv. pose proof (Rinv_0_lt_compat den ltac:(lra)) as Hi.
      assert (Hid : / den * den = 1) by (apply Rinv_l; lra).
      set (i := / den) in *. clearbody i. nra. }
  destruct Hab as [ob [od [a [b [H1 [H2 [H3 [H4 [H5 H6]]]]]]]]].
  exists ob, od, a, b. repeat split; try assumption.
  intros Heq. subst od. rewrite H3 in H4. injection H4 as ->. lra.
Qed.
End BandedAgainstDense.

(** ** Matrices by their entries *)

Lemma shaped_tabulate2 {A} (d : A) rows cols (m : list (list A)) :
  shaped rows cols m ->
  m = tabulate2 rows cols (fun r c => nth c (nth r m []) d).
Proof.
  intros [Hl Hf]. rewrite (tabulate_of_list [] m) at 1. rewrite Hl.
  apply tabulate_ext. intros r Hr.
  assert (Hrow : length (nth r m []) = cols).
  { rewrite Forall_forall in Hf. apply Hf. apply nth_In. lia. }
  rewrite (tabulate_of_list d (nth r m [])) at 1. now rewrite Hrow.
Qed.

Lemma tabulate2_shaped {A} rows cols (f : nat -> nat -> A) :
  shaped rows cols (tabulate2 rows cols f).
Proof.
  split; [apply tabulate_length|].
  apply Forall_forall. intros row Hin. unfold tabulate2, tabulate in Hin.
  apply in_map_iff in Hin. destruct Hin as [r [<- _]]. apply tabulate_length.
Qed.

Lemma entry_tabulate2 {A} rows cols (f : nat -> nat -> A) r c :
  r < rows -> c < cols -> entry (tabulate2 rows cols f) r c = Some (f r c).
Proof.
  intros Hr Hc. unfold entry, tabulate2. rewrite tabulate_nth_error by assumption.
  now apply tabulate_nth_error.
Qed.

Lemma nth_tabulate2 {A} rows cols (f : nat -> nat -> A) r c d :
  r < rows -> c < cols -> nth c (nth r (tabulate2 rows cols f) []) d = f r c.
Proof.
  intros Hr Hc. unfold tabulate2. rewrite tabulate_nth by assumption.
  now apply tabulate_nth.
Qed.

(** ** [_skew] and [_skew2] *)

Section SkewFacts.
Context {A : Type}.

Lemma pad_bottom_row rows cols (f : nat -> nat -> A) (pv : A) :
  0 < rows ->
  pad2 0 0 0 1 pv (tabulate2 rows cols f)
  = tabulate2 (rows + 1) cols (fun r c => if r <? rows then f r c else pv).
Proof. apply pad_bottom_tabulate. Qed.

Lemma skew_square n (f : nat -> nat -> A) (pv : A) :
  0 < n ->
  _skew (tabulate2 n n f) (0, 0, 0, 1) pv
  = tabulate2 n (n + 1)
      (fun r s => if r + s <? n then f r (r + s)
                  else if r + 1 <? n then f (r + 1) (r + s - n) else pv).
Proof.
  intros Hn. unfold _skew. rewrite pad_bottom_tabulate by lia.
  rewrite width_tabulate2 by lia. rewrite tabulate2_length.
  unfold tabulate2 at 1. rewrite tabulate_concat by lia.
  rewrite tabulate_view by lia.
  apply tabulate2_ext. intros r s Hr Hs.
  destruct (Nat.ltb_spec (r + s) n).
  - assert (E1 : (r * (n + 1) + s) / n = r)
      by (symmetry; apply Nat.div_unique with (r := r + s); lia).
    assert (E2 : (r * (n + 1) + s) mod n = r + s)
      by (symmetry; apply Nat.mod_unique with (q := r); lia).
    rewrite E1, E2. destruct (Nat.ltb_spec r n); [reflexivity|lia].
  - assert (E1 : (r * (n + 1) + s) / n = r + 1)
      by (symmetry; apply Nat.div_unique with (r := r + s - n); lia).
    assert (E2 : (r * (n + 1) + s) mod n = r + s - n)
      by (symmetry; apply Nat.mod_unique with (q := r + 1); lia).
    rewrite E1, E2. reflexivity.
Qed.

(** [_skew] with the padding [(0, 0, 0, 1)] on a square matrix turns
    diagonals into columns: column [s] of row [r] is the entry [s] places to
    the right of the diagonal; past the end of the row the reading goes on
    at the start of the next row, and in the last row it reaches the padding. *)
Theorem skew_reads_diagonals (n : nat) (x : list (list A)) (pv d : A) :
  0 < n -> shaped n n x ->
  _skew x (0, 0, 0, 1) pv
  = tabulate2 n (n + 1)
      (fun r s => if r + s <? n then nth (r + s) (nth r x []) d
                  else if r + 1 <? n then nth (r + s - n) (nth (r + 1) x []) d
                  else pv).
Proof.
  intros Hn Hs. rewrite (shaped_tabulate2 d Hs) at 1. now apply skew_square.
Qed.

Lemma pad_right_tabulate rows cols k (f : nat -> nat -> A) (pv : A) :
  0 < rows ->
  pad2 0 k 0 0 pv (tabulate2 rows cols f)
  = tabulate2 rows (cols + k) (fun r c => if c <? cols then f r c else pv).
Proof.
  intros Hr. unfold pad2. cbn [repeat app]. rewrite app_nil_r.
  unfold tabulate2. rewrite tabulate_map. apply tabulate_ext. intros r Hlt.
  cbn [repeat app]. rewrite tabulate_repeat, tabulate_app. reflexivity.
Qed.

Lemma skew2_tabulate M L (f : nat -> nat -> A) (pv : A) :
  0 < M -> 0 < L ->
  _skew2 (tabulate2 M L f) pv
  = tabulate2 M (M + L - 1)
      (fun r c => if (r <=? c) && (c <? r + L) then f r (c - r) else pv).
Proof.
  intros HM HL. unfold _skew2. rewrite tabulate2_length, width_tabulate2 by lia.
  rewrite pad_right_tabulate by lia.
  unfold tabulate2 at 1. rewrite tabulate_concat by lia.
  rewrite tabulate_slice, lower_none, upper_neg by lia.
  rewrite Nat.sub_0_r.
  rewrite tabulate_view by nia.
  unfold tabulate2. rewrite tabulate_map. apply tabulate_ext. intros r Hr.
  rewrite tabulate_slice, lower_none. change (-1)%Z with (- Z.of_nat 1)%Z.
  rewrite upper_neg by lia. rewrite Nat.sub_0_r.
  apply tabulate_ext. intros c Hc. simpl (0 + _).
  destruct (Nat.leb_spec r c).
  - assert (E1 : (r * (M + L) + c) / (L + (M + 1)) = r)
      by (symmetry; apply Nat.div_unique with (r := c - r); nia).
    assert (E2 : (r * (M + L) + c) mod (L + (M + 1)) = c - r)
      by (symmetry; apply Nat.mod_unique with (q := r); nia).
    rewrite E1, E2. cbn [andb].
    destruct (Nat.ltb_spec (c - r) L), (Nat.ltb_spec c (r + L)); try lia; reflexivity.
  - assert (E1 : (r * (M + L) + c) / (L + (M + 1)) = r - 1)
      by (symmetry; apply Nat.div_unique with (r := L + (M + 1) + c - r); nia).
    assert (E2 : (r * (M + L) + c) mod (L + (M + 1)) = L + (M + 1) + c - r)
      by (symmetry; apply Nat.mod_unique with (q := r - 1); nia).
    rewrite E1, E2. cbn [andb].
    destruct (Nat.ltb_spec (L + (M + 1) + c - r) L); [lia|reflexivity].
Qed.

(** [_skew2] shifts row [r] of a chunk by [r] places to the right: a chunk
    of [M] rows and [L] columns becomes one of [M + L - 1] columns, row [r]
    holding its entries in the columns [r .. r + L - 1] and the padding
    value elsewhere. *)
Theorem skew2_shifts_rows (M L : nat) (x : list (list A)) (pv d : A) :
  0 < M -> 0 < L -> shaped M L x ->
  _skew2 x pv
  = tabulate2 M (M + L - 1)
      (fun r c => if (r <=? c) && (c <? r + L) then nth (c - r) (nth r x []) d else pv).
Proof.
  intros HM HL Hs. rewrite (shaped_tabulate2 d Hs) at 1. now apply skew2_tabulate.
Qed.
End SkewFacts.

(** On a chunk of two rows. *)
Lemma skew_reads_diagonals_witness :
  _skew [[1; 2]; [3; 4]] (0, 0, 0, 1) 0 = [[1; 2; 3]; [4; 0; 0]].
Proof.
  rewrite (@skew_reads_diagonals nat 2 [[1; 2]; [3; 4]] 0 0).
  - reflexivity.
  - lia.
  - split; [reflexivity | repeat constructor].
Defined.

(** On a chunk of two rows and three columns. *)
Lemma skew2_shifts_rows_witness :
  _skew2 [[1; 2; 3]; [4; 5; 6]] 0 = [[1; 2; 3; 0]; [0; 4; 5; 6]].
Proof.
  rewrite (@skew2_shifts_rows nat 2 3 [[1; 2; 3]; [4; 5; 6]] 0 0).
  - reflexivity.
  - lia.
  - lia.
  - split; [reflexivity | repeat constructor].
Defined.

(** ** The band of [sliding_chunks_matmul_qk] on tensors *)

Lemma hd_nth {A} (l : list (list A)) : hd [] l = nth 0 l [].
Proof. now destruct l. Qed.

Lemma update_at_first_raises {A} n (f : nat -> A) F e :
  0 < n -> F (f 0) = Raise e -> update_at 0 F (tabulate n f) = Raise e.
Proof.
  intros Hn HF. unfold update_at. change (0 <? 0)%Z with false. cbv iota.
  simpl (Z.to_nat 0). rewrite tabulate_nth_error by lia. now rewrite HF.
Qed.

Section BandOnTensors.
Context {num : Type} `{Scalar num}.
Variable junk : num.

(** A window of one frame on each side cannot be used: on every input
    that passes the two assertions, the fourth slice assignment of
    [sliding_chunks_matmul_qk] copies a block of three columns into a block
    of none and raises. *)
Theorem sliding_chunks_matmul_qk_window_one_raises (n : nat) (q k : list (list num)) (pv : num) :
  1 <= n -> length q = 2 * n -> length k = 2 * n -> width k = width q ->
  sliding_chunks_matmul_qk junk q k 1 pv = Raise RuntimeError.
Proof.
  intros Hn Hq Hk Hwd.
  rewrite (tabulate_of_list [] q), (tabulate_of_list [] k), Hq, Hk.
  replace (2 * n) with (BandLayout.seqlen 1 n) by (unfold BandLayout.seqlen; lia).
  rewrite sliding_chunks_matmul_qk_steps; [|lia|lia|].
  2:{ unfold width in Hwd. now rewrite !hd_nth in Hwd. }
  rewrite update_at_first_raises with (e := RuntimeError); [reflexivity| |reflexivity].
  unfold BandLayout.chunks_count. lia.
Qed.

(** For a window [w >= 2] and [2 * w * n] frames, entry [(i, c)] of the
    band returned by [sliding_chunks_matmul_qk] is the product of query [i]
    with key [i + c - w], and [-inf] where no such key exists; neither the
    contents of the fresh buffer nor the padding value shows. *)
Theorem sliding_chunks_matmul_qk_reads_window (w n : nat) (q k : list (list num)) (pv : num) :
  2 <= w -> 1 <= n ->
  length q = 2 * w * n -> length k = 2 * w * n -> width k = width q ->
  sliding_chunks_matmul_qk junk q k w pv
  = Ok (tabulate2 (2 * w * n) (2 * w + 1)
          (fun i c => if (i + c <? w) || (2 * w * n + w <=? i + c) then None
                      else Some (dot (nth i q []) (nth (i + c - w) k [])))).
Proof.
  intros Hw Hn Hq Hk Hwd.
  rewrite (tabulate_of_list [] q) at 1. rewrite (tabulate_of_list [] k) at 1.
  rewrite Hq, Hk.
  pose proof (@sliding_chunks_matmul_qk_band num _ w n Hw Hn
                (fun i => nth i q []) (fun i => nth i k []) junk pv) as Hband.
  unfold BandLayout.seqlen, BandLayout.band_width in Hband.
  replace (2 * w + 1) with (w * 2 + 1) by lia. apply Hband.
  unfold width in Hwd. now rewrite !hd_nth in Hwd.
Qed.
End BandOnTensors.

(** Two frames of one feature and a window of one. *)
Lemma sliding_chunks_matmul_qk_window_one_raises_witness :
  sliding_chunks_matmul_qk 0%R [[1%R]; [1%R]] [[1%R]; [1%R]] 1 0%R = Raise RuntimeError.
Proof.
  apply (@sliding_chunks_matmul_qk_window_one_raises R _ 0%R 1); first [lia | reflexivity].
Defined.

(** Four frames of one feature and a window of two: the band has four rows
    of five columns, key [-1] of query [0] is missing, its key [1] is read. *)
Lemma sliding_chunks_matmul_qk_reads_window_witness :
  exists band,
    sliding_chunks_matmul_qk 7%R [[1%R]; [2%R]; [3%R]; [4%R]] [[1%R]; [2%R]; [3%R]; [4%R]] 2 0%R
    = Ok band /\ shaped 4 5 band /\ entry band 0 1 = Some None /\
    entry band 0 3 = Some (Some (dot [1%R] [2%R])).
Proof.
  eexists. split.
  - apply (@sliding_chunks_matmul_qk_reads_window R _ 7%R 2 1); first [lia | reflexivity].
  - split; [split; [reflexivity | repeat constructor] | split; reflexivity].
Defined.

(** ** The banded value product *)

Section PadRows.
Context {A : Type}.

Lemma pad_rows_tabulate rows cols t b (f : nat -> nat -> A) (pv : A) :
  0 < rows ->
  pad2 0 0 t b pv (tabulate2 rows cols f)
  = tabulate2 (t + rows + b) cols
      (fun r c => if (t <=? r) && (r <? t + rows) then f (r - t) c else pv).
Proof.
  intros Hr. unfold pad2. rewrite width_tabulate2 by lia. rewrite !Nat.add_0_r.
  assert (Hmid : map (fun row : list A => repeat pv 0 ++ row ++ repeat pv 0) (tabulate2 rows cols f)
                 = tabulate rows (fun r => tabulate cols (f r))).
  { unfold tabulate2. rewrite tabulate_map. apply tabulate_ext. intros r Hlt.
    simpl. now rewrite app_nil_r. }
  rewrite Hmid. rewrite !tabulate_repeat, !tabulate_app. unfold tabulate2.
  replace (t + (rows + b)) with (t + rows + b) by lia.
  apply tabulate_ext. intros r Hlt.
  destruct (Nat.ltb_spec r t), (Nat.leb_spec t r); cbn [andb]; try lia.
  - reflexivity.
  - destruct (Nat.ltb_spec (r - t) rows), (Nat.ltb_spec r (t + rows)); try lia; reflexivity.
Qed.
End PadRows.

Section Matmul.
Context {num : Type} `{Scalar num}.

Lemma column_tabulate2 rows cols (b : nat -> nat -> num) j :
  j < cols -> column j (tabulate2 rows cols b) = tabulate rows (fun e => b e j).
Proof.
  intros Hj. unfold column, tabulate2. rewrite tabulate_map.
  apply tabulate_ext. intros e He. now apply tabulate_nth.
Qed.

Lemma matmul_tabulate rows inner cols (a b : nat -> nat -> num) :
  0 < inner ->
  matmul (tabulate2 rows inner a) (tabulate2 inner cols b)
  = tabulate2 rows cols (fun x h => dot (tabulate inner (a x)) (tabulate inner (fun e => b e h))).
Proof.
  intros Hi. unfold matmul. rewrite width_tabulate2 by lia.
  unfold tabulate2 at 2 3. rewrite tabulate_map. apply tabulate_ext. intros x Hx.
  fold (tabulate cols (fun j => dot (tabulate inner (a x)) (column j (tabulate2 inner cols b)))).
  apply tabulate_ext. intros h Hh. now rewrite column_tabulate2.
Qed.
End Matmul.

Section ValueProduct.
Context {num : Type} `{Scalar num}.
Variables w m d : nat.
Hypothesis Hw : 1 <= w.
Hypothesis Hm : 1 <= m.
Variable P : nat -> nat -> num.
Variable V : nat -> nat -> num.

Lemma sliding_chunks_matmul_pv_tabulate :
  sliding_chunks_matmul_pv (tabulate2 (w * m) (2 * w + 1) P) (tabulate2 (w * m) d V) w
  = tabulate2 (w * m) d
      (fun i h =>
         dot (tabulate (3 * w)
                (fun e => if (i mod w <=? e) && (e <? i mod w + (2 * w + 1))
                          then P i (e - i mod w) else lit 0))
             (tabulate (3 * w)
                (fun e => if (w <=? i / w * w + e) && (i / w * w + e <? w + w * m)
                          then V (i / w * w + e - w) h else lit (-1)))).
Proof.
  unfold sliding_chunks_matmul_pv. rewrite !tabulate2_length.
  assert (Hdiv : w * m / w = m) by (rewrite Nat.mul_comm; apply Nat.div_mul; lia).
  rewrite Hdiv.
  unfold tabulate2 at 1. rewrite tabulate_view by lia.
  rewrite pad_rows_tabulate by nia.
  fold (tabulate (m - 1 + 1)
          (fun c => firstn (3 * w) (skipn (c * w)
             (tabulate2 (w + w * m + w) d
                (fun r c0 => if (w <=? r) && (r <? w + w * m) then V (r - w) c0 else lit (-1)))))).
  replace (m - 1 + 1) with m by lia.
  rewrite tabulate_map.
  assert (Hv : tabulate m
                 (fun c => firstn (3 * w) (skipn (c * w)
                    (tabulate2 (w + w * m + w) d
                       (fun r c0 => if (w <=? r) && (r <? w + w * m) then V (r - w) c0 else lit (-1)))))
               = tabulate m (fun c => tabulate2 (3 * w) d
                    (fun e h => if (w <=? c * w + e) && (c * w + e <? w + w * m)
                                then V (c * w + e - w) h else lit (-1)))).
  { apply tabulate_ext. intros c Hc. unfold tabulate2.
    rewrite tabulate_skipn, tabulate_firstn.
    replace (Nat.min (3 * w) (w + w * m + w - c * w)) with (3 * w) by nia.
    reflexivity. }
  rewrite Hv. clear Hv.
  rewrite tabulate_combine, tabulate_map. cbn [fst snd].
  transitivity
    (concat
       (tabulate m (fun c => tabulate w (fun r => tabulate d (fun h =>
          dot (tabulate (3 * w)
                 (fun e => if (r <=? e) && (e <? r + (2 * w + 1))
                           then P (c * w + r) (e - r) else lit 0))
              (tabulate (3 * w)
                 (fun e => if (w <=? c * w + e) && (c * w + e <? w + w * m)
                           then V (c * w + e - w) h else lit (-1)))))))).
  { f_equal. apply tabulate_ext. intros c Hc.
    change (tabulate w (fun j => tabulate (2 * w + 1) (P (c * w + j))))
      with (tabulate2 w (2 * w + 1) (fun j => P (c * w + j))).
    rewrite skew2_tabulate by lia.
    replace (w + (2 * w + 1) - 1) with (3 * w) by lia.
    rewrite matmul_tabulate by lia. reflexivity. }
  rewrite tabulate_concat by lia.
  replace (m * w) with (w * m) by lia.
  apply tabulate_ext. intros i Hi.
  pose proof (Nat.div_mod_eq i w) as Hdm.
  replace (i / w * w + i mod w) with i by lia. reflexivity.
Qed.
End ValueProduct.

Lemma tabulate_split {A} n k (f : nat -> A) :
  k <= n -> tabulate n f = tabulate k f ++ tabulate (n - k) (fun i => f (k + i)).
Proof.
  intros Hk. rewrite <- (firstn_skipn k (tabulate n f)) at 1.
  rewrite tabulate_firstn, tabulate_skipn. now replace (Nat.min k n) with k by lia.
Qed.

Section RealSums.
Open Scope R_scope.

Lemma sum_cons (x : R) (l : list R) : sum (x :: l) = x + sum l.
Proof. reflexivity. Qed.

Lemma sum_app (a b : list R) : sum (a ++ b) = sum a + sum b.
Proof.
  induction a as [|x a IH].
  - simpl app. change (sum (@nil R)) with 0. lra.
  - simpl app. rewrite !sum_cons, IH. lra.
Qed.

Lemma dot_cons (x y : R) (a b : list R) : dot (x :: a) (y :: b) = x * y + dot a b.
Proof. reflexivity. Qed.

Lemma dot_app (a1 a2 b1 b2 : list R) :
  length a1 = length b1 ->
  dot (a1 ++ a2) (b1 ++ b2) = dot a1 b1 + dot a2 b2.
Proof.
  revert b1. induction a1 as [|x a1 IH]; intros [|y b1] Hl; try discriminate.
  - simpl app. change (dot (@nil R) (@nil R)) with 0. lra.
  - simpl app. rewrite !dot_cons, IH by (simpl in Hl; lia). lra.
Qed.

Lemma dot_zeros (a b : list R) : Forall (fun x => x = 0) a -> dot a b = 0.
Proof.
  intros Ha. revert b. induction Ha as [|x a Hx Ha IH]; intros b; [reflexivity|].
  destruct b as [|y b]; [reflexivity|].
  rewrite dot_cons, IH, Hx. lra.
Qed.

Lemma tabulate_Forall {A} (Q : A -> Prop) n (f : nat -> A) :
  (forall i, (i < n)%nat -> Q (f i)) -> Forall Q (tabulate n f).
Proof.
  intros Hf. apply Forall_forall. intros x Hin. unfold tabulate in Hin.
  apply in_map_iff in Hin. destruct Hin as [i [<- Hi]]. apply in_seq in Hi. apply Hf. lia.
Qed.

(** A row that vanishes outside the window [[r, r + L)] sees only the
    entries of the other factor inside the window. *)
Lemma dot_window (r L N : nat) (p v : nat -> R) :
  (r + L <= N)%nat ->
  dot (tabulate N (fun e => if (r <=? e)%nat && (e <? r + L)%nat then p (e - r)%nat else 0))
      (tabulate N v)
  = dot (tabulate L p) (tabulate L (fun c => v (r + c)%nat)).
Proof.
  intros HN.
  rewrite (tabulate_split (k := r) (n := N)) by lia.
  rewrite (tabulate_split (k := r) (n := N) v) by lia.
  rewrite dot_app by now rewrite !tabulate_length.
  rewrite dot_zeros.
  2:{ apply tabulate_Forall. intros i Hi.
      destruct (Nat.leb_spec r i); [lia|reflexivity]. }
  rewrite (tabulate_split (k := L) (n := N - r)) by lia.
  rewrite (tabulate_split (k := L) (n := N - r) (fun i => v (r + i)%nat)) by lia.
  rewrite dot_app by now rewrite !tabulate_length.
  rewrite (dot_zeros (a := tabulate (N - r - L) _)).
  2:{ apply tabulate_Forall. intros i Hi.
      destruct (Nat.ltb_spec (r + (L + i)) (r + L)); [lia|].
      now rewrite andb_false_r. }
  rewrite Rplus_0_l, Rplus_0_r. f_equal.
  apply tabulate_ext. intros i Hi.
  destruct (Nat.leb_spec r (r + i)), (Nat.ltb_spec (r + i) (r + L)); try lia.
  cbn [andb]. f_equal. lia.
Qed.
End RealSums.

Section ValueProductReal.
Open Scope R_scope.

(** Over the reals the value product is the weighted sum over the window:
    row [i] of the context is the sum over the band columns [c] of
    [prob[i, c]] times the value frame [i + c - w], with [-1] standing for
    the frames before the first and after the last. *)
Theorem sliding_chunks_matmul_pv_weighted_window (w m d : nat) (prob v : list (list R)) :
  (1 <= w)%nat -> (1 <= m)%nat ->
  shaped (w * m) (2 * w + 1) prob -> shaped (w * m) d v ->
  sliding_chunks_matmul_pv prob v w
  = tabulate2 (w * m) d
      (fun i h =>
         dot (nth i prob [])
             (tabulate (2 * w + 1)
                (fun c => if (w <=? i + c)%nat && (i + c <? w + w * m)%nat
                          then nth h (nth (i + c - w) v []) 0 else -1))).
Proof.
  intros Hw Hm Hp Hv.
  rewrite (shaped_tabulate2 0 Hp) at 1. rewrite (shaped_tabulate2 0 Hv) at 1.
  rewrite sliding_chunks_matmul_pv_tabulate by assumption.
  apply tabulate2_ext. intros i h Hi Hh.
  pose proof (Nat.div_mod_eq i w) as Hdm.
  pose proof (Nat.mod_upper_bound i w ltac:(lia)) as Hr.
  cbn [lit real_scalar].
  rewrite (@dot_window (i mod w) (2 * w + 1)%nat (3 * w)%nat
             (fun c => nth c (nth i prob []) 0)) by lia.
  f_equal.
  - destruct Hp as [Hpl Hpf]. rewrite Forall_forall in Hpf.
    assert (Hrow : length (nth i prob []) = (2 * w + 1)%nat).
    { apply Hpf. apply nth_In. lia. }
    rewrite <- Hrow. symmetry. apply tabulate_of_list.
  - apply tabulate_ext. intros c Hc.
    replace (i / w * w + (i mod w + c))%nat with (i + c)%nat by lia.
    reflexivity.
Qed.
End ValueProductReal.

(** Two frames, a window of one. *)
Lemma sliding_chunks_matmul_pv_weighted_window_witness :
  sliding_chunks_matmul_pv [[1; 2; 3]; [4; 5; 6]]%R [[10]; [20]]%R 1
  = [[dot [1; 2; 3] [-1; 10; 20]]; [dot [4; 5; 6] [10; 20; -1]]]%R.
Proof.
  rewrite (@sliding_chunks_matmul_pv_weighted_window 1 2 1).
  - reflexivity.
  - lia.
  - lia.
  - split; [reflexivity | repeat constructor].
  - split; [reflexivity | repeat constructor].
Defined.

(** ** The masks of the band *)

(** [_get_invalid_locations_mask w] returns two masks of [w] rows and
    [w + 1] columns: the beginning mask is set at [(i, j)] exactly when
    [i + j < w], the ending mask exactly when [i + j >= w]. *)
Theorem invalid_locations_mask_entries (w : nat) :
  shaped w (w + 1) (fst (_get_invalid_locations_mask w)) /\
  shaped w (w + 1) (snd (_get_invalid_locations_mask w)) /\
  forall i j, i < w -> j < w + 1 ->
    entry (fst (_get_invalid_locations_mask w)) i j = Some (i + j <? w) /\
    entry (snd (_get_invalid_locations_mask w)) i j = Some (w <=? i + j).
Proof.
  rewrite invalid_locations_mask. cbn [fst snd].
  split; [apply tabulate2_shaped|]. split; [apply tabulate2_shaped|].
  intros i j Hi Hj. now rewrite !entry_tabulate2.
Qed.

Section MaskOnTensors.
Context {num : Type} `{Scalar num}.

(** [mask_invalid_locations] on a band of [T >= 2 * w] rows writes [-inf]
    at the entries [(i, c)] whose key index [i + c - w] lies before the
    first or after the last frame, and leaves every other entry as it was. *)
Theorem mask_invalid_locations_marks_missing_keys (w T : nat)
    (x : list (list (@score num))) :
  0 < w -> 2 * w <= T -> shaped T (2 * w + 1) x ->
  mask_invalid_locations x w
  = Ok (tabulate2 T (2 * w + 1)
          (fun i c => if (i + c <? w) || (T + w <=? i + c) then None
                      else nth c (nth i x []) None)).
Proof.
  intros Hw HT Hs. replace (2 * w + 1) with (w * 2 + 1) in * by lia.
  rewrite (shaped_tabulate2 None Hs) at 1.
  now apply mask_invalid_locations_tabulate.
Qed.
End MaskOnTensors.

(** A band of two rows for a window of one. *)
Lemma mask_invalid_locations_marks_missing_keys_witness :
  mask_invalid_locations (num := nat) [[Some 1; Some 2; Some 3]; [Some 4; Some 5; Some 6]] 1
  = Ok [[None; Some 2; Some 3]; [Some 4; Some 5; None]].
Proof.
  rewrite (@mask_invalid_locations_marks_missing_keys nat 1 2).
  - reflexivity.
  - lia.
  - lia.
  - split; [reflexivity | repeat constructor].
Defined.

(** ** What [update_cache] leaves alone *)

Lemma map_result_length {X Y} (f : X -> result Y) (l : list X) (r : list Y) :
  map_result f l = Ok r -> length r = length l.
Proof.
  revert r. induction l as [|x l IH]; intros r Hr; simpl in Hr.
  - now inversion Hr.
  - destruct (f x) as [y|e]; [|discriminate]. simpl in Hr.
    destruct (map_result f l) as [ys|e]; [|discriminate]. simpl in Hr.
    inversion Hr. simpl. f_equal. now apply IH.
Qed.

Lemma map_result_Forall2 {X Y} (Q : X -> Y -> Prop) (f : X -> result Y) (l : list X)
    (r : list Y) :
  (forall x y, In x l -> f x = Ok y -> Q x y) ->
  map_result f l = Ok r -> Forall2 Q l r.
Proof.
  revert r. induction l as [|x l IH]; intros r HQ Hr; simpl in Hr.
  - inversion Hr. constructor.
  - destruct (f x) as [y|e] eqn:Ex; [|discriminate]. simpl in Hr.
    destruct (map_result f l) as [ys|e]; [|discriminate]. simpl in Hr.
    inversion Hr. constructor.
    + apply HQ; [now left|assumption].
    + apply IH; [|reflexivity]. intros x' y' Hin. apply HQ. now right.
Qed.

Lemma broadcast_to_length {A} n (src s : list A) :
  Py.broadcast_to n src = Ok s -> length s = n.
Proof.
  unfold Py.broadcast_to. destruct (Nat.eqb_spec (length src) n) as [E|E].
  - intros Hs. inversion Hs. congruence.
  - destruct src as [|x [|y src]]; try discriminate.
    intros Hs. inversion Hs. apply repeat_length.
Qed.

Lemma slice_update_length {A B} (put : A -> B -> result A) lo hi (dst r : list A)
    (src : list B) :
  Py.slice_update put lo hi dst src = Ok r -> length r = length dst.
Proof.
  unfold Py.slice_update. cbv zeta.
  pose proof (upper_le (length dst) hi) as Hb.
  set (a := Py.lower (length dst) lo). set (b := Py.upper (length dst) hi) in *.
  destruct (Py.broadcast_to (b - a) src) as [s|e] eqn:Es; [|discriminate].
  cbn [bind].
  destruct (map_result _ _) as [mid|e] eqn:Em; [|discriminate].
  cbn [bind]. intros Hr. inversion Hr.
  apply map_result_length in Em. apply broadcast_to_length in Es.
  rewrite length_combine, length_firstn, length_skipn in Em.
  rewrite !length_app, length_firstn, length_skipn, Em, Es. lia.
Qed.

Lemma skipn_nth_error_cons {A} (l : list A) (i : nat) (x : A) :
  nth_error l i = Some x -> skipn i l = x :: skipn (S i) l.
Proof.
  revert l. induction i as [|i IH]; intros [|y l] H; simpl in *; try discriminate.
  - now inversion H.
  - now apply IH.
Qed.

Section CacheFrame.
Context {frame : Type}.
Local Abbreviation seqs := (@seqs frame).
Local Abbreviation cache_buf := (@cache_buf frame).

Lemma same_shape_refl (a : cache_buf) : same_shape a a.
Proof.
  unfold same_shape. induction a as [|s a IH]; constructor; [|assumption].
  induction s as [|x s IHs]; constructor; [reflexivity|assumption].
Qed.

Lemma same_shape_trans (a b c : cache_buf) :
  same_shape a b -> same_shape b c -> same_shape a c.
Proof.
  unfold same_shape. intros Hab. revert c.
  induction Hab as [|sa sb a b Hs Hab IH]; intros c Hbc; inversion Hbc; subst;
    constructor; [|now apply IH].
  clear - Hs H1. revert y H1.
  induction Hs as [|x y' sa sb Hx Hs IHs]; intros z Hz; inversion Hz; subst;
    constructor; [congruence|now apply IHs].
Qed.

Lemma write_slot_frame id lo hi (buf buf' : cache_buf) (src : seqs) :
  write_slot id lo hi buf src = Ok buf' ->
  same_shape buf buf' /\
  forall j, j <> id -> nth_error buf' j = nth_error buf j.
Proof.
  unfold write_slot. destruct (nth_error buf id) as [slot|] eqn:Es; [|discriminate].
  destruct (Py.broadcast_to (length slot) src) as [s|e] eqn:Eb; [|discriminate].
  cbn [bind].
  destruct (map_result _ _) as [slot'|e] eqn:Em; [|discriminate].
  cbn [bind]. intros Hr. inversion Hr. subst buf'. clear Hr.
  assert (Hid : id < length buf) by (apply nth_error_Some; congruence).
  apply broadcast_to_length in Eb.
  assert (Hss : Forall2 (fun x y : list frame => length x = length y) slot slot').
  { assert (HF : Forall2 (fun (ds : list frame * list frame) (y : list frame) =>
                            length (fst ds) = length y) (combine slot s) slot').
    { eapply map_result_Forall2; [|exact Em].
      intros ds y _ Hy. symmetry. eapply slice_update_length. exact Hy. }
    clear - HF Eb. revert s slot' HF Eb.
    induction slot as [|x slot IH]; intros [|y s] slot' HF Eb; simpl in *;
      try discriminate; inversion HF; subst; constructor.
    - assumption.
    - apply (IH s); [assumption|lia]. }
  split.
  - unfold same_shape, set_slot.
    rewrite <- (firstn_skipn id buf) at 1.
    apply Forall2_app; [apply same_shape_refl|].
    rewrite (skipn_nth_error_cons _ _ Es).
    constructor; [assumption|apply same_shape_refl].
  - intros j Hj. unfold set_slot.
    destruct (Nat.lt_ge_cases j id) as [Hlt|Hge].
    + rewrite nth_error_app1 by (rewrite length_firstn; lia).
      rewrite nth_error_firstn. destruct (Nat.ltb_spec j id); [reflexivity|lia].
    + rewrite nth_error_app2 by (rewrite length_firstn; lia).
      rewrite length_firstn, Nat.min_l by lia.
      replace (j - id) with (S (j - id - 1)) by lia. cbn [nth_error].
      rewrite nth_error_skipn. f_equal. lia.
Qed.

Variable _cache_id : nat.
Variable cache_drop_size : Z.

(** Of a next cache that is a tensor of its own, [update_cache] changes at
    most the slot [_cache_id], whatever else it is given and also when it
    raises, and it keeps the shape of the whole buffer: the other slots
    are read back as they were. *)
Theorem update_cache_changes_only_its_slot (key value query : seqs) (st : @buffers frame) :
  let st' := snd (update_cache _cache_id cache_drop_size key value query st) in
  match cache_next st, cache_next st' with
  | None, None => True
  | Some cn, Some cn' =>
      same_shape cn cn' /\
      forall j, j <> _cache_id -> nth_error cn' j = nth_error cn j
  | _, _ => False
  end.
Proof.
  unfold update_cache. destruct st as [c cn]. cbn [cache cache_next].
  assert (Hrefl : match cn, cn with
                  | None, None => True
                  | Some a, Some b => same_shape a b /\
                      forall j, j <> _cache_id -> nth_error b j = nth_error a j
                  | _, _ => False
                  end).
  { destruct cn; [split; [apply same_shape_refl|reflexivity]|exact I]. }
  destruct c as [c|]; [|exact Hrefl].
  destruct (nth_error c _cache_id) as [slot|]; [|exact Hrefl].
  destruct (cat_time slot key) as [kv|e]; [|exact Hrefl].
  destruct cn as [cn|]; [|exact Hrefl].
  destruct (write_slot _cache_id None _ cn _) as [cn1|e] eqn:E1; [|exact Hrefl].
  apply write_slot_frame in E1. destruct E1 as [S1 F1].
  destruct (write_slot _cache_id _ None cn1 _) as [cn2|e] eqn:E2;
    cbn [snd cache cache_next].
  - apply write_slot_frame in E2. destruct E2 as [S2 F2]. split.
    + now apply same_shape_trans with (b := cn1).
    + intros j Hj. now rewrite F2, F1.
  - now split.
Qed.
End CacheFrame.

(** ** The local forward and the streaming cache *)



Section ApplyLinear.
Context {num : Type} `{Scalar num}.
Variable n_feat : nat.

End ApplyLinear.

Section LocalForwardCache.
Context {num : Type} `{Scalar num}.
Variables n_head n_feat : nat.
Variables linear_q linear_k linear_v linear_out linear_pos : @vec num -> @vec num.
Variables pos_bias_u pos_bias_v : list (@vec num).
Variable att_context_size : Z * Z.
Variable _cache_id : nat.
Variable cache_drop_size : Z.
Variable junk : num.


Lemma view_batch_same (n : nat) (x : list (@mat num)) :
  length x = n -> view_batch n x = Ok x.
Proof. intros Hl. unfold view_batch. now rewrite Hl, Nat.eqb_refl. Qed.





End LocalForwardCache.


(** ** The relative shift with a cache *)

Section RelShiftStreaming.
Context {A : Type}.
Variable zero : A.

Lemma tl_tabulate {B} n (f : nat -> B) : tl (tabulate n f) = tabulate (n - 1) (fun i => f (S i)).
Proof.
  change (tl (tabulate n f)) with (skipn 1 (tabulate n f)).
  now rewrite tabulate_skipn.
Qed.

Lemma rel_shift_slice_tabulate (T P : nat) (f : nat -> nat -> A) :
  0 < T ->
  rel_shift_slice zero (tabulate2 T P f)
  = tabulate2 T P
      (fun i j => let g := T + i * P + j in
                  if g mod (P + 1) =? 0 then zero
                  else f (g / (P + 1)) (g mod (P + 1) - 1)).
Proof.
  intros HT. unfold rel_shift_slice, view_infer.
  rewrite tabulate2_length.
  assert (Hhd : length (hd [] (tabulate2 T P f)) = P) by now apply width_tabulate2.
  rewrite Hhd.
  assert (Hpad : map (cons zero) (tabulate2 T P f)
                 = tabulate T (fun r => tabulate (P + 1)
                      (fun c => if c =? 0 then zero else f r (c - 1)))).
  { unfold tabulate2. rewrite tabulate_map. apply tabulate_ext. intros r Hr.
    change (zero :: tabulate P (f r)) with (tabulate 1 (fun _ => zero) ++ tabulate P (f r)).
    rewrite tabulate_app. replace (1 + P) with (P + 1) by lia.
    apply tabulate_ext. intros c Hc.
    destruct (Nat.ltb_spec c 1), (Nat.eqb_spec c 0); try lia; reflexivity. }
  rewrite Hpad. rewrite tabulate_concat by lia. rewrite tabulate_length.
  replace (T * (P + 1) / T) with (P + 1) by (symmetry; rewrite Nat.mul_comm; apply Nat.div_mul; lia).
  rewrite tabulate_view by lia.
  rewrite tl_tabulate. replace (P + 1 - 1) with P by lia.
  rewrite tabulate_concat by lia.
  rewrite tabulate_view by lia.
  apply tabulate2_ext. intros i j Hi Hj. cbv zeta.
  pose proof (Nat.div_mod_eq (i * P + j) T) as Hdm.
  replace (S ((i * P + j) / T) * T + (i * P + j) mod T) with (T + i * P + j) by lia.
  reflexivity.
Qed.

(** One (batch, head) slice of [T] rows and [2 (T + c) - 1] columns after
    the shift and the truncation to [T + c] columns. *)
Lemma shifted_bd_slice_offsets (T c : nat) (raw : list (list A)) (d : A) :
  0 < T -> shaped T (2 * (T + c) - 1) raw ->
  shifted_bd_slice zero (T + c) raw
  = tabulate2 T (T + c) (fun i j => nth (j + (T - 1) - i) (nth i raw []) d).
Proof.
  intros HT Hs. unfold shifted_bd_slice.
  rewrite (shaped_tabulate2 d Hs) at 1.
  rewrite rel_shift_slice_tabulate by assumption.
  unfold tabulate2. rewrite tabulate_map. apply tabulate_ext. intros i Hi.
  rewrite tabulate_slice, lower_none, upper_nat, Nat.sub_0_r.
  replace (Nat.min (T + c) (2 * (T + c) - 1)) with (T + c) by lia.
  apply tabulate_ext. intros j Hj. cbv zeta. simpl (0 + j).
  set (P := 2 * (T + c) - 1).
  assert (E1 : (T + i * P + j) / (P + 1) = i)
    by (symmetry; apply Nat.div_unique with (r := T + j - i); unfold P; nia).
  assert (E2 : (T + i * P + j) mod (P + 1) = T + j - i)
    by (symmetry; apply Nat.mod_unique with (q := i); unfold P; nia).
  rewrite E1, E2. destruct (Nat.eqb_spec (T + j - i) 0); [lia|].
  f_equal. lia.
Qed.
End RelShiftStreaming.

(** ** The positional tables over several calls, and [forward] *)

Section TableInvariant.
Variable d_model : nat.
Hypothesis shapes_fit : PositionalEncoding.pe_shapes_fit d_model = true.

Lemma abs_table_nonpositive L : (L <= 0)%Z -> abs_table d_model L = [].
Proof.
  intros HL. apply length_zero_iff_nil. rewrite abs_table_length. lia.
Qed.

Lemma rel_table_nonpositive L : (L <= 0)%Z -> rel_table d_model L = [].
Proof.
  intros HL. apply length_zero_iff_nil. rewrite rel_table_length. lia.
Qed.

(** From here on [d_model] is not [0]. *)
Hypothesis nonzero : d_model <> 0.

Lemma abs_extend_step (M L : Z) :
  PositionalEncoding.extend_pe d_model L (Some (abs_table d_model M))
  = Ok (Some (abs_table d_model (Z.max M L))).
Proof.
  unfold PositionalEncoding.extend_pe. rewrite abs_table_length.
  destruct (Z.leb_spec L (Z.of_nat (Z.to_nat M))) as [Hle|Hgt].
  - do 2 f_equal. destruct (Z.le_gt_cases L M) as [H1|H1].
    + now rewrite Z.max_l by lia.
    + rewrite Z.max_r by lia. rewrite !abs_table_nonpositive; [reflexivity|lia|lia].
  - rewrite arange_up_ok by lia. cbn [bind].
    rewrite (@create_pe_ok d_model shapes_fit nonzero). cbn [bind].
    do 2 f_equal. now rewrite Z.max_r by lia.
Qed.

Lemma rel_extend_step (M L : Z) :
  RelPositionalEncoding.extend_pe d_model L (Some (rel_table d_model M))
  = Ok (Some (rel_table d_model (Z.max M L))).
Proof.
  unfold RelPositionalEncoding.extend_pe. cbv zeta. rewrite rel_table_length.
  destruct (Z.leb_spec (2 * L - 1) (Z.of_nat (Z.to_nat (2 * M - 1)))) as [Hle|Hgt].
  - do 2 f_equal. destruct (Z.le_gt_cases L M) as [H1|H1].
    + now rewrite Z.max_l by lia.
    + rewrite Z.max_r by lia. rewrite !rel_table_nonpositive; [reflexivity|lia|lia].
  - rewrite arange_down_ok by lia. cbn [bind].
    rewrite (@create_pe_ok d_model shapes_fit nonzero). cbn [bind].
    do 2 f_equal. now rewrite Z.max_r by lia.
Qed.

(** For a [d_model] that [create_pe] accepts, once the first call has built
    a table (a first length [>= 0] for the absolute, [>= 1] for the global
    relative encoding, below which [torch.arange] raises), whatever lengths
    are asked for afterwards and in whatever order, the table is the table
    of the largest length asked for so far: every row holds the encoding of
    its own position, no later call raises and none shrinks the table. *)
Theorem extend_pe_keeps_largest_table (L : Z) (lengths : list Z) :
  ((0 <= L)%Z ->
   extend_all (PositionalEncoding.extend_pe d_model) (L :: lengths) None
   = Ok (Some (abs_table d_model (fold_left Z.max lengths L)))) /\
  ((1 <= L)%Z ->
   extend_all (RelPositionalEncoding.extend_pe d_model) (L :: lengths) None
   = Ok (Some (rel_table d_model (fold_left Z.max lengths L)))).
Proof.
  split; intros HL; cbn [extend_all].
  - rewrite (@extend_pe_fresh d_model shapes_fit nonzero) by assumption. cbn [bind].
    clear HL. revert L. induction lengths as [|L' ls IH]; intros L; [reflexivity|].
    cbn [extend_all fold_left]. rewrite abs_extend_step. cbn [bind]. apply IH.
  - rewrite (@rel_extend_pe_fresh d_model shapes_fit nonzero) by assumption. cbn [bind].
    clear HL. revert L. induction lengths as [|L' ls IH]; intros L; [reflexivity|].
    cbn [extend_all fold_left]. rewrite rel_extend_step. cbn [bind]. apply IH.
Qed.
End TableInvariant.

(** Lengths [2], [3], [1] and [-4] in turn leave the tables of length [3]. *)
Lemma extend_pe_keeps_largest_table_witness :
  extend_all (PositionalEncoding.extend_pe 2) [2; 3; 1; -4]%Z None = Ok (Some (abs_table 2 3)) /\
  extend_all (RelPositionalEncoding.extend_pe 2) [2; 3; 1; -4]%Z None
  = Ok (Some (rel_table 2 3)).
Proof.
  destruct (@extend_pe_keeps_largest_table 2 eq_refl ltac:(discriminate) 2 [3; 1; -4]%Z)
    as [Habs Hrel].
  split; [apply Habs | apply Hrel]; lia.
Defined.

Section AbsoluteForward.
Variable d_model : nat.
Open Scope R_scope.

Lemma pe_row_length p : length (PositionalEncoding.pe_row d_model p) = d_model.
Proof. unfold PositionalEncoding.pe_row. now rewrite length_map, length_seq. Qed.

Lemma abs_table_prefix (L : Z) (T : nat) :
  (Z.of_nat T <= L)%Z ->
  Py.slice None (Some (Z.of_nat T)) (abs_table d_model L) = abs_table d_model (Z.of_nat T).
Proof.
  intros HT. rewrite slice_upto. unfold abs_table. rewrite !range_up, !firstn_map.
  rewrite firstn_seq_le by lia. now rewrite Nat2Z.id.
Qed.

Lemma abs_table_rows (L : Z) :
  Forall (fun row => length row = d_model) (abs_table d_model L).
Proof.
  unfold abs_table. apply Forall_map, Forall_forall. intros p _. apply pe_row_length.
Qed.

Lemma apply_xscale_shaped xscale (x : list (list (list R))) (T : nat) :
  Forall (shaped T d_model) x ->
  Forall (shaped T d_model) (PositionalEncoding.apply_xscale xscale x).
Proof.
  intros Hx. unfold PositionalEncoding.apply_xscale. destruct xscale as [s|]; [|assumption].
  destruct (Req_dec_T s 0); [assumption|].
  apply Forall_map. eapply Forall_impl; [|exact Hx].
  intros xb [Hl Hf]. split; [now rewrite length_map|].
  apply Forall_map. eapply Forall_impl; [|exact Hf]. intros row Hr. now rewrite length_map.
Qed.

Lemma time_len_shaped (x : list (list (list R))) (T : nat) :
  x <> [] -> Forall (shaped T d_model) x -> time_len x = T.
Proof.
  intros Hne Hx. destruct x as [|xb x]; [congruence|]. inversion Hx as [|? ? [Hl _] _].
  exact Hl.
Qed.

Lemma add_frames_fit (a b : list R) :
  length a = length b ->
  broadcast_zip (fun u v : R => Ok (u + v)) a b
  = Ok (map (fun uv => fst uv + snd uv) (combine a b)).
Proof.
  intros Hl. unfold broadcast_zip. rewrite Hl, Nat.eqb_refl.
  apply (map_result_total (fun uv : R * R => fst uv + snd uv)).
Qed.

Lemma add_rows_fit (xb t : list (list R)) (T : nat) :
  shaped T d_model xb -> shaped T d_model t ->
  broadcast_zip (broadcast_zip (fun u v : R => Ok (u + v))) xb t
  = Ok (map (fun fp => map (fun uv => fst uv + snd uv) (combine (fst fp) (snd fp)))
            (combine xb t)).
Proof.
  intros [Hxl Hxf] [Htl Htf]. unfold broadcast_zip at 1.
  rewrite Hxl, Htl, Nat.eqb_refl.
  apply map_result_ok. apply Forall_forall. intros [a b] Hin. cbn [fst snd].
  apply add_frames_fit.
  rewrite Forall_forall in Hxf, Htf.
  rewrite (Hxf a), (Htf b); [reflexivity| |].
  - eapply in_combine_r. exact Hin.
  - eapply in_combine_l. exact Hin.
Qed.

(** On a table that covers the input, [PositionalEncoding.forward] adds to
    frame [t] of every batch entry the encoding of position [t], feature by
    feature, after the optional scaling, and returns with it the encodings
    of the positions [0 .. T - 1]. *)
Theorem abs_forward_adds_position_rows (L : Z) (T : nat) xscale (x : list (list (list R))) :
  x <> [] -> Forall (shaped T d_model) x -> (Z.of_nat T <= L)%Z ->
  let pos_emb := abs_table d_model (Z.of_nat T) in
  PositionalEncoding.forward xscale x (Some (abs_table d_model L))
  = Ok (map (fun xb => map (fun fp => map (fun uv => fst uv + snd uv)
                                          (combine (fst fp) (snd fp)))
                           (combine xb pos_emb))
            (PositionalEncoding.apply_xscale xscale x),
        pos_emb) /\
  forall t, (t < T)%nat ->
    nth_error pos_emb t = Some (PositionalEncoding.pe_row d_model (Z.of_nat t)).
Proof.
  intros Hne Hx HT pos_emb. split.
  - unfold PositionalEncoding.forward.
    pose proof (apply_xscale_shaped xscale Hx) as Hxs.
    assert (Hne' : PositionalEncoding.apply_xscale xscale x <> []).
    { unfold PositionalEncoding.apply_xscale. destruct xscale as [s|]; [|assumption].
      destruct (Req_dec_T s 0); [assumption|]. destruct x; [congruence|discriminate]. }
    rewrite (time_len_shaped Hne' Hxs), abs_table_prefix by assumption.
    fold pos_emb.
    rewrite (map_result_ok _
               (fun xb => map (fun fp => map (fun uv => fst uv + snd uv)
                                             (combine (fst fp) (snd fp)))
                              (combine xb pos_emb))); [reflexivity|].
    eapply Forall_impl; [|exact Hxs]. intros xb Hxb.
    apply add_rows_fit with (T := T); [assumption|].
    split; [unfold pos_emb; rewrite abs_table_length; lia|apply abs_table_rows].
  - intros t Ht. unfold pos_emb.
    pose proof (@abs_lookup_table d_model (Z.of_nat T) (Z.of_nat t) ltac:(lia)) as Hl.
    unfold abs_lookup in Hl. destruct (Z.ltb_spec (Z.of_nat t) 0); [lia|].
    now rewrite Nat2Z.id in Hl.
Qed.
End AbsoluteForward.

(** Two frames against a table of three rows. *)
Lemma abs_forward_adds_position_rows_witness :
  exists out pos_emb,
    PositionalEncoding.forward None [[[1; 2]; [3; 4]]]%R (Some (abs_table 2 3))
    = Ok (out, pos_emb) /\
    nth_error pos_emb 1 = Some (PositionalEncoding.pe_row 2 1).
Proof.
  destruct (@abs_forward_adds_position_rows 2 3%Z 2 None [[[1; 2]; [3; 4]]]%R) as [Hf Hrows].
  - discriminate.
  - repeat constructor.
  - lia.
  - eexists. eexists. split; [exact Hf|]. apply (Hrows 1). lia.
Defined.

Lemma broadcast_zip_mismatch {X Y Z'} (f : X -> Y -> result Z') (xs : list X) (ys : list Y) :
  length xs <> length ys -> 2 <= length xs -> 2 <= length ys ->
  broadcast_zip f xs ys = Raise RuntimeError.
Proof.
  intros Hne Hx Hy. unfold broadcast_zip.
  destruct (Nat.eqb_spec (length xs) (length ys)); [contradiction|].
  destruct xs as [|x [|x' xs]]; simpl in Hx; try lia.
  destruct ys as [|y [|y' ys]]; simpl in Hy; try lia. reflexivity.
Qed.

Section ShortTables.
Variable d_model : nat.
Open Scope R_scope.

(** An input longer than the table is a shape error for the absolute
    encoding: with a table of [L >= 2] rows and [T > L] frames the sum
    [x + pos_emb] cannot be broadcast. *)
Theorem abs_forward_raises_on_short_table (L : Z) (T : nat) xscale
    (x : list (list (list R))) :
  x <> [] -> Forall (shaped T d_model) x -> (2 <= L < Z.of_nat T)%Z ->
  PositionalEncoding.forward xscale x (Some (abs_table d_model L))
  = Raise RuntimeError.
Proof.
  intros Hne Hx HL. unfold PositionalEncoding.forward.
  pose proof (apply_xscale_shaped xscale Hx) as Hxs.
  assert (Hne' : PositionalEncoding.apply_xscale xscale x <> []).
  { unfold PositionalEncoding.apply_xscale. destruct xscale as [s|]; [|assumption].
    destruct (Req_dec_T s 0); [assumption|]. destruct x; [congruence|discriminate]. }
  rewrite (time_len_shaped Hne' Hxs).
  rewrite slice_upto, firstn_all2 by (rewrite abs_table_length; lia).
  destruct (PositionalEncoding.apply_xscale xscale x) as [|xb xs]; [congruence|].
  inversion Hxs as [|? ? [Hl _] _]. subst.
  cbn [map_result]. rewrite broadcast_zip_mismatch; [reflexivity| | |];
    rewrite ?abs_table_length; lia.
Qed.

(** The global relative encoding does not check its table: when the input
    and the cache together are longer than the length [L] the table was
    built for, the start of the slice is negative and counts from the end
    of the table, so that [forward] returns, without an exception, only the
    last [min (2L - 1) (n - L)] rows of the table: fewer than the [2n - 1]
    rows of the window. *)
Theorem rel_forward_short_table_wraps (L : Z) xscale (x : list (list (list R)))
    (cache_len : Z) :
  (1 <= L)%Z -> (L < Z.of_nat (time_len x) + cache_len)%Z ->
  let n := (Z.of_nat (time_len x) + cache_len)%Z in
  let k := Z.to_nat (Z.min (2 * L - 1) (n - L)) in
  let pos_emb := skipn (Z.to_nat (2 * L - 1) - k) (rel_table d_model L) in
  RelPositionalEncoding.forward xscale x cache_len (Some (rel_table d_model L))
  = Ok (PositionalEncoding.apply_xscale xscale x, pos_emb) /\
  length pos_emb = k /\ (k < Z.to_nat (2 * n - 1))%nat.
Proof.
  intros HL Hn n k pos_emb. split; [|split].
  - unfold RelPositionalEncoding.forward. rewrite time_len_apply_xscale, rel_table_length.
    fold n. do 2 f_equal.
    replace (Z.of_nat (Z.to_nat (2 * L - 1)) / 2 + 1)%Z with L.
    2:{ rewrite Z2Nat.id by lia.
        rewrite <- (Z.div_unique (2 * L - 1) 2 (L - 1) 1); lia. }
    unfold pos_emb, Py.slice, Py.lower, Py.upper, Py.clip.
    rewrite rel_table_length.
    destruct (Z.ltb_spec (L - n) 0); [|lia].
    destruct (Z.ltb_spec (L + n - 1) 0); [lia|].
    replace (Z.to_nat (Z.max 0 (L - n + Z.of_nat (Z.to_nat (2 * L - 1)))))
      with (Z.to_nat (2 * L - 1) - k)%nat by (unfold k; lia).
    apply firstn_all2. rewrite length_skipn, rel_table_length. lia.
  - unfold pos_emb. rewrite length_skipn, rel_table_length. unfold k. lia.
  - unfold k. lia.
Qed.
End ShortTables.

(** Three frames against a table of two rows. *)
Lemma abs_forward_raises_on_short_table_witness :
  PositionalEncoding.forward None [[[1; 2]; [3; 4]; [5; 6]]]%R (Some (abs_table 2 2))
  = Raise RuntimeError.
Proof.
  apply (@abs_forward_raises_on_short_table 2 2%Z 3).
  - discriminate.
  - repeat constructor.
  - simpl. lia.
Defined.

(** Two frames against the table of one position: one row comes back where
    three are needed. *)
Lemma rel_forward_short_table_wraps_witness :
  exists pos_emb,
    RelPositionalEncoding.forward None [[[1; 2]; [3; 4]]]%R 0 (Some (rel_table 2 1))
    = Ok ([[[1; 2]; [3; 4]]]%R, pos_emb) /\
    length pos_emb = 1 /\ 1 < 3.
Proof.
  eexists.
  apply (@rel_forward_short_table_wraps 2 1%Z None [[[1; 2]; [3; 4]]]%R 0%Z).
  - lia.
  - unfold time_len. simpl. lia.
Defined.

Section Sinusoids.
Variable d_model : nat.
Open Scope R_scope.

Lemma range_even (stop : Z) :
  (0 <= stop)%Z ->
  range 0 stop 2 = map (fun i => (2 * Z.of_nat i)%Z) (seq 0 (Z.to_nat ((stop + 1) / 2))).
Proof.
  intros Hs. unfold range. change (0 <? 2)%Z with true. cbv iota.
  replace (stop - 0 + 2 - 1)%Z with (stop + 1)%Z by lia.
  apply map_ext. intros i. lia.
Qed.

Lemma div_term_entry (k : nat) :
  (2 * k < d_model)%nat ->
  nth k (PositionalEncoding.div_term d_model) 0
  = Rpower 10000 (- (2 * INR k) / INR d_model).
Proof.
  intros Hk. unfold PositionalEncoding.div_term. rewrite range_even by lia.
  rewrite map_map.
  assert (Hlen : (k < Z.to_nat ((Z.of_nat d_model + 1) / 2))%nat).
  { assert (Z.of_nat k + 1 <= (Z.of_nat d_model + 1) / 2)%Z; [|lia].
    apply Z.div_le_lower_bound; lia. }
  apply nth_error_nth. rewrite nth_error_map, nth_error_seq.
  destruct (Nat.ltb_spec k (Z.to_nat ((Z.of_nat d_model + 1) / 2))); [|lia].
  cbn [option_map]. f_equal. unfold Rpower. f_equal.
  rewrite mult_IZR, <- INR_IZR_INZ. simpl (IZR 2).
  assert (INR d_model <> 0) by (apply not_0_INR; lia).
  change (0 + k)%nat with k. generalize (ln 10000). intros l.
  field. assumption.
Qed.

Lemma pe_row_nth (p : Z) (c : nat) :
  (c < d_model)%nat ->
  nth c (PositionalEncoding.pe_row d_model p) 0
  = if Nat.even c
    then sin (IZR p * nth (c / 2) (PositionalEncoding.div_term d_model) 0)
    else cos (IZR p * nth (c / 2) (PositionalEncoding.div_term d_model) 0).
Proof.
  intros Hc. unfold PositionalEncoding.pe_row.
  apply nth_error_nth. rewrite nth_error_map, nth_error_seq.
  destruct (Nat.ltb_spec c d_model); [reflexivity|lia].
Qed.

(** The rows of every table are the sinusoids of the Transformer: with the
    frequency [w_k = 10000 ^ (- 2k / d_model)], the row of position [p]
    holds [sin (p * w_k)] in column [2k] and [cos (p * w_k)] in column
    [2k + 1]. *)
Theorem pe_row_sinusoids (p : Z) (k : nat) :
  let w := Rpower 10000 (- (2 * INR k) / INR d_model) in
  ((2 * k < d_model)%nat ->
   nth (2 * k) (PositionalEncoding.pe_row d_model p) 0 = sin (IZR p * w)) /\
  ((2 * k + 1 < d_model)%nat ->
   nth (2 * k + 1) (PositionalEncoding.pe_row d_model p) 0 = cos (IZR p * w)).
Proof.
  intros w. split; intros Hk.
  - rewrite pe_row_nth by lia.
    replace (Nat.even (2 * k)) with true by (symmetry; apply Nat.even_spec; now exists k).
    replace (2 * k / 2)%nat with k by (symmetry; rewrite Nat.mul_comm; apply Nat.div_mul; lia).
    now rewrite div_term_entry by lia.
  - rewrite pe_row_nth by lia.
    replace (Nat.even (2 * k + 1)) with false.
    2:{ symmetry. rewrite Nat.add_1_r, Nat.even_succ, <- Nat.negb_even.
        replace (Nat.even (2 * k)) with true by (symmetry; apply Nat.even_spec; now exists k).
        reflexivity. }
    replace ((2 * k + 1) / 2)%nat with k
      by (apply Nat.div_unique with (r := 1%nat); lia).
    now rewrite div_term_entry by lia.
Qed.

(** The table of relative positions is mirrored about its middle row: the
    row of position [0] alternates [0] and [1], and the row of [-p] is the
    row of [p] with the sines negated and the cosines kept. *)
Theorem pe_row_mirror (p : Z) :
  PositionalEncoding.pe_row d_model 0
  = map (fun c => if Nat.even c then 0 else 1) (seq 0 d_model) /\
  forall c, (c < d_model)%nat ->
    nth c (PositionalEncoding.pe_row d_model (- p)) 0
    = if Nat.even c then - nth c (PositionalEncoding.pe_row d_model p) 0
      else nth c (PositionalEncoding.pe_row d_model p) 0.
Proof.
  split.
  - unfold PositionalEncoding.pe_row. apply map_ext. intros c. cbv zeta.
    rewrite Rmult_0_l, sin_0, cos_0. reflexivity.
  - intros c Hc. rewrite !pe_row_nth by assumption.
    rewrite opp_IZR, Ropp_mult_distr_l_reverse.
    destruct (Nat.even c); [apply sin_neg|apply cos_neg].
Qed.
End Sinusoids.

(** ** Heads *)

Lemma concat_nils {A} n (f : nat -> list A) :
  (forall i, i < n -> f i = []) -> concat (tabulate n f) = [].
Proof.
  intros Hf. induction n as [|n IH]; [reflexivity|].
  rewrite (tabulate_split (k := n)) by lia. rewrite concat_app, IH by (intros; apply Hf; lia).
  replace (S n - n) with 1 by lia. cbn. rewrite Nat.add_0_r, Hf by lia. reflexivity.
Qed.

Lemma seq_tabulate {A} n (g : nat -> A) : map g (seq 0 n) = tabulate n g.
Proof. reflexivity. Qed.

Section Heads.
Context {num : Type} `{Scalar num}.

Lemma split_heads_tabulate (h d T : nat) (f : nat -> nat -> num) :
  split_heads h d (tabulate2 T (h * d) f)
  = tabulate h (fun head => tabulate2 T d (fun t j => f t (head * d + j))).
Proof.
  unfold split_heads. rewrite seq_tabulate. apply tabulate_ext. intros head Hh.
  unfold tabulate2. rewrite tabulate_map. apply tabulate_ext. intros t Ht.
  rewrite tabulate_view by lia. now rewrite tabulate_nth.
Qed.

Lemma merge_heads_tabulate (h d T : nat) (g : nat -> nat -> nat -> num) :
  1 <= h ->
  merge_heads (tabulate h (fun head => tabulate2 T d (g head)))
  = tabulate T (fun t => concat (tabulate h (fun head => tabulate d (g head t)))).
Proof.
  intros Hh. unfold merge_heads, width.
  rewrite hd_nth, tabulate_nth by lia. rewrite tabulate2_length.
  rewrite seq_tabulate. apply tabulate_ext. intros t Ht.
  f_equal. rewrite tabulate_map. apply tabulate_ext. intros head Hhd.
  unfold tabulate2. now rewrite tabulate_nth.
Qed.

(** The head split of [forward_qkv] hands head [k] the features
    [k * d_k .. (k + 1) * d_k - 1] of every frame, and the merge of
    [forward_attention] puts the heads back side by side: merging what was
    split gives the frames back. *)
Theorem split_heads_layout_and_merge (h d T : nat) (x : list (list num)) (z : num) :
  1 <= h -> shaped T (h * d) x ->
  split_heads h d x
  = tabulate h (fun head => tabulate2 T d (fun t j => nth (head * d + j) (nth t x []) z)) /\
  merge_heads (split_heads h d x) = x.
Proof.
  intros Hh Hs.
  rewrite (shaped_tabulate2 z Hs) at 1 2. rewrite split_heads_tabulate. split.
  - reflexivity.
  - rewrite merge_heads_tabulate by assumption.
    etransitivity; [|symmetry; exact (shaped_tabulate2 z Hs)]. unfold tabulate2.
    apply tabulate_ext. intros t Ht.
    destruct d as [|d].
    + rewrite Nat.mul_0_r. now apply concat_nils.
    + rewrite tabulate_concat by lia. apply tabulate_ext. intros i Hi.
      pose proof (Nat.div_mod_eq i (S d)). f_equal. lia.
Qed.
End Heads.

(** Two frames, two heads of width one. *)
Lemma split_heads_layout_and_merge_witness :
  split_heads 2 1 [[1; 2]; [3; 4]] = [[[1]; [3]]; [[2]; [4]]] /\
  merge_heads (split_heads 2 1 [[1; 2]; [3; 4]]) = [[1; 2]; [3; 4]].
Proof.
  apply (@split_heads_layout_and_merge nat 2 1 2 [[1; 2]; [3; 4]] 0).
  - lia.
  - repeat constructor.
Defined.

(** ** Attention weights and the context *)

Section Weights.
Open Scope R_scope.

Lemma sum_exp_pos (row : list R) : row <> [] -> 0 < sum (map exp row).
Proof.
  intros Hne. destruct row as [|s row]; [congruence|]. clear Hne.
  cbn [map]. rewrite sum_cons.
  assert (Hrest : 0 <= sum (map exp row)).
  { induction row as [|t row IH]; [cbn; lra|]. cbn [map]. rewrite sum_cons.
    pose proof (exp_pos t). lra. }
  pose proof (exp_pos s). lra.
Qed.

Lemma sum_map_div (z : R) (l : list R) :
  sum (map (fun x => x / z) l) = sum l / z.
Proof.
  induction l as [|x l IH].
  - cbn. unfold Rdiv. lra.
  - cbn [map]. rewrite !sum_cons, IH. unfold Rdiv. lra.
Qed.

Lemma sum_ge_entry (l : list R) (x : R) :
  Forall (fun y => 0 < y) l -> In x l -> x <= sum l.
Proof.
  intros Hpos Hin. induction Hpos as [|y l Hy Hl IH]; [contradiction|].
  rewrite sum_cons.
  assert (Hs : 0 <= sum l).
  { clear - Hl. induction Hl as [|u l Hu Hl IH]; [cbn; lra|]. rewrite sum_cons. lra. }
  destruct Hin as [->|Hin]; [lra|]. specialize (IH Hin). lra.
Qed.

(** Without a mask the attention weights of a non-empty row are a
    probability distribution in which every key takes part: each weight is
    strictly positive and at most [1], and the weights sum to [1]. *)
Theorem unmasked_softmax_is_distribution (row : list R) :
  row <> [] ->
  exists attn,
    attention_row row None = Ok attn /\
    length attn = length row /\
    Forall (fun a => 0 < a <= 1) attn /\
    sum attn = 1.
Proof.
  intros Hne. pose proof (sum_exp_pos Hne) as Hz.
  exists (map (fun x => x / sum (map exp row)) (map exp row)).
  assert (Hrun : attention_row row None
                 = Ok (map (fun x => x / sum (map exp row)) (map exp row))).
  { unfold attention_row, softmax. f_equal. rewrite !map_map. reflexivity. }
  split; [exact Hrun|]. split; [now rewrite !length_map|]. split.
  - apply Forall_map, Forall_forall. intros e He.
    assert (Hpos : Forall (fun y => 0 < y) (map exp row)).
    { apply Forall_map, Forall_forall. intros s _. apply exp_pos. }
    pose proof (@sum_ge_entry _ _ Hpos He) as Hle.
    assert (0 < e) by (rewrite Forall_forall in Hpos; now apply Hpos).
    split.
    + now apply Rdiv_lt_0_compat.
    + apply Rmult_le_reg_r with (r := sum (map exp row)); [assumption|].
      unfold Rdiv. rewrite Rmult_assoc, Rinv_l by lra. lra.
  - rewrite sum_map_div. unfold Rdiv. apply Rinv_r. lra.
Qed.
End Weights.

(** A row of two scores. *)
Lemma unmasked_softmax_is_distribution_witness :
  exists attn,
    attention_row [1; 2]%R None = Ok attn /\
    length attn = 2 /\ Forall (fun a => (0 < a <= 1)%R) attn /\ sum attn = 1%R.
Proof.
  apply (@unmasked_softmax_is_distribution [1; 2]%R). discriminate.
Defined.

(** ** Tensors of three and four axes by their entries *)

Lemma shaped3_tabulate {A} (z : A) a b c (x : list (list (list A))) :
  shaped3 a b c x ->
  x = tabulate a (fun i => tabulate2 b c (fun j k => nth k (nth j (nth i x []) []) z)).
Proof.
  intros [Hl Hf]. rewrite (tabulate_of_list [] x) at 1. rewrite Hl.
  apply tabulate_ext. intros i Hi. apply shaped_tabulate2.
  rewrite Forall_forall in Hf. apply Hf, nth_In. lia.
Qed.

Lemma shaped4_tabulate {A} (z : A) a b c d (x : list (list (list (list A)))) :
  shaped4 a b c d x ->
  x = tabulate a (fun i => tabulate b (fun j =>
        tabulate2 c d (fun k l => nth l (nth k (nth j (nth i x []) []) []) z))).
Proof.
  intros [Hl Hf]. rewrite (tabulate_of_list [] x) at 1. rewrite Hl.
  apply tabulate_ext. intros i Hi. apply shaped3_tabulate.
  rewrite Forall_forall in Hf. apply Hf, nth_In. lia.
Qed.

(** With [c] cached frames the raw content-position tensor has, for every
    batch entry and head, [T] rows and [2 (T + c) - 1] columns.  After
    [rel_shift] and the truncation to the [T + c] keys, entry [(i, j)] is
    [raw[i, j - i + (T - 1)]], the column of the offset [(c + i) - j] between
    query [i], which stands at position [c + i] of the stream, and key [j]. *)
Theorem rel_shift_with_cache {A} (zero d : A) (B Hd T c : nat)
    (raw : list (list (list (list A)))) :
  0 < T -> shaped4 B Hd T (2 * (T + c) - 1) raw ->
  shifted_bd zero (T + c) raw
  = tabulate B (fun b => tabulate Hd (fun h =>
      tabulate2 T (T + c)
        (fun i j => nth (j + (T - 1) - i) (nth i (nth h (nth b raw []) []) []) d))).
Proof.
  intros HT Hs. unfold shifted_bd, rel_shift.
  rewrite (shaped4_tabulate d Hs) at 1.
  rewrite !map_map, tabulate_map. apply tabulate_ext. intros b Hb.
  rewrite !map_map, tabulate_map. apply tabulate_ext. intros h Hh.
  etransitivity.
  { apply (@shifted_bd_slice_offsets _ zero T c _ d); [exact HT|].
    apply tabulate2_shaped. }
  apply tabulate2_ext. intros i j Hi Hj.
  rewrite nth_tabulate2 by lia. reflexivity.
Qed.

(** Two queries and one cached frame. *)
Lemma rel_shift_with_cache_witness :
  shifted_bd 0 3 [[[[1; 2; 3; 4; 5]; [6; 7; 8; 9; 10]]]] = [[[[2; 3; 4]; [6; 7; 8]]]].
Proof.
  etransitivity.
  - apply (@rel_shift_with_cache nat 0 0 1 1 2 1).
    + lia.
    + repeat constructor.
  - reflexivity.
Defined.

Lemma zip_broadcast_tabulate {X Y Z'} (F : X -> Y -> result Z') n
    (f : nat -> X) (g : nat -> Y) (h : nat -> Z') :
  (forall i, i < n -> F (f i) (g i) = Ok (h i)) ->
  zip_broadcast F (tabulate n f) (tabulate n g) = Ok (tabulate n h).
Proof.
  intros HF. unfold zip_broadcast. rewrite tabulate_length.
  rewrite broadcast_to_same by apply tabulate_length. cbn [bind].
  rewrite tabulate_combine. apply map_result_tabulate. intros i Hi. now apply HF.
Qed.

(** ** Masked value frames *)

Section MaskedValues.
Open Scope R_scope.
Variable n_feat : nat.
Variable linear_out : list R -> list R.

(** The weights of a row before the masked positions are zeroed again. *)
Local Abbreviation raw_weights m row :=
  (softmax (map Some (map (fun mx : bool * R => if fst mx then IZR (-10000) else snd mx)
                          (combine m row)))).

Lemma attention_row_masked_form (row : list R) (m : list bool) :
  length m = length row ->
  attention_row row (Some m)
  = Ok (map (fun mx : bool * R => if fst mx then 0 else snd mx)
            (combine m (raw_weights m row))).
Proof.
  intros Hl. unfold attention_row. cbn [lit real_scalar].
  rewrite masked_fill_fits by assumption. cbn [bind].
  rewrite masked_fill_fits; [reflexivity|].
  unfold softmax. rewrite !length_map, length_combine. lia.
Qed.

Lemma nth_column (v : list (list R)) (c j : nat) :
  (j < length v)%nat -> nth j (column c v) 0 = nth c (nth j v []) 0.
Proof.
  intros Hj. unfold column.
  rewrite (nth_indep _ 0 (nth c [] (lit 0))) by now rewrite length_map.
  now rewrite map_nth with (d := []).
Qed.

Lemma dot_masked_agree (m : list bool) (w u u' : list R) :
  length u = length u' ->
  (forall j, (j < length u)%nat -> nth j m true = false -> nth j u 0 = nth j u' 0) ->
  dot (map (fun mx : bool * R => if fst mx then 0 else snd mx) (combine m w)) u
  = dot (map (fun mx : bool * R => if fst mx then 0 else snd mx) (combine m w)) u'.
Proof.
  revert w u u'. induction m as [|b m IH]; intros w u u' Hl Hag; [reflexivity|].
  destruct w as [|x w]; [reflexivity|].
  destruct u as [|y u], u' as [|y' u']; try discriminate; [reflexivity|].
  cbn [combine map fst snd]. rewrite !dot_cons.
  rewrite (IH w u u').
  - destruct b; [lra|]. specialize (Hag 0%nat ltac:(simpl; lia) eq_refl). simpl in Hag.
    rewrite Hag. reflexivity.
  - simpl in Hl. lia.
  - intros j Hj Hm. apply (Hag (S j)); [simpl; lia|exact Hm].
Qed.

(** A value frame that no query may attend to does not reach the output:
    when two value tensors agree on every key frame that the mask leaves
    visible to at least one query of the same batch entry,
    [forward_attention] returns the same result for both. *)
Theorem masked_values_do_not_matter (B Hd T1 T2 D : nat)
    (scores value value' : list (list (list (list R))))
    (mask : list (list (list bool))) :
  (1 <= T2)%nat ->
  shaped4 B Hd T1 T2 scores -> shaped3 B T1 T2 mask ->
  shaped4 B Hd T2 D value -> shaped4 B Hd T2 D value' ->
  (forall b h i j, (b < B)%nat -> (h < Hd)%nat -> (i < T1)%nat -> (j < T2)%nat ->
     nth j (nth i (nth b mask []) []) true = false ->
     nth j (nth h (nth b value []) []) [] = nth j (nth h (nth b value' []) []) []) ->
  forward_attention n_feat linear_out value scores (Some mask)
  = forward_attention n_feat linear_out value' scores (Some mask).
Proof.
  intros HT2 Hs Hm Hv Hv' Hag.
  unfold forward_attention.
  set (attnrow := fun b h i =>
         map (fun mx : bool * R => if fst mx then 0 else snd mx)
             (combine (nth i (nth b mask []) [])
                      (raw_weights (nth i (nth b mask []) [])
                                   (nth i (nth h (nth b scores []) []) [])))).
  assert (Hattn : attention_weights scores (Some mask)
                  = Ok (tabulate B (fun b => tabulate Hd (fun h => tabulate T1 (attnrow b h))))).
  { unfold attention_weights.
    rewrite (tabulate_of_list [] scores) at 1. rewrite (tabulate_of_list [] mask) at 1.
    destruct Hs as [Hsl Hsf], Hm as [Hml Hmf]. rewrite Hsl, Hml.
    rewrite Forall_forall in Hsf, Hmf.
    apply zip_broadcast_tabulate. intros b Hb.
    destruct (Hsf (nth b scores [])) as [Hhl Hhf]; [apply nth_In; lia|].
    destruct (Hmf (nth b mask [])) as [Hrl Hrf]; [apply nth_In; lia|].
    rewrite Forall_forall in Hhf, Hrf.
    rewrite (tabulate_of_list [] (nth b scores [])) at 1. rewrite Hhl.
    apply map_result_tabulate. intros h Hh.
    destruct (Hhf (nth h (nth b scores []) [])) as [Hil Hif]; [apply nth_In; lia|].
    rewrite Forall_forall in Hif.
    rewrite (tabulate_of_list [] (nth h (nth b scores []) [])) at 1.
    rewrite (tabulate_of_list [] (nth b mask [])) at 1. rewrite Hil, Hrl.
    apply zip_broadcast_tabulate. intros i Hi.
    apply attention_row_masked_form.
    rewrite (Hrf (nth i (nth b mask []) [])), (Hif (nth i (nth h (nth b scores []) []) []));
      [reflexivity| |]; apply nth_In; lia. }
  rewrite Hattn. cbn [bind]. f_equal. f_equal.
  rewrite (tabulate_of_list [] value) at 1. rewrite (tabulate_of_list [] value') at 1.
  destruct Hv as [Hvl Hvf], Hv' as [Hvl' Hvf']. rewrite Hvl, Hvl'.
  rewrite Forall_forall in Hvf, Hvf'.
  rewrite !tabulate_combine, !tabulate_map. apply tabulate_ext. intros b Hb.
  cbn [fst snd].
  destruct (Hvf (nth b value [])) as [Hhl Hhf]; [apply nth_In; lia|].
  destruct (Hvf' (nth b value' [])) as [Hhl' Hhf']; [apply nth_In; lia|].
  rewrite Forall_forall in Hhf, Hhf'.
  rewrite (tabulate_of_list [] (nth b value [])) at 1.
  rewrite (tabulate_of_list [] (nth b value' [])) at 1. rewrite Hhl, Hhl'.
  rewrite !tabulate_combine, !tabulate_map. apply tabulate_ext. intros h Hh.
  cbn [fst snd].
  assert (Sv : shaped T2 D (nth h (nth b value []) [])) by (apply Hhf, nth_In; lia).
  assert (Sv' : shaped T2 D (nth h (nth b value' []) [])) by (apply Hhf', nth_In; lia).
  unfold matmul.
  assert (Wv : forall v : list (list R), shaped T2 D v -> width v = D).
  { intros v [Hl Hf]. unfold width. destruct v as [|r v]; [simpl in Hl; lia|].
    now inversion Hf. }
  rewrite (Wv _ Sv), (Wv _ Sv').
  apply map_ext_in. intros ra Hra. unfold tabulate in Hra. apply in_map_iff in Hra.
  destruct Hra as [i [<- Hi]]. apply in_seq in Hi.
  apply map_ext_in. intros c Hc. apply in_seq in Hc.
  apply dot_masked_agree.
  - unfold column. rewrite !length_map. destruct Sv as [Sl _], Sv' as [Sl' _]. congruence.
  - intros j Hj Hmj. unfold column in Hj. rewrite length_map in Hj.
    destruct Sv as [Sl Sf], Sv' as [Sl' Sf']. rewrite Sl in Hj.
    rewrite !nth_column by lia. f_equal.
    apply Hag with (i := i); (assumption || lia).
Qed.
End MaskedValues.

(** Two key frames, the second masked: its value may change. *)
Lemma masked_values_do_not_matter_witness :
  forward_attention 1 (fun x => x) [[[[1]; [2]]]]%R [[[[0; 0]]]]%R (Some [[[false; true]]])
  = forward_attention 1 (fun x => x) [[[[1]; [5]]]]%R [[[[0; 0]]]]%R (Some [[[false; true]]]).
Proof.
  apply (@masked_values_do_not_matter 1 (fun x => x) 1 1 1 2 1).
  - lia.
  - repeat constructor.
  - repeat constructor.
  - repeat constructor.
  - repeat constructor.
  - intros b h i j Hb Hh Hi Hj Hm.
    assert (b = 0) by lia. assert (h = 0) by lia. assert (i = 0) by lia. subst.
    destruct j as [|[|j]]; [reflexivity | discriminate Hm | lia].
Defined.

(** ** [forward] of [MultiHeadAttention] *)

Section LinearOnTables.
Context {num : Type} `{Scalar num}.
Variable n_feat : nat.

Lemma apply_linear_tabulate (f : @vec num -> @vec num) (B T : nat)
    (x : list (list (list num))) :
  shaped3 B T n_feat x ->
  apply_linear n_feat f x
  = Ok (tabulate B (fun b => tabulate T (fun t => f (nth t (nth b x []) [])))).
Proof.
  intros [Hl Hf]. unfold apply_linear. rewrite Forall_forall in Hf.
  rewrite (tabulate_of_list [] x) at 1. rewrite Hl.
  apply map_result_tabulate. intros b Hb.
  destruct (Hf (nth b x [])) as [Hbl Hbf]; [apply nth_In; lia|].
  rewrite Forall_forall in Hbf.
  rewrite (tabulate_of_list [] (nth b x [])) at 1. rewrite Hbl.
  apply map_result_tabulate. intros t Ht.
  rewrite (Hbf (nth t (nth b x []) [])) by (apply nth_In; lia).
  now rewrite Nat.eqb_refl.
Qed.

Lemma apply_linear_frames (f : @vec num -> @vec num) (B T : nat)
    (fr : nat -> nat -> @vec num) :
  (forall b t, b < B -> t < T -> length (fr b t) = n_feat) ->
  apply_linear n_feat f (tabulate B (fun b => tabulate T (fr b)))
  = Ok (tabulate B (fun b => tabulate T (fun t => f (fr b t)))).
Proof.
  intros Hl. unfold apply_linear.
  apply map_result_tabulate. intros b Hb.
  apply map_result_tabulate. intros t Ht.
  now rewrite Hl, Nat.eqb_refl.
Qed.
End LinearOnTables.

Lemma broadcast_zip_tabulate {X Y Z'} (F : X -> Y -> result Z') n
    (f : nat -> X) (g : nat -> Y) (h : nat -> Z') :
  (forall i, i < n -> F (f i) (g i) = Ok (h i)) ->
  broadcast_zip F (tabulate n f) (tabulate n g) = Ok (tabulate n h).
Proof.
  intros HF. unfold broadcast_zip. rewrite !tabulate_length, Nat.eqb_refl.
  rewrite tabulate_combine. apply map_result_tabulate. intros i Hi. now apply HF.
Qed.

Lemma concat_tabulate_length {A} (n d : nat) (g : nat -> nat -> A) :
  length (concat (tabulate n (fun k => tabulate d (g k)))) = n * d.
Proof.
  induction n as [|n IH]; [reflexivity|].
  rewrite (tabulate_split (k := n)) by lia. rewrite concat_app, length_app, IH.
  replace (S n - n) with 1 by lia. cbn. rewrite app_nil_r, Nat.add_0_r, tabulate_length. lia.
Qed.

Section AttentionFormula.
Context {num : Type} `{Scalar num}.
Variables n_head n_feat : nat.
Variables linear_q linear_k linear_v linear_out : @vec num -> @vec num.
Variable _cache_id : nat.
Variable cache_drop_size : Z.
Variable d : nat.
Hypothesis Hhead : 1 <= n_head.
Hypothesis Hfeat : n_feat = n_head * d.

Lemma d_k_eq : d_k n_head n_feat = d.
Proof. unfold d_k. rewrite Hfeat, Nat.mul_comm. apply Nat.div_mul. lia. Qed.

(** Head [h] of the projection [f] of frame [t] of batch entry [b]. *)
Local Abbreviation head_of f x b h t :=
  (tabulate d (fun c => nth (h * d + c) (f (nth t (nth b x []) [])) (lit 0))).

Lemma project_heads (f : @vec num -> @vec num) (B T : nat) (x : list (list (list num))) :
  (forall y, length y = n_feat -> length (f y) = n_feat) ->
  shaped3 B T n_feat x ->
  map (split_heads n_head (d_k n_head n_feat))
      (tabulate B (fun b => tabulate T (fun t => f (nth t (nth b x []) []))))
  = tabulate B (fun b => tabulate n_head (fun h => tabulate T (fun t => head_of f x b h t))).
Proof.
  intros Hlen [Hl Hf]. rewrite Forall_forall in Hf.
  rewrite tabulate_map. apply tabulate_ext. intros b Hb. rewrite d_k_eq.
  destruct (Hf (nth b x [])) as [Hbl Hbf]; [apply nth_In; lia|].
  rewrite Forall_forall in Hbf.
  assert (Hfr : tabulate T (fun t => f (nth t (nth b x []) []))
                = tabulate2 T (n_head * d)
                    (fun t c => nth c (f (nth t (nth b x []) [])) (lit 0))).
  { apply tabulate_ext. intros t Ht.
    rewrite (tabulate_of_list (lit 0) (f (nth t (nth b x []) []))) at 1.
    rewrite Hlen, Hfeat; [reflexivity|]. apply Hbf, nth_In. lia. }
  rewrite Hfr. apply split_heads_tabulate.
Qed.

(** [forward_attention] without a mask on tensors given by their entries:
    a softmax over the keys, the weighted sum of the value frames of each
    head, the heads side by side, and the output projection. *)
Lemma forward_attention_tabulate (B T1 T2 : nat)
    (sc : nat -> nat -> nat -> nat -> num) (ve : nat -> nat -> nat -> nat -> num) :
  1 <= T2 ->
  forward_attention n_feat linear_out
    (tabulate B (fun b => tabulate n_head (fun h => tabulate2 T2 d (ve b h))))
    (tabulate B (fun b => tabulate n_head (fun h => tabulate2 T1 T2 (sc b h))))
    None
  = Ok (tabulate B (fun b => tabulate T1 (fun i =>
          linear_out
            (concat (tabulate n_head (fun h => tabulate d (fun c =>
               dot (softmax (tabulate T2 (fun j => Some (sc b h i j))))
                   (tabulate T2 (fun j => ve b h j c))))))))).
Proof.
  intros HT2. unfold forward_attention, attention_weights. cbn [bind].
  set (W := fun b h i j => nth j (softmax (tabulate T2 (fun j0 => Some (sc b h i j0)))) (lit 0)).
  assert (Hattn :
    map (map (map (fun row : list num => softmax (map Some row))))
        (tabulate B (fun b => tabulate n_head (fun h => tabulate2 T1 T2 (sc b h))))
    = tabulate B (fun b => tabulate n_head (fun h => tabulate2 T1 T2 (W b h)))).
  { rewrite tabulate_map. apply tabulate_ext. intros b Hb.
    rewrite tabulate_map. apply tabulate_ext. intros h Hh.
    unfold tabulate2. rewrite tabulate_map. apply tabulate_ext. intros i Hi.
    rewrite tabulate_map.
    rewrite (tabulate_of_list (lit 0) (softmax (tabulate T2 (fun j => Some (sc b h i j))))) at 1.
    unfold softmax at 1. rewrite length_map, tabulate_length. reflexivity. }
  rewrite Hattn. clear Hattn.
  rewrite tabulate_combine, tabulate_map. cbn [fst snd].
  set (ctx := fun b h i c => dot (tabulate T2 (W b h i)) (tabulate T2 (fun j => ve b h j c))).
  match goal with
  | |- apply_linear _ _ ?x = _ =>
      assert (Hx : x = tabulate B (fun b => tabulate T1 (fun i =>
                         concat (tabulate n_head (fun h => tabulate d (ctx b h i))))))
  end.
  { rewrite tabulate_map. apply tabulate_ext. intros b Hb.
    rewrite <- (@merge_heads_tabulate _ n_head d T1 (ctx b)) by assumption. f_equal.
    rewrite tabulate_combine, tabulate_map. apply tabulate_ext. intros h Hh.
    cbn [fst snd]. apply matmul_tabulate. lia. }
  rewrite Hx. clear Hx.
  rewrite apply_linear_frames.
  2:{ intros b t Hb Ht. rewrite concat_tabulate_length. now rewrite Hfeat. }
  f_equal. apply tabulate_ext. intros b Hb. apply tabulate_ext. intros i Hi.
  f_equal. f_equal. apply tabulate_ext. intros h Hh. apply tabulate_ext. intros c Hcd.
  unfold ctx. f_equal. unfold W.
  symmetry. rewrite (tabulate_of_list (lit 0) (softmax _)) at 1.
  unfold softmax at 1. now rewrite length_map, tabulate_length.
Qed.

Section BaseForward.
Variables B T1 T2 : nat.
Hypothesis HT2 : 1 <= T2.
Variables query key value : list (list (list num)).
Hypothesis Hquery : shaped3 B T1 n_feat query.
Hypothesis Hkey : shaped3 B T2 n_feat key.
Hypothesis Hvalue : shaped3 B T2 n_feat value.
Hypothesis Hq : forall y, length y = n_feat -> length (linear_q y) = n_feat.
Hypothesis Hk : forall y, length y = n_feat -> length (linear_k y) = n_feat.
Hypothesis Hv : forall y, length y = n_feat -> length (linear_v y) = n_feat.

Local Abbreviation Qh := (fun b h t => head_of linear_q query b h t).
Local Abbreviation Kh := (fun b h t => head_of linear_k key b h t).

End BaseForward.
End AttentionFormula.


(** ** [forward] of [RelPositionMultiHeadAttention] *)

Lemma broadcast_to_one {A} n (g : nat -> A) :
  Py.broadcast_to n (tabulate 1 g) = Ok (tabulate n (fun _ => g 0)).
Proof.
  unfold Py.broadcast_to. change (tabulate 1 g) with [g 0]. cbn [length].
  destruct (Nat.eqb_spec 1 n) as [<-|Hn]; [reflexivity|].
  now rewrite tabulate_repeat.
Qed.

Lemma hd_tabulate {A} n (f : nat -> list A) : 0 < n -> hd [] (tabulate n f) = f 0.
Proof. intros Hn. rewrite hd_nth. now apply tabulate_nth. Qed.

Section RelativeFormula.
Context {num : Type} `{Scalar num}.
Variables n_head n_feat : nat.
Variables linear_q linear_k linear_v linear_out linear_pos : @vec num -> @vec num.
Variables pos_bias_u pos_bias_v : list (list num).
Variable _cache_id : nat.
Variable cache_drop_size : Z.
Variable d : nat.
Hypothesis Hhead : 1 <= n_head.
Hypothesis Hfeat : n_feat = n_head * d.

(** On a bias of the shape [(h, d_k)] of the heads nothing is broadcast:
    the bias of a head is added to each of its frames, entry by entry. *)
Lemma with_bias_tabulate (B T : nat) (qf : nat -> nat -> nat -> @vec num)
    (bias : list (list num)) :
  shaped n_head d bias ->
  (forall b h i, b < B -> h < n_head -> i < T -> length (qf b h i) = d) ->
  with_bias (tabulate B (fun b => tabulate n_head (fun h => tabulate T (qf b h)))) bias
  = Ok (tabulate B (fun b => tabulate n_head (fun h =>
          tabulate T (fun i => vec_add (qf b h i) (nth h bias []))))).
Proof.
  intros [Hl Hw] Hq. rewrite Forall_forall in Hw. unfold with_bias.
  apply map_result_tabulate. intros b Hb.
  rewrite (tabulate_of_list [] bias) at 1. rewrite Hl.
  apply broadcast_zip_tabulate. intros h Hh.
  apply map_result_tabulate. intros i Hi.
  unfold broadcast_zip.
  rewrite (Hq b h i) by assumption.
  rewrite (Hw (nth h bias [])) by (apply nth_In; rewrite Hl; exact Hh).
  rewrite Nat.eqb_refl. apply map_result_total.
Qed.

Variables B T c : nat.
Hypothesis HB : 1 <= B.
Hypothesis HT : 1 <= T.
Variables query key value : list (list (list num)).
Variable pos_emb : list (list (list num)).
Hypothesis Hquery : shaped3 B T n_feat query.
Hypothesis Hkey : shaped3 B (T + c) n_feat key.
Hypothesis Hvalue : shaped3 B (T + c) n_feat value.
Hypothesis Hpos : shaped3 1 (2 * (T + c) - 1) n_feat pos_emb.
Hypothesis Hq : forall y, length y = n_feat -> length (linear_q y) = n_feat.
Hypothesis Hk : forall y, length y = n_feat -> length (linear_k y) = n_feat.
Hypothesis Hv : forall y, length y = n_feat -> length (linear_v y) = n_feat.
Hypothesis Hp : forall y, length y = n_feat -> length (linear_pos y) = n_feat.
Hypothesis Hu : shaped n_head d pos_bias_u.
Hypothesis Hvb : shaped n_head d pos_bias_v.

Local Abbreviation head_of f x b h t :=
  (tabulate d (fun cc => nth (h * d + cc) (f (nth t (nth b x []) [])) (lit 0))).
Local Abbreviation Qh := (fun b h t => head_of linear_q query b h t).
Local Abbreviation Kh := (fun b h t => head_of linear_k key b h t).
Local Abbreviation Ph := (fun h t => head_of linear_pos pos_emb 0 h t).

(** Without a mask, on [T] query frames, [T + c] key and value frames and
    the [2 (T + c) - 1] positional rows of the offsets [T + c - 1] down to
    [-(T + c - 1)], [forward] of [RelPositionMultiHeadAttention] is the
    attention of Transformer-XL: the score of query [i] and key [j] is
    [((q_i + u) . k_j + (q_i + v) . p) / sqrt(d_k)] with [p] the projected
    positional row [j - i + (T - 1)], whose offset is [(c + i) - j]. *)
Theorem rel_forward_is_transformer_xl_attention (st : @buffers (@vec num)) :
  cache st = None ->
  RelPositionMultiHeadAttention.forward n_head n_feat
    linear_q linear_k linear_v linear_out linear_pos pos_bias_u pos_bias_v
    _cache_id cache_drop_size query key value None pos_emb st
  = (Ok (tabulate B (fun b => tabulate T (fun i =>
           linear_out
             (concat (tabulate n_head (fun h => tabulate d (fun cc =>
                dot (softmax (tabulate (T + c) (fun j =>
                        Some (div (add (dot (vec_add (Qh b h i) (nth h pos_bias_u []))
                                            (Kh b h j))
                                       (dot (vec_add (Qh b h i) (nth h pos_bias_v []))
                                            (Ph h (j + (T - 1) - i))))
                                  (s_d_k n_head n_feat)))))
                    (tabulate (T + c) (fun j =>
                        nth (h * d + cc) (linear_v (nth j (nth b value []) [])) (lit 0)))))))))),
     st).
Proof.
  intros Hc. unfold RelPositionMultiHeadAttention.forward, update_cache. rewrite Hc.
  unfold forward_qkv.
  rewrite (apply_linear_tabulate linear_q Hquery), (apply_linear_tabulate linear_k Hkey),
    (apply_linear_tabulate linear_v Hvalue).
  cbv zeta. cbn [bind].
  rewrite view_batch_same by (rewrite tabulate_length; symmetry; exact (proj1 Hquery)).
  cbn [bind].
  rewrite view_batch_same by (rewrite tabulate_length; symmetry; exact (proj1 Hquery)).
  cbn [bind].
  rewrite (project_heads d Hhead Hfeat linear_q Hq Hquery),
    (project_heads d Hhead Hfeat linear_k Hk Hkey),
    (project_heads d Hhead Hfeat linear_v Hv Hvalue).
  unfold project_pos. rewrite (apply_linear_tabulate linear_pos Hpos). cbn [bind].
  rewrite (project_heads d Hhead Hfeat linear_pos Hp Hpos).
  rewrite !with_bias_tabulate
    by first [assumption | intros; apply tabulate_length].
  cbn [bind].
  f_equal.
  set (P := 2 * (T + c) - 1).
  set (qu := fun b h i => vec_add (Qh b h i) (nth h pos_bias_u [])).
  set (qv := fun b h i => vec_add (Qh b h i) (nth h pos_bias_v [])).
  (* the raw content-position matrix *)
  match goal with
  | |- bind (matmul_pos ?q ?p) _ = _ =>
      assert (Hbd : matmul_pos q p
                    = Ok (tabulate B (fun b => tabulate n_head (fun h =>
                            tabulate2 T P (fun i r => dot (qv b h i) (Ph h r))))))
  end.
  { unfold matmul_pos, zip_broadcast. rewrite tabulate_length, broadcast_to_one.
    cbn [bind]. rewrite tabulate_combine. apply map_result_tabulate. intros b Hb.
    cbn [fst snd]. f_equal. rewrite tabulate_combine, tabulate_map.
    apply tabulate_ext. intros h Hh. cbn [fst snd]. apply matmul_nt_tabulate. }
  rewrite Hbd. cbn [bind]. clear Hbd.
  (* the content-content matrix *)
  match goal with
  | |- context [shifted_bd _ (width (hd [] (hd [] ?ac))) _] =>
      assert (Hac : ac = tabulate B (fun b => tabulate n_head (fun h =>
                           tabulate2 T (T + c) (fun i j => dot (qu b h i) (Kh b h j)))))
  end.
  { rewrite tabulate_combine, tabulate_map. apply tabulate_ext. intros b Hb.
    cbn [fst snd]. rewrite tabulate_combine, tabulate_map.
    apply tabulate_ext. intros h Hh. cbn [fst snd]. apply matmul_nt_tabulate. }
  rewrite Hac. clear Hac.
  rewrite !hd_tabulate by lia. rewrite width_tabulate2 by lia.
  (* the shift *)
  match goal with
  | |- context [shifted_bd ?z ?w ?bd] =>
      assert (Hsh : shifted_bd z w bd
                    = tabulate B (fun b => tabulate n_head (fun h =>
                        tabulate2 T (T + c)
                          (fun i j => dot (qv b h i) (Ph h (j + (T - 1) - i))))))
  end.
  { unfold shifted_bd, rel_shift. rewrite !map_map.
    rewrite tabulate_map. apply tabulate_ext. intros b Hb.
    rewrite !map_map. rewrite tabulate_map. apply tabulate_ext. intros h Hh.
    etransitivity.
    { apply (@shifted_bd_slice_offsets _ (lit 0) T c
               (tabulate2 T P (fun i r => dot (qv b h i) (Ph h r))) (lit 0)); [lia|].
      apply tabulate2_shaped. }
    apply tabulate2_ext. intros i j Hi Hj.
    rewrite nth_tabulate2 by (unfold P; lia). reflexivity. }
  rewrite Hsh. clear Hsh.
  (* the scores *)
  match goal with
  | |- forward_attention _ _ _ ?s None = _ =>
      assert (Hs : s = tabulate B (fun b => tabulate n_head (fun h =>
                         tabulate2 T (T + c)
                           (fun i j => div (add (dot (qu b h i) (Kh b h j))
                                                (dot (qv b h i) (Ph h (j + (T - 1) - i))))
                                           (s_d_k n_head n_feat)))))
  end.
  { rewrite tabulate_combine, tabulate_map. apply tabulate_ext. intros b Hb.
    cbn [fst snd]. rewrite tabulate_combine, tabulate_map.
    apply tabulate_ext. intros h Hh. cbn [fst snd]. unfold tabulate2.
    rewrite tabulate_combine, tabulate_map. apply tabulate_ext. intros i Hi.
    cbn [fst snd]. rewrite tabulate_combine, tabulate_map. reflexivity. }
  rewrite Hs. clear Hs.
  apply (@forward_attention_tabulate _ _ n_head n_feat linear_out d Hhead Hfeat B T (T + c)
           (fun b h i j => div (add (dot (qu b h i) (Kh b h j))
                                    (dot (qv b h i) (Ph h (j + (T - 1) - i))))
                               (s_d_k n_head n_feat))
           (fun b h j cc => nth (h * d + cc) (linear_v (nth j (nth b value []) [])) (lit 0))).
  lia.
Qed.
End RelativeFormula.

(** One head of width one, two queries, one cached frame and the five
    positional rows of the offsets [2 .. -2]. *)
Lemma rel_forward_is_transformer_xl_attention_witness :
  exists out,
    RelPositionMultiHeadAttention.forward 1 1 (fun x => x) (fun x => x) (fun x => x)
      (fun x => x) (fun x => x) [[0%R]] [[0%R]] 0 0%Z
      [[[1]; [2]]]%R [[[1]; [2]; [3]]]%R [[[4]; [5]; [6]]]%R None
      [[[1]; [2]; [3]; [4]; [5]]]%R (Buffers None None)
    = (Ok out, Buffers None None) /\ shaped3 1 2 1 out.
Proof.
  eexists. split.
  - apply (@rel_forward_is_transformer_xl_attention R _ 1 1 (fun x => x) (fun x => x)
             (fun x => x) (fun x => x) (fun x => x) [[0%R]] [[0%R]] 0 0%Z 1
             ltac:(lia) eq_refl 1 2 1).
    + lia.
    + lia.
    + repeat constructor.
    + repeat constructor.
    + repeat constructor.
    + repeat constructor.
    + intros y Hy. exact Hy.
    + intros y Hy. exact Hy.
    + intros y Hy. exact Hy.
    + intros y Hy. exact Hy.
    + repeat constructor.
    + repeat constructor.
    + reflexivity.
  - repeat constructor.
Defined.

(** ** The dense forwards with a cache *)

Section CachedForward.
Context {num : Type} `{Scalar num}.
Variables n_head n_feat : nat.
Variables linear_q linear_k linear_v linear_out linear_pos : @vec num -> @vec num.
Variables pos_bias_u pos_bias_v : list (@vec num).
Variable _cache_id : nat.
Variable cache_drop_size : Z.

(** With a cache and no next cache, the two dense forwards attend over the
    cached frames followed by the new key frames: the call returns what the
    call without a cache returns when both its key and its value are the
    frames of the slot followed by the key, batch entry by batch entry.  The
    value argument is not read, and the buffers are left as they were. *)
Theorem cached_forward_attends_over_cache_and_key
    (query key value : list (@mat num)) (mask : option (list (list (list bool))))
    (pos_emb : list (@mat num)) (st : @buffers (@vec num))
    (c : list (list (@mat num))) (slot : list (@mat num)) :
  cache st = Some c -> cache_next st = None ->
  nth_error c _cache_id = Some slot -> length key = length slot ->
  let kv := map (fun sk => fst sk ++ snd sk) (combine slot key) in
  MultiHeadAttention.forward n_head n_feat linear_q linear_k linear_v linear_out
    _cache_id cache_drop_size query key value mask st
  = (fst (MultiHeadAttention.forward n_head n_feat linear_q linear_k linear_v linear_out
            _cache_id cache_drop_size query kv kv mask (Buffers None None)), st) /\
  RelPositionMultiHeadAttention.forward n_head n_feat linear_q linear_k linear_v linear_out
    linear_pos pos_bias_u pos_bias_v _cache_id cache_drop_size query key value mask pos_emb st
  = (fst (RelPositionMultiHeadAttention.forward n_head n_feat linear_q linear_k linear_v
            linear_out linear_pos pos_bias_u pos_bias_v _cache_id cache_drop_size
            query kv kv mask pos_emb (Buffers None None)), st).
Proof.
  intros Hc Hn Hs Hl kv.
  unfold MultiHeadAttention.forward, RelPositionMultiHeadAttention.forward.
  rewrite (@update_cache_reads _ _cache_id cache_drop_size key value query st c slot Hc Hn Hs Hl).
  fold kv. unfold update_cache. cbn [cache fst]. split; reflexivity.
Qed.
End CachedForward.

(** One cached frame and one new frame. *)
Lemma cached_forward_attends_over_cache_and_key_witness :
  MultiHeadAttention.forward 1 1 (fun x => x) (fun x => x) (fun x => x) (fun x => x)
    0 0%Z [[[1%R]]] [[[2%R]]] [[[9%R]]] None (Buffers (Some [[[[3%R]]]]) None)
  = (fst (MultiHeadAttention.forward 1 1 (fun x => x) (fun x => x) (fun x => x) (fun x => x)
            0 0%Z [[[1%R]]] [[[3%R]; [2%R]]] [[[3%R]; [2%R]]] None (Buffers None None)),
     Buffers (Some [[[[3%R]]]]) None) /\
  RelPositionMultiHeadAttention.forward 1 1 (fun x => x) (fun x => x) (fun x => x) (fun x => x)
    (fun x => x) [[0%R]] [[0%R]] 0 0%Z [[[1%R]]] [[[2%R]]] [[[9%R]]] None
    [[[1%R]; [2%R]; [3%R]]] (Buffers (Some [[[[3%R]]]]) None)
  = (fst (RelPositionMultiHeadAttention.forward 1 1 (fun x => x) (fun x => x) (fun x => x)
            (fun x => x) (fun x => x) [[0%R]] [[0%R]] 0 0%Z [[[1%R]]]
            [[[3%R]; [2%R]]] [[[3%R]; [2%R]]] None [[[1%R]; [2%R]; [3%R]]]
            (Buffers None None)),
     Buffers (Some [[[[3%R]]]]) None).
Proof.
  apply (@cached_forward_attends_over_cache_and_key R _ 1 1 (fun x => x) (fun x => x)
           (fun x => x) (fun x => x) (fun x => x) [[0%R]] [[0%R]] 0 0%Z
           [[[1%R]]] [[[2%R]]] [[[9%R]]] None [[[1%R]; [2%R]; [3%R]]]
           (Buffers (Some [[[[3%R]]]]) None) [[[[3%R]]]] [[[3%R]]]);
    reflexivity.
Defined.

(** ** [forward] of [RelPositionMultiHeadAttentionLongformer] *)

(** The padding to the next multiple of [2 w]. *)
Lemma pad_len_blocks (w n T : nat) :
  1 <= w -> 2 * w * (n - 1) < T -> T <= 2 * w * n ->
  Z.to_nat ((2 * Z.of_nat w - Z.of_nat T mod (2 * Z.of_nat w)) mod (2 * Z.of_nat w))
  = 2 * w * n - T.
Proof.
  intros Hw Hlo Hhi.
  assert (Hn : 1 <= n) by (destruct n; [lia|lia]).
  destruct (Nat.eq_dec T (2 * w * n)) as [->|Hne].
  - replace (Z.of_nat (2 * w * n)) with (Z.of_nat n * (2 * Z.of_nat w))%Z by lia.
    rewrite Z.mod_mul by lia. rewrite Z.sub_0_r, Z.mod_same by lia. lia.
  - assert (Hm : (Z.of_nat T mod (2 * Z.of_nat w) = Z.of_nat T - 2 * Z.of_nat w * (Z.of_nat n - 1))%Z).
    { symmetry. apply Z.mod_unique with (q := (Z.of_nat n - 1)%Z); [left; nia | nia]. }
    rewrite Hm. rewrite Z.mod_small by nia. nia.
Qed.

Lemma masked_fill_single {A} (b : bool) (c : A) n (f : nat -> A) :
  masked_fill [b] c (tabulate n f) = Ok (tabulate n (fun j => if b then c else f j)).
Proof.
  unfold masked_fill. rewrite tabulate_length.
  change [b] with (tabulate 1 (fun _ => b)). rewrite broadcast_to_one. cbn [bind].
  now rewrite tabulate_combine, tabulate_map.
Qed.

Section ValueWindow.
Open Scope R_scope.

Lemma sliding_chunks_matmul_pv_window (w m d : nat) (P V : nat -> nat -> R) :
  (1 <= w)%nat -> (1 <= m)%nat ->
  sliding_chunks_matmul_pv (tabulate2 (w * m) (2 * w + 1) P) (tabulate2 (w * m) d V) w
  = tabulate2 (w * m) d
      (fun i h =>
         dot (tabulate (2 * w + 1) (P i))
             (tabulate (2 * w + 1)
                (fun c => if (w <=? i + c)%nat && (i + c <? w + w * m)%nat
                          then V (i + c - w)%nat h else -1))).
Proof.
  intros Hw Hm.
  rewrite sliding_chunks_matmul_pv_tabulate by assumption.
  apply tabulate2_ext. intros i h Hi Hh.
  pose proof (Nat.div_mod_eq i w) as Hdm.
  pose proof (Nat.mod_upper_bound i w ltac:(lia)) as Hr.
  cbn [lit real_scalar].
  rewrite (@dot_window (i mod w) (2 * w + 1)%nat (3 * w)%nat (P i)) by lia.
  f_equal. apply tabulate_ext. intros c Hc.
  replace (i / w * w + (i mod w + c))%nat with (i + c)%nat by lia.
  reflexivity.
Qed.
End ValueWindow.

Section PadTime.
Context {num : Type} `{Scalar num}.

Lemma pad_time_tabulate (B h T d pl : nat) (f : nat -> nat -> nat -> nat -> num) :
  0 < T ->
  pad_time pl (tabulate B (fun b => tabulate h (fun hd =>
                 tabulate T (fun t => tabulate d (f b hd t)))))
  = tabulate B (fun b => tabulate h (fun hd =>
      tabulate (T + pl) (fun t => tabulate d (fun c =>
        if t <? T then f b hd t c else lit 0)))).
Proof.
  intros HT. unfold pad_time. rewrite tabulate_map. apply tabulate_ext. intros b Hb.
  rewrite tabulate_map. apply tabulate_ext. intros hd Hhd.
  change (tabulate T (fun t => tabulate d (f b hd t))) with (tabulate2 T d (f b hd)).
  rewrite pad_rows_tabulate by assumption. cbn [Nat.add].
  apply tabulate2_ext. intros t c Ht Hcd. rewrite Nat.sub_0_r.
  destruct (Nat.ltb_spec t T); reflexivity.
Qed.
End PadTime.

Lemma pad_mask_tabulate (B T pl : nat) (pad_mask : list (list bool)) :
  shaped B T pad_mask ->
  map (fun m => m ++ repeat true pl) pad_mask
  = tabulate B (fun b => tabulate (T + pl)
      (fun t => if t <? T then nth t (nth b pad_mask []) true else true)).
Proof.
  intros [Hl Hf]. rewrite Forall_forall in Hf.
  rewrite (tabulate_of_list [] pad_mask) at 1. rewrite Hl, tabulate_map.
  apply tabulate_ext. intros b Hb.
  rewrite (tabulate_of_list true (nth b pad_mask [])) at 1.
  rewrite (Hf (nth b pad_mask [])) by (apply nth_In; lia).
  rewrite tabulate_repeat, tabulate_app. reflexivity.
Qed.

Section LocalFormula.
Open Scope R_scope.
Variables n_head n_feat : nat.
Variables linear_q linear_k linear_v linear_out linear_pos : list R -> list R.
Variables pos_bias_u pos_bias_v : list (list R).
Variable _cache_id : nat.
Variable cache_drop_size : Z.
Variable junk : R.
Variable d : nat.
Variables w n B T : nat.
Hypothesis Hhead : (1 <= n_head)%nat.
Hypothesis Hfeat : n_feat = (n_head * d)%nat.
Hypothesis Hw : (2 <= w)%nat.
Hypothesis HB : (1 <= B)%nat.
Hypothesis Hlo : (2 * w * (n - 1) < T)%nat.
Hypothesis Hhi : (T <= 2 * w * n)%nat.
Variables query key value : list (list (list R)).
Variable pos_emb : list (list (list R)).
Variable pad_mask : list (list bool).
Hypothesis Hquery : shaped3 B T n_feat query.
Hypothesis Hkey : shaped3 B T n_feat key.
Hypothesis Hvalue : shaped3 B T n_feat value.
Hypothesis Hpos : shaped3 1 (2 * w + 1) n_feat pos_emb.
Hypothesis Hmask : shaped B T pad_mask.
Hypothesis Hq : forall y, length y = n_feat -> length (linear_q y) = n_feat.
Hypothesis Hk : forall y, length y = n_feat -> length (linear_k y) = n_feat.
Hypothesis Hv : forall y, length y = n_feat -> length (linear_v y) = n_feat.
Hypothesis Hp : forall y, length y = n_feat -> length (linear_pos y) = n_feat.
Hypothesis Hu : shaped n_head d pos_bias_u.
Hypothesis Hvb : shaped n_head d pos_bias_v.

Local Abbreviation head_of f x b h t :=
  (tabulate d (fun cc => nth (h * d + cc) (f (nth t (nth b x []) [])) 0)).
Local Abbreviation padded_head_of f x b h t :=
  (tabulate d (fun cc => if (t <? T)%nat
                         then nth (h * d + cc) (f (nth t (nth b x []) [])) 0 else 0)).
Local Abbreviation Qh := (fun b h t => head_of linear_q query b h t).
Local Abbreviation Kp := (fun b h t => padded_head_of linear_k key b h t).
Local Abbreviation Ph := (fun h t => head_of linear_pos pos_emb 0%nat h t).
Local Abbreviation Mp := (fun b t => if (t <? T)%nat then nth t (nth b pad_mask []) true else true).

(** Without a cache, for a symmetric window [w >= 2] on each side and [T]
    frames, [n] being the number of blocks of [2 w] frames that hold them,
    the local forward computes attention over the window.  The weights of
    query [i] are the softmax over the [2 w + 1] columns [c] of the band,
    column [c] standing for the key [i + c - w]: its score is
    [((q_i + u) . k + (q_i + v) . p_c) / sqrt(d_k)] with [p_c] the projected
    positional row [c], plus [-10000] for a key that is padding, and [-inf]
    where the key lies before the first or after the last of the [2 w n]
    frames; the frames from [T] on are zero frames marked as padding.  A query
    that is padding has zero weights.  The context is the weighted sum of
    the value frames of the window, and neither the contents of the fresh
    buffer nor any frame outside the window shows. *)
Theorem local_forward_is_windowed_attention (st : @buffers (@vec R)) :
  cache st = None ->
  RelPositionMultiHeadAttentionLongformer.forward n_head n_feat
    linear_q linear_k linear_v linear_out linear_pos pos_bias_u pos_bias_v
    (Z.of_nat w, Z.of_nat w) _cache_id cache_drop_size junk
    query key value pad_mask pos_emb st
  = (Ok (tabulate B (fun b => tabulate T (fun i =>
           linear_out
             (concat (tabulate n_head (fun h => tabulate d (fun cc =>
                dot (if nth i (nth b pad_mask []) true
                     then tabulate (2 * w + 1) (fun _ => 0)
                     else softmax (tabulate (2 * w + 1) (fun c =>
                            if (i + c <? w)%nat || (2 * w * n + w <=? i + c)%nat then None
                            else Some ((dot (vec_add (Qh b h i) (nth h pos_bias_u []))
                                            (Kp b h (i + c - w)%nat)
                                        + dot (vec_add (Qh b h i) (nth h pos_bias_v []))
                                              (Ph h c))
                                       / s_d_k n_head n_feat
                                       + (if Mp b (i + c - w)%nat then -10000 else 0)))))
                    (tabulate (2 * w + 1) (fun c =>
                       if (w <=? i + c)%nat && (i + c <? w + 2 * w * n)%nat
                       then (if (i + c - w <? T)%nat
                             then nth (h * d + cc)
                                      (linear_v (nth (i + c - w) (nth b value []) [])) 0
                             else 0)
                       else -1))))))))),
     st).
Proof.
  intros Hc. unfold RelPositionMultiHeadAttentionLongformer.forward, update_cache. rewrite Hc.
  unfold forward_qkv.
  rewrite (apply_linear_tabulate linear_q Hquery), (apply_linear_tabulate linear_k Hkey),
    (apply_linear_tabulate linear_v Hvalue).
  cbv zeta. cbn [bind].
  rewrite view_batch_same by (rewrite tabulate_length; symmetry; exact (proj1 Hquery)).
  cbn [bind].
  rewrite view_batch_same by (rewrite tabulate_length; symmetry; exact (proj1 Hquery)).
  cbn [bind].
  rewrite (project_heads d Hhead Hfeat linear_q Hq Hquery),
    (project_heads d Hhead Hfeat linear_k Hk Hkey),
    (project_heads d Hhead Hfeat linear_v Hv Hvalue).
  f_equal.
  unfold frames_len. rewrite !hd_tabulate by lia. rewrite tabulate_length.
  cbn [fst snd]. rewrite Z.max_id.
  destruct (Z.leb_spec (Z.of_nat w) 0) as [Hbad|_]; [lia|].
  rewrite (@pad_len_blocks w n T) by lia. rewrite Nat2Z.id.
  assert (HT : (1 <= T)%nat) by lia.
  rewrite !pad_time_tabulate by lia.
  rewrite (pad_mask_tabulate (2 * w * n - T) Hmask).
  replace (T + (2 * w * n - T))%nat with (BandLayout.seqlen w n)
    by (unfold BandLayout.seqlen; lia).
  rewrite !(@with_bias_tabulate _ _ n_head d)
    by first [apply Hu | apply Hvb | intros; apply tabulate_length].
  cbn [bind].
  assert (Hn : (1 <= n)%nat) by (destruct n; lia).
  set (Tp := BandLayout.seqlen w n).
  set (Qp := fun b h i => tabulate d (fun c : nat =>
               if (i <? T)%nat then nth (h * d + c) (linear_q (nth i (nth b query []) [])) (lit 0)
               else lit 0)).
  set (qu := fun b h i => vec_add (Qp b h i) (nth h pos_bias_u [])).
  set (qv := fun b h i => vec_add (Qp b h i) (nth h pos_bias_v [])).
  set (oor := fun i c : nat => (i + c <? w)%nat || (Tp + w <=? i + c)%nat).
  set (C := (2 * w + 1)%nat).
  (* the content band *)
  match goal with
  | |- bind ?m _ = _ =>
      assert (Hac : m = Ok (tabulate B (fun b => tabulate n_head (fun h =>
                         tabulate2 Tp C (fun i c =>
                           if oor i c then None
                           else Some (dot (qu b h i) (Kp b h (i + c - w)%nat)))))))
  end.
  { rewrite tabulate_combine. apply map_result_tabulate. intros b Hb. cbn [fst snd].
    rewrite tabulate_combine. apply map_result_tabulate. intros h Hh. cbn [fst snd].
    unfold Tp, C. replace (2 * w + 1)%nat with (BandLayout.band_width w)
      by (unfold BandLayout.band_width; lia).
    apply sliding_chunks_matmul_qk_band; [lia|lia|].
    unfold qu, vec_add. rewrite length_map, length_combine. unfold Qp.
    rewrite !tabulate_length.
    destruct Hu as [_ Hbu]. rewrite Forall_forall in Hbu.
    rewrite (Hbu (nth h pos_bias_u [])); [lia|]. apply nth_In. destruct Hu. lia. }
  rewrite Hac. cbn [bind]. clear Hac.
  (* the positional band *)
  unfold project_pos. rewrite (apply_linear_tabulate linear_pos Hpos). cbn [bind].
  rewrite (project_heads d Hhead Hfeat linear_pos Hp Hpos).
  match goal with
  | |- bind ?m _ = _ =>
      assert (Hbd : m = Ok (tabulate B (fun b => tabulate n_head (fun h =>
                         tabulate2 Tp C (fun i r => dot (qv b h i) (Ph h r))))))
  end.
  { unfold matmul_pos, zip_broadcast. rewrite tabulate_length, broadcast_to_one.
    cbn [bind]. rewrite tabulate_combine. apply map_result_tabulate. intros b Hb.
    cbn [fst snd]. f_equal. rewrite tabulate_combine, tabulate_map.
    apply tabulate_ext. intros h Hh. cbn [fst snd]. apply matmul_nt_tabulate. }
  rewrite Hbd. cbn [bind]. clear Hbd.
  (* the two bands together *)
  set (S1 := fun b h i c =>
               score_div (score_add (if oor i c then None
                                     else Some (dot (qu b h i) (Kp b h (i + c - w)%nat)))
                                    (Some (dot (qv b h i) (Ph h c))))
                         (s_d_k n_head n_feat)).
  match goal with
  | |- bind ?m _ = _ =>
      assert (Hsc : m = Ok (tabulate B (fun b => tabulate n_head (fun h =>
                         tabulate2 Tp C (S1 b h)))))
  end.
  { rewrite tabulate_combine. apply map_result_tabulate. intros b Hb. cbn [fst snd].
    rewrite tabulate_combine. apply map_result_tabulate. intros h Hh. cbn [fst snd].
    unfold tabulate2. rewrite tabulate_combine. apply map_result_tabulate. intros i Hi.
    cbn [fst snd].
    rewrite band_bias_aligned_for_symmetric_window
      by (rewrite ?tabulate_length; unfold C; lia).
    f_equal. rewrite tabulate_combine, tabulate_map. reflexivity. }
  rewrite Hsc. cbn [bind]. clear Hsc.
  (* the band of the padding mask *)
  set (Dm := fun b i c =>
               if oor i c then None
               else Some (dot [lit 1] [if Mp b (i + c - w)%nat then lit (-10000) else lit 0])).
  match goal with
  | |- bind ?m _ = _ =>
      assert (Hdm : m = Ok (tabulate B (fun b => tabulate2 Tp C (Dm b))))
  end.
  { rewrite !tabulate_map, tabulate_combine. apply map_result_tabulate. intros b Hb.
    cbn [fst snd]. rewrite !tabulate_map.
    unfold Tp, C. replace (2 * w + 1)%nat with (BandLayout.band_width w)
      by (unfold BandLayout.band_width; lia).
    apply (@sliding_chunks_matmul_qk_band R _ w n Hw Hn (fun _ => [lit 1])
             (fun t => [if Mp b t then lit (-10000) else lit 0]) junk (lit 0)).
    reflexivity. }
  rewrite Hdm. cbn [bind]. clear Hdm.
  set (S2 := fun b h i c => score_add (S1 b h i c) (Dm b i c)).
  match goal with
  | |- bind (map_result _ (combine ?sc _)) _ = _ =>
      assert (Hs2 : sc = tabulate B (fun b => tabulate n_head (fun h =>
                           tabulate2 Tp C (S2 b h))))
  end.
  { rewrite tabulate_combine, tabulate_map. apply tabulate_ext. intros b Hb.
    cbn [fst snd]. rewrite tabulate_map. apply tabulate_ext. intros h Hh.
    unfold tabulate2. rewrite tabulate_combine, tabulate_map.
    apply tabulate_ext. intros i Hi. cbn [fst snd].
    rewrite tabulate_combine, tabulate_map. reflexivity. }
  rewrite Hs2. clear Hs2.
  (* the weights *)
  set (Aw := fun b h i c =>
               if Mp b i then lit 0
               else nth c (softmax (tabulate C (S2 b h i))) (lit 0)).
  match goal with
  | |- bind ?m _ = _ =>
      assert (Hat : m = Ok (tabulate B (fun b => tabulate n_head (fun h =>
                         tabulate2 Tp C (Aw b h)))))
  end.
  { rewrite tabulate_combine. apply map_result_tabulate. intros b Hb. cbn [fst snd].
    apply map_result_tabulate. intros h Hh.
    unfold tabulate2. rewrite tabulate_combine. apply map_result_tabulate. intros i Hi.
    cbn [fst snd].
    rewrite (tabulate_of_list (lit 0) (softmax (tabulate C (S2 b h i)))) at 1.
    unfold softmax at 1. rewrite length_map, tabulate_length.
    rewrite masked_fill_single. reflexivity. }
  rewrite Hat. cbn [bind]. clear Hat.
  (* the value product *)
  set (Vp := fun b h t c =>
               if (t <? T)%nat
               then nth (h * d + c) (linear_v (nth t (nth b value []) [])) (lit 0)
               else lit 0).
  set (ctx := fun b h i cc =>
                dot (tabulate C (Aw b h i))
                    (tabulate C (fun c => if (w <=? i + c)%nat && (i + c <? w + Tp)%nat
                                          then Vp b h (i + c - w)%nat cc else -1))).
  match goal with
  | |- apply_linear _ _ ?x = _ =>
      assert (Hx : x = tabulate B (fun b => tabulate T (fun i =>
                         concat (tabulate n_head (fun h => tabulate d (ctx b h i))))))
  end.
  { rewrite tabulate_combine, !tabulate_map. apply tabulate_ext. intros b Hb.
    cbn [fst snd]. rewrite tabulate_combine, tabulate_map.
    assert (Hpv : tabulate n_head
                    (fun h => sliding_chunks_matmul_pv
                                (tabulate2 Tp C (Aw b h))
                                (tabulate Tp (fun t => tabulate d (Vp b h t))) w)
                  = tabulate n_head (fun h => tabulate2 Tp d (ctx b h))).
    { apply tabulate_ext. intros h Hh.
      change (tabulate Tp (fun t => tabulate d (Vp b h t))) with (tabulate2 Tp d (Vp b h)).
      unfold ctx, Tp, C, BandLayout.seqlen.
      replace (2 * w * n)%nat with (w * (2 * n))%nat by lia.
      apply sliding_chunks_matmul_pv_window; lia. }
    etransitivity; [apply f_equal, f_equal; exact Hpv|].
    rewrite merge_heads_tabulate by assumption.
    rewrite tabulate_slice, lower_none, upper_nat, Nat.sub_0_r.
    replace (Nat.min T Tp) with T by (unfold Tp, BandLayout.seqlen; lia).
    reflexivity. }
  rewrite Hx. clear Hx.
  rewrite apply_linear_frames.
  2:{ intros b t Hb Ht. rewrite concat_tabulate_length. now rewrite Hfeat. }
  f_equal. apply tabulate_ext. intros b Hb. apply tabulate_ext. intros i Hi.
  f_equal. f_equal. apply tabulate_ext. intros h Hh. apply tabulate_ext. intros cc Hcd.
  unfold ctx. f_equal.
  unfold Aw. destruct (Nat.ltb_spec i T) as [_|Hge]; [|lia].
  destruct (nth i (nth b pad_mask []) true); [reflexivity|].
  assert (Hrow : tabulate C (S2 b h i)
                 = tabulate C (fun c =>
                     if (i + c <? w)%nat || (2 * w * n + w <=? i + c)%nat then None
                     else Some ((dot (vec_add (Qh b h i) (nth h pos_bias_u []))
                                     (Kp b h (i + c - w)%nat)
                                 + dot (vec_add (Qh b h i) (nth h pos_bias_v [])) (Ph h c))
                                / s_d_k n_head n_feat
                                + (if Mp b (i + c - w)%nat then -10000 else 0)))).
  { apply tabulate_ext. intros c Hcc. unfold S2, S1, Dm, oor, Tp, BandLayout.seqlen.
    destruct ((i + c <? w)%nat || (2 * w * n + w <=? i + c)%nat); [reflexivity|].
    cbn [score_add score_div option_map]. f_equal.
    assert (Hqp : Qp b h i = Qh b h i).
    { unfold Qp. apply tabulate_ext. intros c0 Hc0.
      destruct (Nat.ltb_spec i T); [reflexivity|lia]. }
    unfold qu, qv. rewrite Hqp.
    unfold dot at 3. cbn [combine map fst snd sum fold_right lit add mul div real_scalar].
    destruct (Mp b (i + c - w)%nat); lra. }
  rewrite <- Hrow. symmetry.
  etransitivity; [apply (tabulate_of_list (lit 0))|].
  unfold softmax at 1. now rewrite length_map, tabulate_length.
Qed.
End LocalFormula.

(** One head of width one, a window of two on each side, three frames of
    which the last is padding, and the five positional rows [2 .. -2]. *)
Lemma local_forward_is_windowed_attention_witness :
  exists out,
    RelPositionMultiHeadAttentionLongformer.forward 1 1 (fun x => x) (fun x => x)
      (fun x => x) (fun x => x) (fun x => x) [[0%R]] [[0%R]] (2, 2)%Z 0 0%Z 7%R
      [[[1]; [2]; [3]]]%R [[[1]; [2]; [3]]]%R [[[4]; [5]; [6]]]%R [[false; false; true]]
      [[[1]; [2]; [3]; [4]; [5]]]%R (Buffers None None)
    = (Ok out, Buffers None None) /\ shaped3 1 3 1 out.
Proof.
  eexists. split.
  - apply (@local_forward_is_windowed_attention 1 1 (fun x => x) (fun x => x) (fun x => x)
             (fun x => x) (fun x => x) [[0%R]] [[0%R]] 0 0%Z 7%R 1 2 1 1 3).
    + lia.
    + reflexivity.
    + lia.
    + lia.
    + simpl. lia.
    + simpl. lia.
    + repeat constructor.
    + repeat constructor.
    + repeat constructor.
    + repeat constructor.
    + repeat constructor.
    + intros y Hy. exact Hy.
    + intros y Hy. exact Hy.
    + intros y Hy. exact Hy.
    + intros y Hy. exact Hy.
    + repeat constructor.
    + repeat constructor.
    + reflexivity.
  - repeat constructor.
Defined.
